(** * NiftyBot: the backtest simulator of [backtest.py]

    A shallow embedding of [_normalize_signal], [_ensure_datetime_index],
    [backtest] and [backtest_all], and the properties of the trade execution
    engine, the portfolio accountant and the multi-ticker orchestrator.

    Conventions of the embedding:
    - a pandas cell that [pd.isna] accepts (None, NaN, NaT) is [None] of an
      option type, or a float on which [fisnan] answers [true];
    - Python floats are kept abstract behind the class [Arith]; the engine
      only multiplies, subtracts, divides and compares with zero, so every
      structural property holds for any arithmetic.  The instance
      [Float_Arith] interprets them as what they are, binary64 floats with
      their rounding, infinities and NaN; the instance [Q_Arith] interprets
      them as exact rationals, for the examples whose figures are fractions;
    - a string is a sequence of ASCII characters: [str.strip] and
      [str.upper] are modelled on ASCII, where they agree with Python's;
    - a Python exception is the [Raise] constructor of [result];
    - a dict keyed by ticker is a [gmap string _]. *)

From stdpp Require Import gmap strings list fin_maps.
From Stdlib Require Import QArith Qround Sorted Floats.

Local Close Scope Q_scope.

(** ** Exceptions *)

Inductive exn : Type :=
| ZeroDivisionError
| IndexError
| TypeError.

Inductive result (A : Type) : Type :=
| Ok (a : A)
| Raise (e : exn).

Arguments Ok {A} a.
Arguments Raise {A} e.

Global Instance result_ret : MRet result := λ A a, Ok a.

Global Instance result_bind : MBind result := λ A B k m,
  match m with
  | Ok a => k a
  | Raise e => Raise e
  end.

(** ** Floating-point numbers, abstractly *)

Class Arith (F : Type) : Type := {
  fzero : F;                      (* 0, 0.0 *)
  fofZ : Z → F;                   (* float(n) of an int n *)
  fadd : F → F → F;
  fsub : F → F → F;
  fmul : F → F → F;
  fdiv : F → F → F;               (* x / y when y is not zero *)
  fgt0 : F → bool;                (* x > 0 *)
  feq0 : F → bool;                (* x == 0 *)
  fisnan : F → bool;              (* pd.isna(x) *)
  ftrunc : F → option Z;          (* int(x); None when int() raises *)
  fround2 : F → F;                (* round(x, 2) *)
  fgt0_nonzero : ∀ x, fgt0 x = true → feq0 x = false
}.

(** ** Signals *)

Inductive signal : Type := BUY | SELL | HOLD.

Global Instance signal_eq_dec : EqDecision signal.
Proof. solve_decision. Defined.

(** The strings of the file are sequences of ASCII characters (codes below
    128); Python's Unicode whitespace and case mappings beyond ASCII are not
    part of the model. *)

(** [str.isspace] on ASCII: tab, newline, vertical tab, form feed, carriage
    return, the four separators 28 to 31, and the space. *)
Definition is_space (c : Ascii.ascii) : bool :=
  let n := Ascii.nat_of_ascii c in
  ((9 <=? n) && (n <=? 13)) || ((28 <=? n) && (n <=? 32)).

Fixpoint lstrip (s : string) : string :=
  match s with
  | EmptyString => EmptyString
  | String c s' => if is_space c then lstrip s' else s
  end.

Fixpoint rstrip (s : string) : string :=
  match s with
  | EmptyString => EmptyString
  | String c s' =>
      match rstrip s' with
      | EmptyString => if is_space c then EmptyString else String c EmptyString
      | r => String c r
      end
  end.

(** [str.strip()] *)
Definition strip (s : string) : string := rstrip (lstrip s).

Definition upper_ascii (c : Ascii.ascii) : Ascii.ascii :=
  let n := Ascii.nat_of_ascii c in
  if (97 <=? n) && (n <=? 122) then Ascii.ascii_of_nat (n - 32) else c.

(** [str.upper()] *)
Fixpoint upper (s : string) : string :=
  match s with
  | EmptyString => EmptyString
  | String c s' => String (upper_ascii c) (upper s')
  end.

(** [s in (a, b, c)] *)
Definition str_in (s : string) (l : list string) : bool :=
  existsb (String.eqb s) l.

Section Engine.

Context {F : Type} `{Arith F}.

(** A value found in the Signal column. *)
Inductive pyval : Type :=
| VNone                 (* None, NaT, pd.NA *)
| VInt (n : Z)          (* int, np.integer *)
| VFloat (x : F)        (* float, np.floating; NaN is a float *)
| VStr (s : string).    (* a str *)

(** [pd.isna(val)] *)
Definition isna_val (val : pyval) : bool :=
  match val with
  | VNone => true
  | VFloat x => fisnan x
  | _ => false
  end.

Definition signal_of_int (v : Z) : signal :=
  if (v =? 1)%Z then BUY
  else if (v =? -1)%Z then SELL
  else HOLD.

Definition _normalize_signal (val : pyval) : signal :=
  if isna_val val then HOLD
  else
    match val with
    | VInt n => signal_of_int n
    | VFloat x =>
        match ftrunc x with
        | Some v => signal_of_int v
        | None => HOLD              (* except Exception *)
        end
    | VStr s0 =>
        let s := upper (strip s0) in
        if str_in s ["BUY"; "B"; "1"] then BUY
        else if str_in s ["SELL"; "S"; "-1"] then SELL
        else HOLD
    | VNone => HOLD
    end.

(** ** The data model *)

(** One row of a ticker's table.  [Open] and [Close] are read after
    [pd.to_numeric(..., errors="coerce")]: a float, or [None] for NaN. *)
Record Row : Type := {
  row_date : Z;
  row_Open : option F;
  row_Close : option F;
  row_Signal : pyval
}.

(** A DataFrame: which of the three columns exist, and the rows. *)
Record DataFrame : Type := {
  has_Open : bool;
  has_Close : bool;
  has_Signal : bool;
  df_rows : list Row
}.

(** One dict of the list [trades]; [None] is [pd.NaT] or [np.nan]. *)
Record Trade : Type := {
  Entry_Date : Z;
  Entry_Price : F;
  Exit_Date : option Z;
  Exit_Price : option F;
  Qty : F;
  PnL : option F
}.

Record Summary : Type := {
  Final_Capital : F;
  Total_Trades : nat;
  Wins : nat;
  Win_Ratio : F;
  Total_PnL : F;
  Return_pct : F
}.

(** The local variables of [backtest] that the loop updates. *)
Record State : Type := {
  trades : list Trade;
  in_position : bool;
  entry_price : option F;
  entry_qty : option F;
  capital : F
}.

(** ** [_ensure_datetime_index]: sort the rows by date, ascending *)

Fixpoint insert_sorted (r : Row) (l : list Row) : list Row :=
  match l with
  | [] => [r]
  | r' :: l' =>
      if (row_date r <=? row_date r')%Z then r :: l
      else r' :: insert_sorted r l'
  end.

Definition sort_index (l : list Row) : list Row :=
  foldr insert_sorted [] l.

Definition _ensure_datetime_index (df : DataFrame) : DataFrame :=
  {| has_Open := has_Open df; has_Close := has_Close df;
     has_Signal := has_Signal df; df_rows := sort_index (df_rows df) |}.

(** ** Primitive operations that can raise *)

(** [x / y] on Python floats *)
Definition py_div (x y : F) : result F :=
  if feq0 y then Raise ZeroDivisionError else Ok (fdiv x y).

(** [df.iloc[i]] *)
Definition iloc (l : list Row) (i : nat) : result Row :=
  match l !! i with
  | Some r => Ok r
  | None => Raise IndexError
  end.

(** Arithmetic on a variable that may hold [None] *)
Definition the_float (o : option F) : result F :=
  match o with
  | Some x => Ok x
  | None => Raise TypeError
  end.

(** [trades[-1].update(...)] *)
Definition update_last (f : Trade → Trade) (l : list Trade) : result (list Trade) :=
  match last l with
  | Some t => Ok (removelast l ++ [f t])
  | None => Raise IndexError
  end.

(** ** The pieces of [backtest] *)

(** [not pd.isna(row.get(col))], with the float when it holds *)
Definition notna (c : option F) : option F :=
  match c with
  | Some x => if fisnan x then None else Some x
  | None => None
  end.

(** The column [col] of a row, [None] when the table lacks the column:
    ["Open" in df.columns and not pd.isna(next_row.get("Open"))]. *)
Definition get_Open (df : DataFrame) (r : Row) : option F :=
  if has_Open df then notna (row_Open r) else None.

Definition get_Close (df : DataFrame) (r : Row) : option F :=
  if has_Close df then notna (row_Close r) else None.

(** Lines 103-109: the execution price at the next row. *)
Definition exec_price_of (df : DataFrame) (next_row : Row) : option F :=
  match get_Open df next_row with
  | Some p => Some p
  | None => get_Close df next_row
  end.

(** Lines 142-148: the price of the forced close at the last row. *)
Definition last_price_of (df : DataFrame) (last_row : Row) : option F :=
  match get_Close df last_row with
  | Some p => Some p
  | None => get_Open df last_row
  end.

Definition open_trade (exec_date : Z) (price qty : F) : Trade :=
  {| Entry_Date := exec_date; Entry_Price := price;
     Exit_Date := None; Exit_Price := None;
     Qty := qty; PnL := None |}.

Definition close_trade (exit_date : Z) (exit_price pnl : F) (t : Trade) : Trade :=
  {| Entry_Date := Entry_Date t; Entry_Price := Entry_Price t;
     Exit_Date := Some exit_date; Exit_Price := Some exit_price;
     Qty := Qty t; PnL := Some pnl |}.

(** Lines 113-124: an accepted BUY. *)
Definition do_buy (exec_date : Z) (exec_price : F) (st : State) : result State :=
  qty ← (if fgt0 exec_price then py_div (capital st) exec_price else Ok fzero);
  Ok {| trades := trades st ++ [open_trade exec_date exec_price qty];
        in_position := true;
        entry_price := Some exec_price;
        entry_qty := Some qty;
        capital := capital st |}.

(** Lines 126-138: an accepted SELL. *)
Definition do_sell (exec_date : Z) (exec_price : F) (st : State) : result State :=
  ep ← the_float (entry_price st);
  eq ← the_float (entry_qty st);
  let pnl := fmul (fsub exec_price ep) eq in
  let capital' := fmul eq exec_price in
  trades' ← update_last (close_trade exec_date exec_price pnl) (trades st);
  Ok {| trades := trades'; in_position := false;
        entry_price := None; entry_qty := None; capital := capital' |}.

(** What the loop body does once the execution price is known. *)
Definition execute (sig : signal) (exec_date : Z) (exec_price : F) (st : State)
  : result State :=
  match sig, in_position st with
  | BUY, false => do_buy exec_date exec_price st
  | SELL, true => do_sell exec_date exec_price st
  | _, _ => Ok st
  end.

(** Lines 100-138: the body of [for i in range(len(df) - 1)]. *)
Definition loop_body (df : DataFrame) (i : nat) (st : State) : result State :=
  row ← iloc (df_rows df) i;
  let sig := _normalize_signal (row_Signal row) in
  next_row ← iloc (df_rows df) (S i);
  match exec_price_of df next_row with
  | None => Ok st                                  (* continue *)
  | Some exec_price => execute sig (row_date next_row) exec_price st
  end.

(** [for i in range(start, start + n)], threading the state. *)
Fixpoint for_range (body : nat → State → result State) (start n : nat) (st : State)
  : result State :=
  match n with
  | O => Ok st
  | S n' => st' ← body start st; for_range body (S start) n' st'
  end.

Definition init_state (initial_capital : F) : State :=
  {| trades := []; in_position := false;
     entry_price := None; entry_qty := None; capital := initial_capital |}.

Definition run_loop (df : DataFrame) (initial_capital : F) : result State :=
  for_range (loop_body df) 0 (length (df_rows df) - 1) (init_state initial_capital).

(** Lines 140-158: the forced close at the end of the series. *)
Definition force_close (df : DataFrame) (st : State) : result State :=
  if in_position st then
    last_row ← iloc (df_rows df) (length (df_rows df) - 1);
    match last_price_of df last_row with
    | Some last_price =>
        ep ← the_float (entry_price st);
        eq ← the_float (entry_qty st);
        let pnl := fmul (fsub last_price ep) eq in
        let capital' := fmul eq last_price in
        trades' ← update_last (close_trade (row_date last_row) last_price pnl) (trades st);
        Ok {| trades := trades'; in_position := false;
              entry_price := entry_price st; entry_qty := entry_qty st;
              capital := capital' |}
    | None =>
        Ok {| trades := trades st; in_position := false;
              entry_price := entry_price st; entry_qty := entry_qty st;
              capital := capital st |}
    end
  else Ok st.

(** The engine: the state after the loop and the forced close. *)
Definition simulate (df : DataFrame) (initial_capital : F) : result State :=
  st ← run_loop df initial_capital;
  force_close df st.

(** ** The accountant: lines 160-209 *)

Definition zero_summary (initial_capital : F) : Summary :=
  {| Final_Capital := initial_capital; Total_Trades := 0; Wins := 0;
     Win_Ratio := fzero; Total_PnL := fzero; Return_pct := fzero |}.

(** [round(((capital - initial_capital) / initial_capital) * 100, 2)] *)
Definition return_pct (capital0 initial_capital : F) : result F :=
  q ← py_div (fsub capital0 initial_capital) initial_capital;
  Ok (fround2 (fmul q (fofZ 100))).

(** The summary of the two early exits, lines 164-172 and 180-188. *)
Definition no_trade_summary (capital0 initial_capital : F) : result Summary :=
  r ← return_pct capital0 initial_capital;
  Ok {| Final_Capital := capital0; Total_Trades := 0; Wins := 0;
        Win_Ratio := fzero; Total_PnL := fzero; Return_pct := r |}.

(** A row that [dropna(subset=["Exit Date"])] keeps. *)
Definition is_closed (t : Trade) : bool :=
  match Exit_Date t with
  | Some _ => true
  | None => false
  end.

(** [pd.to_numeric(completed["P&L"], errors="coerce").fillna(0.0)] *)
Definition fill_PnL (t : Trade) : Trade :=
  {| Entry_Date := Entry_Date t; Entry_Price := Entry_Price t;
     Exit_Date := Exit_Date t; Exit_Price := Exit_Price t;
     Qty := Qty t; PnL := Some (default fzero (notna (PnL t))) |}.

Definition pnl_of (t : Trade) : F := default fzero (PnL t).

(** [completed["P&L"].sum()], added from the first row on; the order in which
    pandas adds is not part of the model. *)
Definition sum_PnL (l : list Trade) : F :=
  fold_left fadd (map pnl_of l) fzero.

Definition count_wins (l : list Trade) : nat :=
  length (List.filter (λ t, fgt0 (pnl_of t)) l).

Definition summarize (all_trades : list Trade) (capital0 initial_capital : F)
  : result (list Trade * Summary) :=
  match all_trades with
  | [] =>                                          (* trades_df.empty *)
      s ← no_trade_summary capital0 initial_capital; Ok ([], s)
  | _ =>
      match List.filter is_closed all_trades with
      | [] =>                                      (* completed.empty *)
          s ← no_trade_summary capital0 initial_capital; Ok ([], s)
      | completed0 =>
          let completed := map fill_PnL completed0 in
          let total_trades := length completed in
          let wins := count_wins completed in
          let total_pnl := sum_PnL completed in
          let win_ratio :=
            if 0 <? total_trades
            then fround2 (fmul (fdiv (fofZ (Z.of_nat wins)) (fofZ (Z.of_nat total_trades)))
                               (fofZ 100))
            else fzero in
          total_return_pct ← return_pct capital0 initial_capital;
          Ok (completed,
              {| Final_Capital := capital0; Total_Trades := total_trades;
                 Wins := wins; Win_Ratio := win_ratio;
                 Total_PnL := total_pnl; Return_pct := total_return_pct |})
      end
  end.

(** ** [backtest] *)

Definition backtest (df0 : DataFrame) (initial_capital : F)
  : result (list Trade * Summary) :=
  let df := _ensure_datetime_index df0 in
  if (length (df_rows df) <? 2) || negb (has_Signal df) then
    Ok ([], zero_summary initial_capital)
  else
    st ← simulate df initial_capital;
    summarize (trades st) (capital st) initial_capital.

(** ** Vocabulary of the properties *)

Implicit Types (st : State) (df : DataFrame) (t : Trade) (l : list Trade).

Definition date_le (r1 r2 : Row) : Prop := (row_date r1 ≤ row_date r2)%Z.

(** The state after the first [k] iterations of the loop. *)
Definition state_after df (initial_capital : F) (k : nat) : result State :=
  for_range (loop_body df) 0 k (init_state initial_capital).

(** A trade whose exit fields are absent. *)
Definition is_open t : Prop :=
  Exit_Date t = None ∧ Exit_Price t = None ∧ PnL t = None.

Definition all_closed l : Prop := Forall (λ t, is_closed t = true) l.

(** The loop invariant: either the engine is flat and every trade is closed,
    or it holds the last trade, the only open one, whose price and quantity
    are the ones in [entry_price] and [entry_qty]. *)
Inductive position_ok st : Prop :=
| Flat :
    in_position st = false → all_closed (trades st) → position_ok st
| Holding tl t :
    in_position st = true → trades st = tl ++ [t] →
    all_closed tl → is_open t →
    entry_price st = Some (Entry_Price t) → entry_qty st = Some (Qty t) →
    position_ok st.

Definition buy_qty (capital0 price : F) : F :=
  if fgt0 price then fdiv capital0 price else fzero.

Definition after_buy (d : Z) (p : F) st : State :=
  {| trades := trades st ++ [open_trade d p (buy_qty (capital st) p)];
     in_position := true;
     entry_price := Some p;
     entry_qty := Some (buy_qty (capital st) p);
     capital := capital st |}.

Definition pnl_at (p : F) t : F := fmul (fsub p (Entry_Price t)) (Qty t).

(** What an executed decision does to the state: an accepted BUY appends an
    open trade, an accepted SELL fills the exit fields of the last trade, and
    anything else leaves the state as it is. *)
Definition decision_executed (sig : signal) (d : Z) (p : F) st st' : Prop :=
  match sig, in_position st with
  | BUY, false =>
      trades st' = trades st ++ [open_trade d p (buy_qty (capital st) p)]
      ∧ in_position st' = true ∧ capital st' = capital st
  | SELL, true =>
      ∃ tl t, trades st = tl ++ [t]
        ∧ trades st' = tl ++ [close_trade d p (pnl_at p t) t]
        ∧ in_position st' = false ∧ capital st' = fmul (Qty t) p
  | _, _ => st' = st
  end.

(** The cells of the price columns, as the table has them: a cell holds the
    price [p] when its column exists and the cell is [p], not NaN; it holds
    no price when the column is missing or the cell is NaN. *)
Definition priced (has_col : bool) (cell : option F) (p : F) : Prop :=
  has_col = true ∧ cell = Some p ∧ fisnan p = false.

Definition unpriced (has_col : bool) (cell : option F) : Prop :=
  has_col = false ∨ cell = None ∨ ∃ x, cell = Some x ∧ fisnan x = true.

(** The Open of a row when it holds a price, else its Close. *)
Definition open_else_close df (r : Row) (p : F) : Prop :=
  priced (has_Open df) (row_Open r) p
  ∨ (unpriced (has_Open df) (row_Open r) ∧ priced (has_Close df) (row_Close r) p).

(** The Close of a row when it holds a price, else its Open. *)
Definition close_else_open df (r : Row) (p : F) : Prop :=
  priced (has_Close df) (row_Close r) p
  ∨ (unpriced (has_Close df) (row_Close r) ∧ priced (has_Open df) (row_Open r) p).

(** [t'] is the trade [t] closed on date [d] at price [p]: the entry fields
    are those of [t], the exit fields are [d], [p] and the P&L at [p]. *)
Definition closes (d : Z) (p : F) t t' : Prop :=
  Entry_Date t' = Entry_Date t ∧ Entry_Price t' = Entry_Price t
  ∧ Qty t' = Qty t
  ∧ Exit_Date t' = Some d ∧ Exit_Price t' = Some p
  ∧ PnL t' = Some (fmul (fsub p (Entry_Price t)) (Qty t)).

(** [decision_executed], field by field: an accepted BUY appends a trade
    entered on [d] at [p], sized against the capital, with no exit field; an
    accepted SELL closes the last trade on [d] at [p] and takes its quantity
    times [p] as the capital; anything else leaves the state as it is. *)
Definition executed_at (sig : signal) (d : Z) (p : F) st st' : Prop :=
  match sig, in_position st with
  | BUY, false =>
      ∃ t, trades st' = trades st ++ [t]
        ∧ Entry_Date t = d ∧ Entry_Price t = p
        ∧ Qty t = (if fgt0 p then fdiv (capital st) p else fzero)
        ∧ Exit_Date t = None ∧ Exit_Price t = None ∧ PnL t = None
        ∧ in_position st' = true ∧ capital st' = capital st
  | SELL, true =>
      ∃ tl t t', trades st = tl ++ [t] ∧ trades st' = tl ++ [t']
        ∧ closes d p t t'
        ∧ in_position st' = false ∧ capital st' = fmul (Qty t) p
  | _, _ => st' = st
  end.

(** Consecutive trades do not overlap: the exit of each trade but the last is
    recorded, and it is not after the entry of the next trade. *)
Fixpoint non_overlapping l : Prop :=
  match l with
  | t1 :: (t2 :: _) as l' =>
      (∃ e, Exit_Date t1 = Some e ∧ (e ≤ Entry_Date t2)%Z) ∧ non_overlapping l'
  | _ => True
  end.

(** Every date written in the trades is at most [d]. *)
Definition dates_upto (d : Z) l : Prop :=
  Forall (λ t, (Entry_Date t ≤ d)%Z ∧ ∀ e, Exit_Date t = Some e → (e ≤ d)%Z) l.

(** How one step may touch the capital: either it leaves the capital and the
    closed trades alone, or it closes the open last trade and sets the capital
    to that trade's quantity times its exit price. *)
Definition capital_rule st st' : Prop :=
  (capital st' = capital st
   ∧ List.filter is_closed (trades st') = List.filter is_closed (trades st))
  ∨ (∃ tl t t' p,
       trades st = tl ++ [t] ∧ is_closed t = false
       ∧ trades st' = tl ++ [t'] ∧ is_closed t' = true
       ∧ Qty t' = Qty t ∧ Exit_Price t' = Some p
       ∧ capital st' = fmul (Qty t') p).

(** The win ratio that [summarize] reports for a list of completed trades. *)
Definition win_ratio_of l : F :=
  if 0 <? length l
  then fround2 (fmul (fdiv (fofZ (Z.of_nat (count_wins l))) (fofZ (Z.of_nat (length l))))
                     (fofZ 100))
  else fzero.

(** ** [backtest_all] *)

(** [last_date - pd.DateOffset(months=months)]; the calendar is a parameter. *)
Variable minus_months : Z → Z → Z.

(** [df_local.loc[start_date:last_date]] *)
Definition loc_slice (df : DataFrame) (start_date last_date : Z) : DataFrame :=
  {| has_Open := has_Open df; has_Close := has_Close df;
     has_Signal := has_Signal df;
     df_rows := List.filter (λ r, (start_date <=? row_date r)%Z && (row_date r <=? last_date)%Z)
                            (df_rows df) |}.

(** The body of the [try]: [Ok None] is the [continue] of line 234, which
    writes nothing. *)
Definition try_ticker (df : DataFrame) (initial_capital : F) (months : Z)
  : result (option (list Trade * Summary)) :=
  let df_local := _ensure_datetime_index df in
  match df_rows df_local with
  | [] => Ok None
  | r :: rs =>
      let last_date := foldr Z.max (row_date r) (map row_date rs) in
      let start_date := minus_months last_date months in
      let df_slice := loc_slice df_local start_date last_date in
      if (length (df_rows df_slice) =? 0) || negb (has_Signal df_slice) then
        Ok (Some ([], zero_summary initial_capital))
      else
        res ← backtest df_slice initial_capital;
        Ok (Some res)
  end.

(** One iteration of [for ticker, df in data_dict.items()], with its
    [except Exception]. *)
Definition backtest_ticker (initial_capital : F) (months : Z)
    (ticker : string) (df : DataFrame)
    (acc : gmap string (list Trade) * gmap string Summary)
  : gmap string (list Trade) * gmap string Summary :=
  match try_ticker df initial_capital months with
  | Ok None => acc
  | Ok (Some (trades_df, summary)) =>
      (<[ticker := trades_df]> acc.1, <[ticker := summary]> acc.2)
  | Raise _ =>
      (<[ticker := []]> acc.1, <[ticker := zero_summary initial_capital]> acc.2)
  end.

Definition backtest_all (data_dict : gmap string DataFrame)
    (initial_capital : F) (months : Z)
  : gmap string (list Trade) * gmap string Summary :=
  map_fold (backtest_ticker initial_capital months) (∅, ∅) data_dict.

End Engine.

Arguments pyval F : clear implicits.
Arguments Row F : clear implicits.
Arguments DataFrame F : clear implicits.
Arguments Trade F : clear implicits.
Arguments Summary F : clear implicits.
Arguments State F : clear implicits.

(** ** Exact rational arithmetic *)

(** [round] to the nearest integer, ties to the even one. *)
Definition Zround_half_even (q : Q) : Z :=
  let f := Qfloor q in
  match Qcompare (q - inject_Z f) (1 # 2) with
  | Lt => f
  | Gt => (f + 1)%Z
  | Eq => if Z.even f then f else (f + 1)%Z
  end.

Definition Qround2 (q : Q) : Q :=
  Qred (inject_Z (Zround_half_even (q * 100)) / 100).

#[refine] Global Instance Q_Arith : Arith Q := {|
  fzero := 0%Q;
  fofZ := inject_Z;
  fadd := λ x y, Qred (x + y);
  fsub := λ x y, Qred (x - y);
  fmul := λ x y, Qred (x * y);
  fdiv := λ x y, Qred (x / y);
  fgt0 := λ x, (0 <? Qnum x)%Z;
  feq0 := λ x, (Qnum x =? 0)%Z;
  fisnan := λ _, false;
  ftrunc := λ x, Some (Z.quot (Qnum x) (Z.pos (Qden x)));
  fround2 := Qround2
|}.
Proof. intros x Hx. apply Z.eqb_neq. apply Z.ltb_lt in Hx. lia. Defined.

(** ** Binary64 arithmetic *)

(** Python's floats are IEEE 754 binary64 numbers: the primitive floats of
    the kernel, with their rounding, their signed zeros, their infinities
    and NaN. *)

(** The exact value of the finite float of mantissa [m] and exponent [e]. *)
Definition SF2Q (m : positive) (e : Z) : Q :=
  match e with
  | Z0 => inject_Z (Z.pos m)
  | Zpos p => inject_Z (Z.pos m * 2 ^ Z.pos p)
  | Zneg p => Z.pos m # (2 ^ p)
  end.

(** [int(x)]: the float truncated toward zero; [int()] raises on NaN and on
    the infinities. *)
Definition float_trunc (x : float) : option Z :=
  match Prim2SF x with
  | S754_zero _ => Some 0%Z
  | S754_infinity _ | S754_nan => None
  | S754_finite s m e =>
      let a := if (0 <=? e)%Z then (Z.pos m * 2 ^ e)%Z else (Z.pos m / 2 ^ (- e))%Z in
      Some (if s then (- a)%Z else a)
  end.

(** [float(n)]: the nearest float. *)
Definition float_ofZ (n : Z) : float :=
  SF2Prim (binary_normalize prec emax n 0 false).

(** [round(x, 2)]: NaN and the infinities round to themselves; a finite
    float is rounded, from its exact value, to the nearest multiple of 0.01,
    ties to the even one, and the result is the float nearest to that
    decimal, with the sign of [x]. *)
Definition float_round2 (x : float) : float :=
  match Prim2SF x with
  | S754_finite s m e =>
      match Zround_half_even (SF2Q m e * 100) with
      | Zpos r => SF2Prim (SFdiv prec emax (S754_finite s r 0) (S754_finite false 100 0))
      | _ => SF2Prim (S754_zero s)
      end
  | _ => x
  end.

#[refine] Global Instance Float_Arith : Arith float := {|
  fzero := 0%float;
  fofZ := float_ofZ;
  fadd := PrimFloat.add;
  fsub := PrimFloat.sub;
  fmul := PrimFloat.mul;
  fdiv := PrimFloat.div;
  fgt0 := λ x, (0 <? x)%float;
  feq0 := λ x, (x =? 0)%float;
  fisnan := is_nan;
  ftrunc := float_trunc;
  fround2 := float_round2
|}.
Proof.
  intros x. rewrite ltb_spec, eqb_spec.
  change (Prim2SF 0) with (S754_zero false).
  destruct (Prim2SF x) as [s|s| |s m e]; try done; by destruct s.
Defined.

(** The calendar used when a concrete one is needed: a month of 30 days on
    dates counted in days. *)
Definition minus_months_30 (d months : Z) : Z := (d - 30 * months)%Z.

Definition bar (d : Z) (o c : Q) (s : signal) : Row Q :=
  {| row_date := d; row_Open := Some o; row_Close := Some c;
     row_Signal := VStr (match s with BUY => "BUY" | SELL => "SELL" | HOLD => "HOLD" end) |}.

Definition table (l : list (Row Q)) : DataFrame Q :=
  {| has_Open := true; has_Close := true; has_Signal := true; df_rows := l |}.

Definition scenario : DataFrame Q :=
  table [bar 0 10 10 BUY; bar 1 11 12 HOLD; bar 2 13 14 SELL; bar 3 15 15 HOLD].

(** A series that ends holding a position, with no price at all in the last
    row. *)
Definition no_price_row (d : Z) : Row Q :=
  {| row_date := d; row_Open := None; row_Close := None; row_Signal := VStr "HOLD" |}.

Definition open_tail : DataFrame Q :=
  table [bar 0 10 10 BUY; bar 1 10 10 HOLD; no_price_row 2].

(** The same, but the last row has an Open of 20 and no Close. *)
Definition open_only_tail : DataFrame Q :=
  table [bar 0 10 10 BUY; bar 1 10 10 HOLD;
         {| row_date := 2; row_Open := Some 20%Q; row_Close := None;
            row_Signal := VStr "HOLD" |}].

(** A series that buys at a price of zero and sells later. *)
Definition zero_price : DataFrame Q :=
  table [bar 0 1 1 BUY; bar 1 0 0 HOLD; bar 2 5 5 SELL; bar 3 5 5 HOLD].

(** A ticker without any row. *)
Definition no_data : DataFrame Q := table [].

(** The state in which the loop leaves [open_tail] and [open_only_tail]. *)
Definition holding_state : State Q :=
  {| trades := [open_trade 1 10%Q 100%Q]; in_position := true;
     entry_price := Some 10%Q; entry_qty := Some 100%Q; capital := 1000%Q |}.

(** The normalisation as the specification words it: the value itself is
    compared with the listed forms, with no truncation, trimming or change of
    case. *)
Definition spec_normalize_signal (val : pyval Q) : signal :=
  match val with
  | VNone => HOLD
  | VInt n => signal_of_int n
  | VFloat x =>
      if Qeq_bool x 1 then BUY else if Qeq_bool x (-1) then SELL else HOLD
  | VStr s =>
      if str_in s ["BUY"; "B"; "1"] then BUY
      else if str_in s ["SELL"; "S"; "-1"] then SELL
      else HOLD
  end.

(** A series of one bar. *)
Definition single_bar : DataFrame Q := table [bar 0 10 10 BUY].

(** A portfolio of one ticker that has no data. *)
Definition one_empty_ticker : gmap string (DataFrame Q) := {["TCS.NS" := no_data]}.

(** The scenario without its Signal column. *)
Definition no_signal : DataFrame Q :=
  {| has_Open := true; has_Close := true; has_Signal := false;
     df_rows := df_rows scenario |}.

(** ** Vocabulary of the further properties *)

Section Ledger.

Context {F : Type} `{Arith F}.

(** The value at which a trade was closed: its quantity times its exit
    price. *)
Definition closing_value (t : Trade F) : option F :=
  p ← Exit_Price t; Some (fmul (Qty t) p).

(** The capital after the trades of a list: every closed trade replaces it
    by its closing value. *)
Definition value_after (c : F) (l : list (Trade F)) : F :=
  fold_left (λ c t, default c (closing_value t)) l c.

(** Every trade is sized against the capital that the trades before it
    left. *)
Fixpoint sized_against (c : F) (l : list (Trade F)) : Prop :=
  match l with
  | [] => True
  | t :: l' =>
      Qty t = buy_qty c (Entry_Price t)
      ∧ sized_against (default c (closing_value t)) l'
  end.

(** The exit fields of a trade are all absent, or all present with the P&L
    of the exit price. *)
Definition exit_fields_together (t : Trade F) : Prop :=
  is_open t
  ∨ ∃ d p, Exit_Date t = Some d ∧ Exit_Price t = Some p
           ∧ PnL t = Some (pnl_at p t).

(** What a step of the engine does to the capital and the trade list:
    nothing, or it opens a trade sized against the capital, or it closes the
    open last trade and takes its closing value as the capital. *)
Inductive ledger_step : relation (F * list (Trade F)) :=
| ledger_same c l :
    ledger_step (c, l) (c, l)
| ledger_open c l d p :
    all_closed l →
    ledger_step (c, l) (c, l ++ [open_trade d p (buy_qty c p)])
| ledger_close c tl t d p :
    all_closed tl → is_open t →
    ledger_step (c, tl ++ [t])
                (fmul (Qty t) p, tl ++ [close_trade d p (pnl_at p t) t]).

Definition ledger_of (st : State F) : F * list (Trade F) :=
  (capital st, trades st).

(** The ledgers that the engine can reach from the initial capital. *)
Definition ledger_ok (initial_capital : F) (cl : F * list (Trade F)) : Prop :=
  Forall exit_fields_together cl.2
  ∧ all_closed (removelast cl.2)
  ∧ sized_against initial_capital cl.2
  ∧ cl.1 = value_after initial_capital cl.2.

(** The exit of a trade, when recorded, is not before its entry. *)
Definition entry_le_exit (t : Trade F) : Prop :=
  ∀ e, Exit_Date t = Some e → (Entry_Date t ≤ e)%Z.

(** A trade entered on the BUY of row [i]: at the date of row [i+1], at that
    row's Open, else its Close. *)
Definition entered_at (df : DataFrame F) (i : nat) (t : Trade F) : Prop :=
  ∃ row next,
    df_rows df !! i = Some row ∧ df_rows df !! S i = Some next
    ∧ _normalize_signal (row_Signal row) = BUY
    ∧ Entry_Date t = row_date next
    ∧ open_else_close df next (Entry_Price t).

(** A trade closed on the SELL of row [j]: at the date of row [j+1], at that
    row's Open, else its Close. *)
Definition sold_at (df : DataFrame F) (j : nat) (t : Trade F) : Prop :=
  ∃ row next p,
    df_rows df !! j = Some row ∧ df_rows df !! S j = Some next
    ∧ _normalize_signal (row_Signal row) = SELL
    ∧ Exit_Date t = Some (row_date next)
    ∧ Exit_Price t = Some p ∧ open_else_close df next p.

(** A trade closed by the forced close: at the date of the last row, at its
    Close, else its Open. *)
Definition force_closed (df : DataFrame F) (t : Trade F) : Prop :=
  ∃ last_row p,
    last (df_rows df) = Some last_row
    ∧ Exit_Date t = Some (row_date last_row)
    ∧ Exit_Price t = Some p ∧ close_else_open df last_row p.

(** Where a trade of the list stands after [k] iterations. *)
Definition placed (df : DataFrame F) (k : nat) (t : Trade F) : Prop :=
  ∃ i, i < k ∧ entered_at df i t
       ∧ (is_open t ∨ ∃ j, i < j < k ∧ sold_at df j t).

(** What one iteration of [backtest_all] writes for a ticker: nothing, the
    result of the [try], or the empty list and zero summary of the
    [except]. *)
Definition ticker_entry (minus_months : Z → Z → Z) (df : DataFrame F)
    (initial_capital : F) (months : Z) : option (list (Trade F) * Summary F) :=
  match try_ticker minus_months df initial_capital months with
  | Ok None => None
  | Ok (Some res) => Some res
  | Raise _ => Some ([], zero_summary initial_capital)
  end.

End Ledger.

(** A string made of whitespace only. *)
Fixpoint all_space (s : string) : bool :=
  match s with
  | EmptyString => true
  | String c s' => is_space c && all_space s'
  end.

(** A string of ASCII characters, the strings of this development. *)
Fixpoint ascii_only (s : string) : bool :=
  match s with
  | EmptyString => true
  | String c s' => (Ascii.nat_of_ascii c <? 128) && ascii_only s'
  end.

(** ** [strategy.py] *)

(** A row of a table with indicators: the cells that the backtest reads, and
    the three indicator cells that the strategy reads ([None] is NaN). *)
Record IndicatorRow : Type := {
  ind_row : Row Q;
  RSI : option Q;
  SMA20 : option Q;
  SMA50 : option Q
}.

(** A table with indicators: the columns it has, and its rows. *)
Record IndicatorFrame : Type := {
  ind_Open : bool;
  ind_Close : bool;
  ind_Signal : bool;
  has_RSI : bool;
  has_SMA20 : bool;
  has_SMA50 : bool;
  ind_rows : list IndicatorRow
}.

(** [x < y] on floats *)
Definition Qlt_bool (x y : Q) : bool := negb (Qle_bool y x).

(** [column < constant], row by row: a comparison with NaN is False. *)
Definition cell_lt (c : option Q) (y : Q) : bool :=
  match c with
  | Some x => Qlt_bool x y
  | None => false
  end.

Definition cell_gt (c : option Q) (y : Q) : bool :=
  match c with
  | Some x => Qlt_bool y x
  | None => false
  end.

(** [column < column], row by row *)
Definition cells_lt (c1 c2 : option Q) : bool :=
  match c1, c2 with
  | Some x, Some y => Qlt_bool x y
  | _, _ => false
  end.

(** [(df["RSI"] < 30) & (df["SMA20"] > df["SMA50"])] *)
Definition buy_cond (r : IndicatorRow) : bool :=
  cell_lt (RSI r) 30 && cells_lt (SMA50 r) (SMA20 r).

(** [(df["RSI"] > 70) & (df["SMA20"] < df["SMA50"])] *)
Definition sell_cond (r : IndicatorRow) : bool :=
  cell_gt (RSI r) 70 && cells_lt (SMA20 r) (SMA50 r).

Definition set_Signal (v : string) (r : IndicatorRow) : IndicatorRow :=
  {| ind_row := {| row_date := row_date (ind_row r);
                   row_Open := row_Open (ind_row r);
                   row_Close := row_Close (ind_row r);
                   row_Signal := VStr v |};
     RSI := RSI r; SMA20 := SMA20 r; SMA50 := SMA50 r |}.

(** [df.loc[cond, "Signal"] = v] *)
Definition loc_assign (cond : IndicatorRow → bool) (v : string)
    (rows : list IndicatorRow) : list IndicatorRow :=
  map (λ r, if cond r then set_Signal v r else r) rows.

(** [apply_strategy]; [None] is the KeyError of a missing indicator
    column. *)
Definition apply_strategy (df : IndicatorFrame) : option IndicatorFrame :=
  let rows0 := map (set_Signal "HOLD") (ind_rows df) in       (* df["Signal"] = "HOLD" *)
  if has_RSI df && has_SMA20 df && has_SMA50 df then
    let rows1 := loc_assign buy_cond "BUY" rows0 in
    let rows2 := loc_assign sell_cond "SELL" rows1 in
    Some {| ind_Open := ind_Open df; ind_Close := ind_Close df;
            ind_Signal := true;
            has_RSI := has_RSI df; has_SMA20 := has_SMA20 df;
            has_SMA50 := has_SMA50 df;
            ind_rows := rows2 |}
  else None.

(** [apply_strategy_to_all]: a KeyError of one table ends the loop. *)
Definition apply_strategy_to_all (data_dict : gmap string IndicatorFrame)
  : option (gmap string IndicatorFrame) :=
  map_fold (λ ticker df acc,
              updated_data ← acc;
              df_with_signals ← apply_strategy df;
              Some (<[ticker := df_with_signals]> updated_data))
           (Some ∅) data_dict.

(** The columns of a table with indicators that [backtest] reads. *)
Definition to_frame (df : IndicatorFrame) : DataFrame Q :=
  {| has_Open := ind_Open df; has_Close := ind_Close df;
     has_Signal := ind_Signal df; df_rows := map ind_row (ind_rows df) |}.

(** The two rules of the strategy, on the cells of a row. *)
Definition buy_rule (r : IndicatorRow) : Prop :=
  ∃ x a b, RSI r = Some x ∧ SMA20 r = Some a ∧ SMA50 r = Some b
           ∧ (x < 30)%Q ∧ (b < a)%Q.

Definition sell_rule (r : IndicatorRow) : Prop :=
  ∃ x a b, RSI r = Some x ∧ SMA20 r = Some a ∧ SMA50 r = Some b
           ∧ (70 < x)%Q ∧ (a < b)%Q.

(** What the three assignments of [apply_strategy] leave in a row. *)
Definition labelled (r : IndicatorRow) : IndicatorRow :=
  if sell_cond r then set_Signal "SELL" r
  else if buy_cond r then set_Signal "BUY" r
  else set_Signal "HOLD" r.

(** ** Concrete inputs of the further properties *)

(** What [backtest] returns on the scenario. *)
Definition scenario_trade : Trade Q :=
  {| Entry_Date := 1; Entry_Price := 11%Q;
     Exit_Date := Some 3%Z; Exit_Price := Some 15%Q;
     Qty := (1000 # 11)%Q; PnL := Some (4000 # 11)%Q |}.

Definition scenario_summary : Summary Q :=
  {| Final_Capital := (15000 # 11)%Q; Total_Trades := 1; Wins := 1;
     Win_Ratio := 100%Q; Total_PnL := (4000 # 11)%Q;
     Return_pct := (909 # 25)%Q |}.

(** The state in which the engine leaves the scenario. *)
Definition scenario_final : State Q :=
  {| trades := [scenario_trade]; in_position := false;
     entry_price := None; entry_qty := None; capital := (15000 # 11)%Q |}.

(** The scenario with its first two rows exchanged. *)
Definition scenario_shuffled : DataFrame Q :=
  table [bar 1 11 12 HOLD; bar 0 10 10 BUY; bar 2 13 14 SELL; bar 3 15 15 HOLD].

(** A series without any BUY. *)
Definition no_buy_series : DataFrame Q :=
  table [bar 0 10 10 HOLD; bar 1 11 12 SELL; bar 2 13 14 HOLD].

(** Two round trips: in at 10 and out at 12, in again at 12 and out at
    15. *)
Definition two_round_trips : DataFrame Q :=
  table [bar 0 10 10 BUY; bar 1 10 11 SELL; bar 2 12 12 BUY; bar 3 12 13 SELL;
         bar 4 15 15 HOLD].

Definition first_trip : Trade Q :=
  {| Entry_Date := 1; Entry_Price := 10%Q;
     Exit_Date := Some 2%Z; Exit_Price := Some 12%Q;
     Qty := 100%Q; PnL := Some 200%Q |}.

Definition second_trip : Trade Q :=
  {| Entry_Date := 3; Entry_Price := 12%Q;
     Exit_Date := Some 4%Z; Exit_Price := Some 15%Q;
     Qty := 100%Q; PnL := Some 300%Q |}.

Definition round_trips_summary : Summary Q :=
  {| Final_Capital := 1500%Q; Total_Trades := 2; Wins := 2;
     Win_Ratio := 100%Q; Total_PnL := 500%Q; Return_pct := 50%Q |}.

(** The engine after the first round trip, and at the end of the run. *)
Definition after_first_trip : State Q :=
  {| trades := [first_trip]; in_position := false;
     entry_price := None; entry_qty := None; capital := 1200%Q |}.

Definition after_second_trip : State Q :=
  {| trades := [first_trip; second_trip]; in_position := false;
     entry_price := None; entry_qty := None; capital := 1500%Q |}.

(** A series of floats: the BUY of the first row is filled at a price of 0,
    the SELL of the second row at an infinite price. *)
Definition float_bar (d : Z) (o c : float) (s : string) : Row float :=
  {| row_date := d; row_Open := Some o; row_Close := Some c; row_Signal := VStr s |}.

(** The scenario of the specification, in floats. *)
Definition float_scenario : DataFrame float :=
  {| has_Open := true; has_Close := true; has_Signal := true;
     df_rows := [float_bar 0 10 10 "BUY"; float_bar 1 11 12 "HOLD";
                 float_bar 2 13 14 "SELL"; float_bar 3 15 15 "HOLD"] |}.

Definition infinite_exit : DataFrame float :=
  {| has_Open := true; has_Close := true; has_Signal := true;
     df_rows := [float_bar 0 10 10 "BUY"; float_bar 1 0 0 "SELL";
                 float_bar 2 infinity infinity "HOLD"] |}.

(** Two tickers, one of them without data. *)
Definition two_tickers : gmap string (DataFrame Q) :=
  {["INFY.NS" := scenario; "TCS.NS" := no_data]}.

Definition indicator_row (d : Z) (price : Q) (rsi sma20 sma50 : option Q)
  : IndicatorRow :=
  {| ind_row := {| row_date := d; row_Open := Some price; row_Close := Some price;
                   row_Signal := VNone |};
     RSI := rsi; SMA20 := sma20; SMA50 := sma50 |}.

Definition indicator_frame (rows : list IndicatorRow) : IndicatorFrame :=
  {| ind_Open := true; ind_Close := true; ind_Signal := false;
     has_RSI := true; has_SMA20 := true; has_SMA50 := true;
     ind_rows := rows |}.

(** A table of indicators with a BUY row, a quiet row, a SELL row and a row
    of NaN. *)
Definition indicators : IndicatorFrame :=
  indicator_frame
    [indicator_row 0 100 (Some 25%Q) (Some 105%Q) (Some 100%Q);
     indicator_row 1 101 (Some 50%Q) (Some 105%Q) (Some 100%Q);
     indicator_row 2 102 (Some 75%Q) (Some 95%Q) (Some 100%Q);
     indicator_row 3 103 None None None].

(** The same without its BUY row. *)
Definition quiet_indicators : IndicatorFrame :=
  indicator_frame
    [indicator_row 1 101 (Some 50%Q) (Some 105%Q) (Some 100%Q);
     indicator_row 2 102 (Some 75%Q) (Some 95%Q) (Some 100%Q);
     indicator_row 3 103 None None None].

(** The output of the strategy on a table. *)
Definition with_signals (df : IndicatorFrame) : IndicatorFrame :=
  {| ind_Open := ind_Open df; ind_Close := ind_Close df; ind_Signal := true;
     has_RSI := has_RSI df; has_SMA20 := has_SMA20 df; has_SMA50 := has_SMA50 df;
     ind_rows := map labelled (ind_rows df) |}.

(** ** [alerts.py] and [utils.py]: the rows that count as signals *)

(** [val != 0] on a cell of the Signal column; a missing cell is None or
    NaN. *)
Definition ne_zero (val : pyval Q) : bool :=
  match val with
  | VInt n => negb (n =? 0)%Z
  | VFloat x => negb (Qeq_bool x 0)
  | VStr _ => true
  | VNone => true
  end.

(** [val == 1] *)
Definition eq_one (val : pyval Q) : bool :=
  match val with
  | VInt n => (n =? 1)%Z
  | VFloat x => Qeq_bool x 1
  | VStr _ => false
  | VNone => false
  end.

(** [filter_trade_signals]: [df[df["Signal"] != 0]]; [None] is the KeyError
    of a missing Signal column. *)
Definition filter_trade_signals (df : DataFrame Q) : option (DataFrame Q) :=
  if has_Signal df then
    Some {| has_Open := has_Open df; has_Close := has_Close df;
            has_Signal := has_Signal df;
            df_rows := List.filter (λ r, ne_zero (row_Signal r)) (df_rows df) |}
  else None.

(** What [send_trade_alerts] puts in a message: the signal type (it picks
    the emoji too), the ticker, the Close and the date.  The text of the
    message and its sending are left out. *)
Record Alert : Type := {
  alert_type : string;
  alert_ticker : string;
  alert_close : option Q;
  alert_date : Z
}.

(** The rows of [recent_signals]:
    [df[(df["Signal"] != 0) & (df.index >= cutoff_date)]]. *)
Definition recent_signals (cutoff_date : Z) (df : DataFrame Q) : list (Row Q) :=
  List.filter (λ r, ne_zero (row_Signal r) && (cutoff_date <=? row_date r)%Z)
              (df_rows df).

Definition alert_of (ticker : string) (row : Row Q) : Alert :=
  {| alert_type := if eq_one (row_Signal row) then "BUY" else "SELL";
     alert_ticker := ticker;
     alert_close := row_Close row;
     alert_date := row_date row |}.

(** The alerts of one ticker in [send_trade_alerts], lines 206-221; [None]
    is a KeyError: no Signal column, or no Close column when a row is
    alerted. *)
Definition ticker_alerts (cutoff_date : Z) (ticker : string) (df : DataFrame Q)
  : option (list Alert) :=
  if has_Signal df then
    match recent_signals cutoff_date df with
    | [] => Some []
    | rows => if has_Close df then Some (map (alert_of ticker) rows) else None
    end
  else None.

(** ** [ml_model.py]: [prepare_ml_data] *)

(** A row of the table given to the classifier: the indicator cells of the
    strategy, and the three other feature cells. *)
Record MLRow : Type := {
  ml_ind : IndicatorRow;
  MACD : option Q;
  MACD_SIGNAL : option Q;
  Volume : option Q
}.

Record MLFrame : Type := {
  ml_has_RSI : bool;
  ml_has_SMA20 : bool;
  ml_has_SMA50 : bool;
  ml_has_MACD : bool;
  ml_has_MACD_SIGNAL : bool;
  ml_has_Volume : bool;
  ml_rows : list MLRow
}.

(** [df[FEATURE_COLUMNS]], one list of six cells per row *)
Definition features (r : MLRow) : list (option Q) :=
  [RSI (ml_ind r); SMA20 (ml_ind r); SMA50 (ml_ind r);
   MACD r; MACD_SIGNAL r; Volume r].

(** The label of a row: 0, then 1 where the BUY condition holds, then -1
    where the SELL condition holds. *)
Definition label (r : MLRow) : Z :=
  if sell_cond (ml_ind r) then (-1)%Z
  else if buy_cond (ml_ind r) then 1%Z
  else 0%Z.

(** One cell of [ffill]: a NaN takes the last value seen above it. *)
Definition fill_from (prev cur : option Q) : option Q :=
  match cur with
  | Some x => Some x
  | None => prev
  end.

(** [.ffill()], column by column, [prev] holding the last value seen in
    each column. *)
Fixpoint ffill (prev : list (option Q)) (rows : list (list (option Q)))
  : list (list (option Q)) :=
  match rows with
  | [] => []
  | r :: rs =>
      let r' := zip_with fill_from prev r in
      r' :: ffill r' rs
  end.

(** [.fillna(0)] *)
Definition fillna_zero (rows : list (list (option Q))) : list (list Q) :=
  map (map (default 0%Q)) rows.

(** [xs[mask]] *)
Fixpoint select {A : Type} (mask : list bool) (xs : list A) : list A :=
  match mask, xs with
  | b :: mask', x :: xs' => if b then x :: select mask' xs' else select mask' xs'
  | _, _ => []
  end.

(** [prepare_ml_data]: the feature rows [X] and the labels [y]; [None] is
    the KeyError of a missing column. *)
Definition prepare_ml_data (df : MLFrame) : option (list (list Q) * list Z) :=
  if ml_has_RSI df && ml_has_SMA20 df && ml_has_SMA50 df
     && ml_has_MACD df && ml_has_MACD_SIGNAL df && ml_has_Volume df
  then
    let y := map label (ml_rows df) in
    let X := fillna_zero (ffill (replicate 6 None) (map features (ml_rows df))) in
    let mask := map (λ l, negb (l =? 0)%Z) y in
    Some (select mask X, select mask y)
  else None.

(** The rows that [prepare_ml_data] keeps. *)
Definition signal_rows (df : MLFrame) : list MLRow :=
  List.filter (λ r, negb (label r =? 0)%Z) (ml_rows df).

(** A table for the classifier: a quiet row, a BUY row with a NaN MACD, and
    a SELL row. *)
Definition ml_table : MLFrame :=
  {| ml_has_RSI := true; ml_has_SMA20 := true; ml_has_SMA50 := true;
     ml_has_MACD := true; ml_has_MACD_SIGNAL := true; ml_has_Volume := true;
     ml_rows :=
       [{| ml_ind := indicator_row 0 100 (Some 50%Q) (Some 105%Q) (Some 100%Q);
           MACD := Some 2%Q; MACD_SIGNAL := Some 1%Q; Volume := Some 500%Q |};
        {| ml_ind := indicator_row 1 101 (Some 25%Q) (Some 105%Q) (Some 100%Q);
           MACD := None; MACD_SIGNAL := Some 1%Q; Volume := Some 600%Q |};
        {| ml_ind := indicator_row 2 102 (Some 75%Q) (Some 95%Q) (Some 100%Q);
           MACD := Some 3%Q; MACD_SIGNAL := None; Volume := None |}] |}.

(** The label that a row of a table with signals stands for in the
    backtest's reading of its signal; a HOLD row stands for none. *)
Definition signal_label (r : IndicatorRow) : option Z :=
  match _normalize_signal (row_Signal (ind_row r)) with
  | BUY => Some 1%Z
  | SELL => Some (-1)%Z
  | HOLD => None
  end.

(** The indicator columns of [ml_table], as the strategy receives them. *)
Definition ml_table_indicators : IndicatorFrame :=
  {| ind_Open := true; ind_Close := true; ind_Signal := false;
     has_RSI := true; has_SMA20 := true; has_SMA50 := true;
     ind_rows := map ml_ind (ml_rows ml_table) |}.

(** * Properties *)

Section Properties.

Context {F : Type} `{Arith F}.

Implicit Types (st : State F) (df : DataFrame F) (t : Trade F) (l : list (Trade F)).

(** ** The sort *)

Lemma length_insert_sorted (r : Row F) (rows : list (Row F)) :
  length (insert_sorted r rows) = S (length rows).
Proof.
  induction rows as [|r' rows IH]; simpl; [done|].
  case_match; simpl; by rewrite ?IH.
Qed.

Lemma length_sort_index (rows : list (Row F)) :
  length (sort_index rows) = length rows.
Proof.
  induction rows as [|r rows IH]; simpl; [done|].
  by rewrite length_insert_sorted, IH.
Qed.

Lemma insert_sorted_Forall (P : Row F → Prop) r rows :
  P r → Forall P rows → Forall P (insert_sorted r rows).
Proof.
  intros Hr. induction 1 as [|r' rows Hr' Hrows IH]; simpl.
  - by constructor.
  - case_match; repeat constructor; auto.
Qed.

Lemma insert_sorted_sorted r rows :
  StronglySorted (@date_le F) rows → StronglySorted (@date_le F) (insert_sorted r rows).
Proof.
  induction 1 as [|r' rows Hs IH Hall]; simpl.
  - repeat constructor.
  - destruct (Z.leb_spec (row_date r) (row_date r')) as [Hle|Hgt].
    + constructor; [by constructor|].
      constructor; [done|].
      eapply Forall_impl; [exact Hall|].
      unfold date_le. intros; lia.
    + constructor; [done|].
      apply insert_sorted_Forall; [unfold date_le; lia | done].
Qed.

Lemma sort_index_sorted (rows : list (Row F)) :
  StronglySorted (@date_le F) (sort_index rows).
Proof.
  induction rows as [|r rows IH]; simpl.
  - constructor.
  - by apply insert_sorted_sorted.
Qed.

Lemma sorted_adjacent (rows : list (Row F)) k r1 r2 :
  StronglySorted (@date_le F) rows →
  rows !! k = Some r1 → rows !! S k = Some r2 → date_le r1 r2.
Proof.
  intros Hs. revert k. induction Hs as [|r rows Hs IH Hall]; intros k H1 H2.
  - done.
  - destruct k as [|k]; simpl in *.
    + injection H1 as <-.
      rewrite Forall_forall in Hall. apply Hall.
      eapply list_elem_of_lookup_2. exact H2.
    + eauto.
Qed.

(** ** The error monad *)

Lemma bind_Ok {A B : Type} (a : A) (k : A → result B) : (Ok a ≫= k) = k a.
Proof. reflexivity. Qed.

Lemma bind_Ok_inv {A B : Type} (m : result A) (k : A → result B) (b : B) :
  (m ≫= k) = Ok b → ∃ a, m = Ok a ∧ k a = Ok b.
Proof. destruct m as [a|e]; [eauto | discriminate]. Qed.

(** ** The loop, one iteration at a time *)

Lemma for_range_snoc (body : nat → State F → result (State F)) start n st :
  for_range body start (S n) st
  = for_range body start n st ≫= body (start + n).
Proof.
  revert start st. induction n as [|n IH]; intros start st.
  - simpl. rewrite Nat.add_0_r. by destruct (body start st).
  - change (for_range body start (S (S n)) st)
      with (body start st ≫= for_range body (S start) (S n)).
    change (for_range body start (S n) st)
      with (body start st ≫= for_range body (S start) n).
    destruct (body start st) as [st1|e]; [|done].
    rewrite !bind_Ok, IH. by replace (S start + n) with (start + S n) by lia.
Qed.

Lemma state_after_S df cap k :
  state_after df cap (S k) = state_after df cap k ≫= loop_body df k.
Proof. unfold state_after. by rewrite for_range_snoc. Qed.

Lemma run_loop_state_after df cap :
  run_loop df cap = state_after df cap (length (df_rows df) - 1).
Proof. reflexivity. Qed.

(** ** Position bookkeeping *)

Lemma do_buy_eq d p st : do_buy d p st = Ok (after_buy d p st).
Proof.
  unfold do_buy, after_buy, buy_qty, py_div.
  destruct (fgt0 p) eqn:Hp; [|done].
  by rewrite (fgt0_nonzero p Hp).
Qed.

Lemma update_last_snoc (f : Trade F → Trade F) tl t :
  update_last f (tl ++ [t]) = Ok (tl ++ [f t]).
Proof. unfold update_last. by rewrite last_snoc, removelast_last. Qed.

Lemma do_sell_eq d p st tl t :
  trades st = tl ++ [t] →
  entry_price st = Some (Entry_Price t) → entry_qty st = Some (Qty t) →
  do_sell d p st
  = Ok {| trades := tl ++ [close_trade d p (pnl_at p t) t];
          in_position := false; entry_price := None; entry_qty := None;
          capital := fmul (Qty t) p |}.
Proof.
  intros Ht Hp Hq. unfold do_sell. rewrite Hp, Hq, Ht. simpl.
  by rewrite update_last_snoc.
Qed.

Lemma all_closed_snoc l t :
  all_closed l → is_closed t = true → all_closed (l ++ [t]).
Proof. intros Hl Ht. apply Forall_app. split; [done|]. by constructor. Qed.

Lemma execute_decision sig d p st :
  position_ok st →
  ∃ st', execute sig d p st = Ok st'
    ∧ decision_executed sig d p st st' ∧ position_ok st'.
Proof.
  intros Hst. unfold execute, decision_executed.
  destruct Hst as [Hflat Hall | tl t Hpos Htl Hall Hopen Hep Heq].
  - rewrite Hflat. destruct sig.
    + rewrite do_buy_eq. eexists; split; [done|]. split; [done|].
      by eapply Holding with (t := open_trade d p (buy_qty (capital st) p)).
    + eexists; split; [done|]. split; [done|]. by apply Flat.
    + eexists; split; [done|]. split; [done|]. by apply Flat.
  - rewrite Hpos. destruct sig.
    + eexists; split; [done|]. split; [done|]. by eapply Holding.
    + erewrite do_sell_eq by done. eexists; split; [done|]. split.
      * by exists tl, t.
      * apply Flat; [done|]. simpl. by apply all_closed_snoc.
    + eexists; split; [done|]. split; [done|]. by eapply Holding.
Qed.

(** ** The price cells *)

Lemma notna_priced (has_col : bool) (c : option F) p :
  (if has_col then notna c else None) = Some p ↔ priced has_col c p.
Proof.
  unfold priced, notna. destruct has_col; [|intuition congruence].
  destruct c as [x|]; [|intuition congruence].
  destruct (fisnan x) eqn:Hx; split.
  - done.
  - intros (_ & [= ->] & Hp). congruence.
  - intros [= ->]. done.
  - intros (_ & [= ->] & _). done.
Qed.

Lemma notna_unpriced (has_col : bool) (c : option F) :
  (if has_col then notna c else None) = None ↔ unpriced has_col c.
Proof.
  unfold unpriced, notna. destruct has_col; [|intuition].
  destruct c as [x|]; [|intuition].
  destruct (fisnan x) eqn:Hx; split.
  - intros _. right. right. by exists x.
  - done.
  - done.
  - intros [? | [? | (y & [= <-] & Hy)]]; congruence.
Qed.

Lemma priced_not_unpriced (has_col : bool) (c : option F) p :
  priced has_col c p → unpriced has_col c → False.
Proof.
  intros Hp%notna_priced Hu%notna_unpriced. congruence.
Qed.

Lemma exec_price_of_spec df (r : Row F) p :
  exec_price_of df r = Some p ↔ open_else_close df r p.
Proof.
  unfold exec_price_of, open_else_close, get_Open, get_Close.
  rewrite <- !notna_priced, <- notna_unpriced.
  destruct (if has_Open df then notna (row_Open r) else None) as [q|];
    intuition congruence.
Qed.

Lemma exec_price_of_none df (r : Row F) :
  exec_price_of df r = None
  ↔ unpriced (has_Open df) (row_Open r) ∧ unpriced (has_Close df) (row_Close r).
Proof.
  unfold exec_price_of, get_Open, get_Close.
  rewrite <- !notna_unpriced.
  destruct (if has_Open df then notna (row_Open r) else None) as [q|];
    intuition congruence.
Qed.

Lemma last_price_of_spec df (r : Row F) p :
  last_price_of df r = Some p ↔ close_else_open df r p.
Proof.
  unfold last_price_of, close_else_open, get_Open, get_Close.
  rewrite <- !notna_priced, <- notna_unpriced.
  destruct (if has_Close df then notna (row_Close r) else None) as [q|];
    intuition congruence.
Qed.

Lemma last_price_of_none df (r : Row F) :
  last_price_of df r = None
  ↔ unpriced (has_Close df) (row_Close r) ∧ unpriced (has_Open df) (row_Open r).
Proof.
  unfold last_price_of, get_Open, get_Close.
  rewrite <- !notna_unpriced.
  destruct (if has_Close df then notna (row_Close r) else None) as [q|];
    intuition congruence.
Qed.

Lemma closes_close_trade d p t : closes d p t (close_trade d p (pnl_at p t) t).
Proof. by repeat split. Qed.

Lemma decision_executed_fields sig d p st st' :
  decision_executed sig d p st st' → executed_at sig d p st st'.
Proof.
  unfold decision_executed, executed_at.
  destruct sig, (in_position st); try done.
  - intros (Htr & Hpos & Hcap).
    exists (open_trade d p (buy_qty (capital st) p)). by repeat split.
  - intros (tl & t & Htl & Htr & Hpos & Hcap).
    exists tl, t, (close_trade d p (pnl_at p t) t).
    split; [done|]. split; [done|]. split; [apply closes_close_trade|done].
Qed.

Lemma loop_body_lookup df i st st' :
  loop_body df i st = Ok st' →
  ∃ row next,
    df_rows df !! i = Some row ∧ df_rows df !! S i = Some next
    ∧ match exec_price_of df next with
      | None => st' = st
      | Some p => execute (_normalize_signal (row_Signal row)) (row_date next) p st = Ok st'
      end.
Proof.
  unfold loop_body, iloc. intros Hbody.
  destruct (df_rows df !! i) as [row|]; [|done].
  destruct (df_rows df !! S i) as [next|]; [|done].
  exists row, next. split; [done|]. split; [done|].
  simpl in Hbody. destruct (exec_price_of df next); congruence.
Qed.

Lemma loop_body_position_ok df i st :
  S i < length (df_rows df) → position_ok st →
  ∃ st', loop_body df i st = Ok st' ∧ position_ok st'.
Proof.
  intros Hi Hst. unfold loop_body, iloc.
  destruct (lookup_lt_is_Some_2 (df_rows df) i) as [row Hrow]; [lia|].
  destruct (lookup_lt_is_Some_2 (df_rows df) (S i)) as [next Hnext]; [lia|].
  rewrite Hrow, Hnext. simpl.
  destruct (exec_price_of df next) as [p|]; [|by eauto].
  destruct (execute_decision (_normalize_signal (row_Signal row)) (row_date next) p st Hst)
    as (st' & Hex & _ & Hok).
  eauto.
Qed.

Lemma state_after_position_ok df cap k :
  k ≤ length (df_rows df) - 1 →
  ∃ st, state_after df cap k = Ok st ∧ position_ok st.
Proof.
  induction k as [|k IH]; intros Hk.
  - eexists; split; [done|]. apply Flat; [done|]. constructor.
  - destruct IH as (st & Hst & Hok); [lia|].
    rewrite state_after_S, Hst, bind_Ok.
    apply loop_body_position_ok; [lia | done].
Qed.

Lemma for_range_app (body : nat → State F → result (State F)) start n m st :
  for_range body start (n + m) st
  = for_range body start n st ≫= for_range body (start + n) m.
Proof.
  revert start st. induction n as [|n IH]; intros start st.
  - simpl. by rewrite Nat.add_0_r.
  - change (for_range body start (S n + m) st)
      with (body start st ≫= for_range body (S start) (n + m)).
    change (for_range body start (S n) st)
      with (body start st ≫= for_range body (S start) n).
    destruct (body start st) as [st1|e]; [|done].
    rewrite !bind_Ok, IH. by replace (S start + n) with (start + S n) by lia.
Qed.

(** ** Next-bar execution *)

(** C3: for every index [i] with a following row, the loop reaches [i] and
    goes on past it; the decision of row [i] is executed at the date of row
    [i+1], at that row's Open when the column exists and the cell is not
    NaN, else at its Close when that column exists and the cell is not NaN:
    an accepted BUY appends a trade entered on that date at that price, an
    accepted SELL fills the exit date, exit price and P&L of the last trade;
    when the row has neither price, the state does not change; in every case
    the remaining indices are scanned from the new state. *)
Theorem next_bar_execution df (initial_capital : F) i :
  S i < length (df_rows df) →
  ∃ row next st st',
    df_rows df !! i = Some row ∧ df_rows df !! S i = Some next
    ∧ state_after df initial_capital i = Ok st
    ∧ state_after df initial_capital (S i) = Ok st'
    ∧ (∀ p, has_Open df = true → row_Open next = Some p → fisnan p = false →
            executed_at (_normalize_signal (row_Signal row)) (row_date next) p st st')
    ∧ (∀ p, unpriced (has_Open df) (row_Open next) →
            has_Close df = true → row_Close next = Some p → fisnan p = false →
            executed_at (_normalize_signal (row_Signal row)) (row_date next) p st st')
    ∧ (unpriced (has_Open df) (row_Open next) →
       unpriced (has_Close df) (row_Close next) → st' = st)
    ∧ run_loop df initial_capital
      = for_range (loop_body df) (S i) (length (df_rows df) - 1 - S i) st'.
Proof.
  intros Hi.
  destruct (lookup_lt_is_Some_2 (df_rows df) i) as [row Hrow]; [lia|].
  destruct (lookup_lt_is_Some_2 (df_rows df) (S i)) as [next Hnext]; [lia|].
  destruct (state_after_position_ok df initial_capital i) as (st & Hst & Hok); [lia|].
  destruct (loop_body_position_ok df i st Hi Hok) as (st' & Hbody & _).
  assert (state_after df initial_capital (S i) = Ok st') as Hst'.
  { by rewrite state_after_S, Hst, bind_Ok. }
  exists row, next, st, st'. do 4 (split; [done|]).
  destruct (loop_body_lookup df i st st' Hbody) as (row' & next' & Hr & Hn & Hexec).
  rewrite Hrow in Hr. rewrite Hnext in Hn.
  injection Hr as <-. injection Hn as <-.
  assert (∀ p, open_else_close df next p →
               executed_at (_normalize_signal (row_Signal row)) (row_date next) p st st')
    as Hdec.
  { intros p Hp%exec_price_of_spec. rewrite Hp in Hexec.
    destruct (execute_decision (_normalize_signal (row_Signal row)) (row_date next) p st Hok)
      as (st2 & Hex & Hd & _).
    apply decision_executed_fields. congruence. }
  split; [|split; [|split]].
  - intros p Hcol Hcell Hp. apply Hdec. by left.
  - intros p Ho Hcol Hcell Hp. apply Hdec. by right.
  - intros Ho Hc.
    assert (exec_price_of df next = None) as Hnone by by apply exec_price_of_none.
    by rewrite Hnone in Hexec.
  - rewrite run_loop_state_after. unfold state_after in *.
    set (m := length (df_rows df) - 1 - S i).
    replace (length (df_rows df) - 1) with (S i + m) by lia.
    by rewrite for_range_app, Hst', bind_Ok.
Qed.

(** ** Insufficient data *)

(** C9: on a table with fewer than 2 rows, or without a Signal column,
    [backtest] raises nothing and returns the empty trade list with a summary
    of 0 trades, 0 wins, win ratio 0, total P&L 0 and the initial capital as
    final capital. *)
Theorem backtest_insufficient_data df (initial_capital : F) :
  length (df_rows df) < 2 ∨ has_Signal df = false →
  ∃ s, backtest df initial_capital = Ok ([], s)
    ∧ Total_Trades s = 0 ∧ Wins s = 0
    ∧ Win_Ratio s = fzero ∧ Total_PnL s = fzero
    ∧ Final_Capital s = initial_capital.
Proof.
  intros Hshort. exists (zero_summary initial_capital).
  split; [|done].
  unfold backtest. simpl. rewrite length_sort_index.
  destruct Hshort as [Hlen | Hsig].
  - apply Nat.ltb_lt in Hlen. by rewrite Hlen.
  - rewrite Hsig. by rewrite orb_true_r.
Qed.

(** ** Signal normalization *)

Lemma signal_of_int_BUY v : signal_of_int v = BUY ↔ v = 1%Z.
Proof.
  unfold signal_of_int.
  destruct (Z.eqb_spec v 1); [done|].
  destruct (Z.eqb_spec v (-1)); split; (done || lia).
Qed.

Lemma signal_of_int_SELL v : signal_of_int v = SELL ↔ v = (-1)%Z.
Proof.
  unfold signal_of_int.
  destruct (Z.eqb_spec v 1); [split; (done || lia)|].
  destruct (Z.eqb_spec v (-1)); split; (done || lia).
Qed.

Lemma str_in_elem_of (s : string) (l : list string) :
  str_in s l = true ↔ s ∈ l.
Proof.
  unfold str_in. rewrite existsb_exists. split.
  - intros (x & Hx & Heq). apply String.eqb_eq in Heq. subst.
    by apply list_elem_of_In.
  - intros Hin. exists s. split; [by apply list_elem_of_In|].
    apply String.eqb_refl.
Qed.

(** The cases of [_normalize_signal], for any arithmetic. *)
Lemma normalize_signal_forms :
  (∀ val : pyval F, isna_val val = true → _normalize_signal val = HOLD)
  ∧ (∀ n, (_normalize_signal (VInt n : pyval F) = BUY ↔ n = 1%Z)
        ∧ (_normalize_signal (VInt n : pyval F) = SELL ↔ n = (-1)%Z))
  ∧ (∀ x : F,
        (_normalize_signal (VFloat x) = BUY
         ↔ fisnan x = false ∧ ftrunc x = Some 1%Z)
        ∧ (_normalize_signal (VFloat x) = SELL
           ↔ fisnan x = false ∧ ftrunc x = Some (-1)%Z))
  ∧ (∀ s,
        (_normalize_signal (VStr s : pyval F) = BUY
         ↔ upper (strip s) ∈ ["BUY"; "B"; "1"])
        ∧ (_normalize_signal (VStr s : pyval F) = SELL
           ↔ upper (strip s) ∈ ["SELL"; "S"; "-1"])).
Proof.
  split; [|split; [|split]].
  - intros val Hna. unfold _normalize_signal. by rewrite Hna.
  - intros n. unfold _normalize_signal. simpl.
    split; [apply signal_of_int_BUY | apply signal_of_int_SELL].
  - intros x. unfold _normalize_signal. simpl.
    destruct (fisnan x); [intuition congruence|].
    destruct (ftrunc x) as [v|]; [|intuition congruence].
    rewrite signal_of_int_BUY, signal_of_int_SELL. intuition congruence.
  - intros s. unfold _normalize_signal, isna_val. cbn iota zeta.
    rewrite <- !str_in_elem_of.
    destruct (str_in (upper (strip s)) ["BUY"; "B"; "1"]) eqn:Hb.
    + assert (str_in (upper (strip s)) ["SELL"; "S"; "-1"] = false) as ->.
      { apply str_in_elem_of in Hb.
        rewrite !elem_of_cons, elem_of_nil in Hb.
        by destruct Hb as [-> | [-> | [-> | []]]]. }
      cbn iota. intuition congruence.
    + destruct (str_in (upper (strip s)) ["SELL"; "S"; "-1"]);
        cbn iota; intuition congruence.
Qed.

(** ** The forced close *)

Lemma in_position_holding st :
  position_ok st → in_position st = true →
  ∃ tl t, trades st = tl ++ [t] ∧ all_closed tl ∧ is_open t
    ∧ entry_price st = Some (Entry_Price t) ∧ entry_qty st = Some (Qty t).
Proof.
  intros [Hflat _ | tl t _ Htl Hall Hopen Hep Heq] Hpos; [congruence|].
  by exists tl, t.
Qed.

Lemma run_loop_holding_rows df cap st :
  run_loop df cap = Ok st → in_position st = true →
  2 ≤ length (df_rows df).
Proof.
  intros Hrun Hpos. rewrite run_loop_state_after in Hrun.
  destruct (length (df_rows df) - 1) as [|k] eqn:Hlen; [|lia].
  injection Hrun as <-. discriminate.
Qed.

Lemma force_close_holding df st tl t last_row :
  in_position st = true → trades st = tl ++ [t] →
  entry_price st = Some (Entry_Price t) → entry_qty st = Some (Qty t) →
  last (df_rows df) = Some last_row →
  force_close df st
  = Ok match last_price_of df last_row with
       | Some p =>
           {| trades := tl ++ [close_trade (row_date last_row) p (pnl_at p t) t];
              in_position := false;
              entry_price := entry_price st; entry_qty := entry_qty st;
              capital := fmul (Qty t) p |}
       | None =>
           {| trades := trades st; in_position := false;
              entry_price := entry_price st; entry_qty := entry_qty st;
              capital := capital st |}
       end.
Proof.
  intros Hpos Htl Hep Heq Hlast. unfold force_close, iloc.
  rewrite Hpos. rewrite last_lookup in Hlast.
  replace (length (df_rows df) - 1) with (pred (length (df_rows df))) by lia.
  rewrite Hlast. simpl.
  destruct (last_price_of df last_row) as [p|]; [|done].
  rewrite Hep, Heq, Htl. simpl. by rewrite update_last_snoc.
Qed.

Lemma force_close_priced df st tl t last_row p :
  in_position st = true → trades st = tl ++ [t] →
  entry_price st = Some (Entry_Price t) → entry_qty st = Some (Qty t) →
  last (df_rows df) = Some last_row →
  close_else_open df last_row p →
  ∃ st' t', force_close df st = Ok st'
    ∧ trades st' = tl ++ [t'] ∧ closes (row_date last_row) p t t'
    ∧ in_position st' = false ∧ capital st' = fmul (Qty t) p.
Proof.
  intros Hpos Htl Hep Heq Hlast Hprice%last_price_of_spec.
  rewrite (force_close_holding df st tl t last_row) by done. rewrite Hprice.
  eexists _, _. split; [done|]. split; [done|].
  split; [apply closes_close_trade|done].
Qed.

Lemma force_close_unpriced df st tl t last_row :
  in_position st = true → trades st = tl ++ [t] →
  entry_price st = Some (Entry_Price t) → entry_qty st = Some (Qty t) →
  last (df_rows df) = Some last_row →
  unpriced (has_Close df) (row_Close last_row) →
  unpriced (has_Open df) (row_Open last_row) →
  ∃ st', force_close df st = Ok st'
    ∧ trades st' = tl ++ [t] ∧ in_position st' = false
    ∧ capital st' = capital st.
Proof.
  intros Hpos Htl Hep Heq Hlast Hc Ho.
  rewrite (force_close_holding df st tl t last_row) by done.
  assert (last_price_of df last_row = None) as -> by by apply last_price_of_none.
  eexists. split; [done|]. by rewrite <- Htl.
Qed.

(** C4: a position still open after the loop is closed at the date of the
    last row, at that row's Close when the column exists and the cell is not
    NaN, else at its Open when that column exists and the cell is not NaN:
    the exit date, the exit price and the P&L of the open trade are filled
    and the capital becomes its quantity times that price (the forced close
    never raises); when the last row has neither price, the trade list and
    the capital stay as they are, and the open trade keeps its exit date,
    exit price and P&L absent. *)
Theorem force_close_last_price df (initial_capital : F) st :
  run_loop df initial_capital = Ok st → in_position st = true →
  ∃ last_row tl t st',
    last (df_rows df) = Some last_row
    ∧ trades st = tl ++ [t]
    ∧ Exit_Date t = None ∧ Exit_Price t = None ∧ PnL t = None
    ∧ force_close df st = Ok st'
    ∧ in_position st' = false
    ∧ (∀ p, has_Close df = true → row_Close last_row = Some p → fisnan p = false →
            ∃ t', trades st' = tl ++ [t'] ∧ closes (row_date last_row) p t t'
                  ∧ capital st' = fmul (Qty t) p)
    ∧ (∀ p, unpriced (has_Close df) (row_Close last_row) →
            has_Open df = true → row_Open last_row = Some p → fisnan p = false →
            ∃ t', trades st' = tl ++ [t'] ∧ closes (row_date last_row) p t t'
                  ∧ capital st' = fmul (Qty t) p)
    ∧ (unpriced (has_Close df) (row_Close last_row) →
       unpriced (has_Open df) (row_Open last_row) →
         trades st' = tl ++ [t] ∧ capital st' = capital st).
Proof.
  intros Hrun Hpos.
  pose proof (run_loop_holding_rows df initial_capital st Hrun Hpos) as Hlen.
  destruct (state_after_position_ok df initial_capital (length (df_rows df) - 1))
    as (st0 & Hst0 & Hok); [lia|].
  rewrite run_loop_state_after in Hrun. rewrite Hrun in Hst0. injection Hst0 as <-.
  destruct (in_position_holding st Hok Hpos)
    as (tl & t & Htl & _ & (Hd & Hp & Hpnl) & Hep & Heq).
  destruct (lookup_lt_is_Some_2 (df_rows df) (pred (length (df_rows df))))
    as [last_row Hlast]; [lia|].
  rewrite <- last_lookup in Hlast.
  assert (∃ st', force_close df st = Ok st' ∧ in_position st' = false)
    as (st' & Hfc & Hflat).
  { rewrite (force_close_holding df st tl t last_row) by done.
    destruct (last_price_of df last_row); eauto. }
  assert (∀ p, close_else_open df last_row p →
               ∃ t', trades st' = tl ++ [t'] ∧ closes (row_date last_row) p t t'
                     ∧ capital st' = fmul (Qty t) p) as Hclose.
  { intros p Hprice.
    destruct (force_close_priced df st tl t last_row p)
      as (st2 & t' & Hfc2 & Htr & Hcl & _ & Hcap); try done.
    rewrite Hfc in Hfc2. injection Hfc2 as <-. by exists t'. }
  exists last_row, tl, t, st'. do 7 (split; [done|]).
  split; [|split].
  - intros p Hcol Hcell Hnan. apply Hclose. by left.
  - intros p Hc Hcol Hcell Hnan. apply Hclose. by right.
  - intros Hc Ho.
    destruct (force_close_unpriced df st tl t last_row)
      as (st2 & Hfc2 & Htr & _ & Hcap); try done.
    rewrite Hfc in Hfc2. by injection Hfc2 as <-.
Qed.

(** ** One position at a time *)

Lemma non_overlapping_snoc l t' :
  non_overlapping l →
  (∀ t1, last l = Some t1 → ∃ e, Exit_Date t1 = Some e ∧ (e ≤ Entry_Date t')%Z) →
  non_overlapping (l ++ [t']).
Proof.
  induction l as [|a [|b l'] IH]; intros Hl Hlast.
  - done.
  - simpl. split; [|done]. by apply Hlast.
  - destruct Hl as [Hab Hl]. split; [done|]. by apply IH.
Qed.

Lemma non_overlapping_replace_last tl t t' :
  non_overlapping (tl ++ [t]) → Entry_Date t' = Entry_Date t →
  non_overlapping (tl ++ [t']).
Proof.
  intros Hl Hentry. induction tl as [|a [|b tl'] IH].
  - done.
  - simpl in *. by rewrite Hentry.
  - destruct Hl as [Hab Hl]. split; [done|]. by apply IH.
Qed.

Lemma dates_upto_le d d' l :
  (d ≤ d')%Z → dates_upto d l → dates_upto d' l.
Proof.
  intros Hd Hl. eapply Forall_impl; [exact Hl|].
  intros t [He Hx]. split; [lia|].
  intros e Hexit. specialize (Hx e Hexit). lia.
Qed.

Lemma all_closed_removelast l : all_closed l → all_closed (removelast l).
Proof.
  destruct (decide (l = [])) as [-> | Hne]; [done|].
  destruct (exists_last Hne) as (tl & t & ->).
  rewrite removelast_last. intros Hall. by apply Forall_app in Hall as [? _].
Qed.

Lemma decision_keeps_order sig d0 d p st st' :
  position_ok st → decision_executed sig d p st st' →
  non_overlapping (trades st) → dates_upto d0 (trades st) → (d0 ≤ d)%Z →
  non_overlapping (trades st') ∧ dates_upto d (trades st').
Proof.
  intros Hok Hdec Hno Hdates Hd. unfold decision_executed in Hdec.
  assert (dates_upto d (trades st)) as Hdates' by by eapply dates_upto_le.
  destruct Hok as [Hflat Hall | tl t Hpos Htl Hall Hopen Hep Heq].
  - rewrite Hflat in Hdec. destruct sig; [|by subst..].
    destruct Hdec as (-> & _ & _). split.
    + apply non_overlapping_snoc; [done|]. intros t1 Ht1.
      apply last_Some_elem_of in Ht1.
      unfold all_closed, dates_upto in *. rewrite Forall_forall in Hall, Hdates.
      specialize (Hall t1 Ht1). destruct (Hdates t1 Ht1) as [_ Hx].
      unfold is_closed in Hall. destruct (Exit_Date t1) as [e|]; [|done].
      exists e. split; [done|]. specialize (Hx e eq_refl). simpl. lia.
    + apply Forall_app. split; [done|]. constructor; [|done].
      simpl. split; [lia | done].
  - rewrite Hpos in Hdec. destruct sig; [by subst| |by subst].
    destruct Hdec as (tl' & t' & Htl' & -> & _ & _).
    rewrite Htl in Htl'. apply app_inj_tail in Htl' as [<- <-].
    rewrite Htl in Hno, Hdates'. split.
    + by eapply non_overlapping_replace_last.
    + apply Forall_app in Hdates' as [Htl_dates Ht_dates].
      apply Forall_app. split; [done|]. constructor; [|done].
      apply Forall_inv in Ht_dates as [He _]. simpl. split; [done|].
      intros e [= <-]. lia.
Qed.

(** The invariant of the loop on a table sorted by date: after [k]
    iterations the position bookkeeping is sound, the trades are in order,
    and no date in them is after the date of row [k]. *)
Lemma state_after_ordered df cap k st :
  StronglySorted (@date_le F) (df_rows df) →
  state_after df cap k = Ok st →
  position_ok st ∧ non_overlapping (trades st)
  ∧ ∀ r, df_rows df !! k = Some r → dates_upto (row_date r) (trades st).
Proof.
  intros Hsorted. revert st. induction k as [|k IH]; intros st Hst.
  - injection Hst as <-. split; [|split].
    + apply Flat; [done|]. constructor.
    + done.
    + intros. constructor.
  - rewrite state_after_S in Hst.
    apply bind_Ok_inv in Hst as (st0 & Hst0 & Hbody).
    destruct (IH st0 Hst0) as (Hok & Hno & Hdates).
    destruct (loop_body_lookup df k st0 st Hbody) as (row & next & Hrow & Hnext & Hexec).
    pose proof (sorted_adjacent (df_rows df) k row next Hsorted Hrow Hnext) as Hle.
    unfold date_le in Hle. specialize (Hdates row Hrow).
    destruct (exec_price_of df next) as [p|].
    + destruct (execute_decision (_normalize_signal (row_Signal row)) (row_date next) p st0 Hok)
        as (st2 & Hex & Hdec & Hok2).
      rewrite Hexec in Hex. injection Hex as <-.
      destruct (decision_keeps_order _ _ _ _ _ _ Hok Hdec Hno Hdates Hle) as [Hno2 Hd2].
      split; [done|]. split; [done|].
      intros r Hr. rewrite Hnext in Hr. by injection Hr as <-.
    + subst st. split; [done|]. split; [done|].
      intros r Hr. rewrite Hnext in Hr. injection Hr as <-.
      by eapply dates_upto_le.
Qed.

Lemma force_close_ordered df st st' :
  position_ok st → non_overlapping (trades st) →
  force_close df st = Ok st' →
  all_closed (removelast (trades st')) ∧ non_overlapping (trades st').
Proof.
  intros Hok Hno Hfc.
  destruct (in_position st) eqn:Hpos.
  - destruct (in_position_holding st Hok Hpos) as (tl & t & Htl & Hall & _ & Hep & Heq).
    unfold force_close, iloc in Hfc. rewrite Hpos in Hfc.
    destruct (df_rows df !! (length (df_rows df) - 1)) as [last_row|]; [|done].
    simpl in Hfc.
    destruct (last_price_of df last_row) as [p|].
    + rewrite Hep, Heq, Htl in Hfc. simpl in Hfc.
      rewrite update_last_snoc in Hfc. injection Hfc as <-. simpl.
      rewrite removelast_last. split; [done|].
      rewrite Htl in Hno. by eapply non_overlapping_replace_last.
    + injection Hfc as <-. simpl. rewrite Htl, removelast_last.
      split; [done|]. by rewrite <- Htl.
  - unfold force_close in Hfc. rewrite Hpos in Hfc. injection Hfc as <-.
    split; [|done]. apply all_closed_removelast.
    by destruct Hok as [_ Hall | tl t Hp]; [|congruence].
Qed.


(** ** The capital *)

Lemma state_after_position df cap k st :
  state_after df cap k = Ok st → position_ok st.
Proof.
  revert st. induction k as [|k IH]; intros st Hst.
  - injection Hst as <-. apply Flat; [done|]. constructor.
  - rewrite state_after_S in Hst.
    apply bind_Ok_inv in Hst as (st0 & Hst0 & Hbody).
    specialize (IH st0 Hst0).
    destruct (loop_body_lookup df k st0 st Hbody) as (row & next & _ & _ & Hexec).
    destruct (exec_price_of df next) as [p|]; [|by subst].
    destruct (execute_decision (_normalize_signal (row_Signal row)) (row_date next) p st0 IH)
      as (st2 & Hex & _ & Hok2).
    congruence.
Qed.

Lemma is_open_not_closed t : is_open t → is_closed t = false.
Proof. intros (Hd & _ & _). unfold is_closed. by rewrite Hd. Qed.

Lemma filter_closed_snoc_open l t :
  is_closed t = false →
  List.filter is_closed (l ++ [t]) = List.filter is_closed l.
Proof. intros Ht. rewrite List.filter_app. simpl. by rewrite Ht, app_nil_r. Qed.

Lemma decision_capital_rule sig d p st st' :
  position_ok st → decision_executed sig d p st st' → capital_rule st st'.
Proof.
  intros Hok Hdec. unfold decision_executed in Hdec.
  destruct Hok as [Hflat Hall | tl t Hpos Htl Hall Hopen Hep Heq].
  - rewrite Hflat in Hdec. left. destruct sig; [|by subst..].
    destruct Hdec as (-> & _ & ->). split; [done|].
    by apply filter_closed_snoc_open.
  - rewrite Hpos in Hdec. destruct sig; [left; by subst | | left; by subst].
    destruct Hdec as (tl' & t' & Htl' & Htr & _ & Hcap). right.
    rewrite Htl in Htl'. apply app_inj_tail in Htl' as [<- <-].
    exists tl, t, (close_trade d p (pnl_at p t) t), p.
    split; [done|]. split; [by apply is_open_not_closed|]. done.
Qed.

Lemma force_close_capital_rule df st st' :
  position_ok st → force_close df st = Ok st' → capital_rule st st'.
Proof.
  intros Hok Hfc. destruct (in_position st) eqn:Hpos.
  - destruct (in_position_holding st Hok Hpos) as (tl & t & Htl & _ & Hopen & Hep & Heq).
    unfold force_close, iloc in Hfc. rewrite Hpos in Hfc.
    destruct (df_rows df !! (length (df_rows df) - 1)) as [last_row|]; [|done].
    simpl in Hfc.
    destruct (last_price_of df last_row) as [p|].
    + rewrite Hep, Heq, Htl in Hfc. simpl in Hfc.
      rewrite update_last_snoc in Hfc. injection Hfc as <-. right.
      exists tl, t, (close_trade (row_date last_row) p (pnl_at p t) t), p.
      split; [done|]. split; [by apply is_open_not_closed|]. done.
    + injection Hfc as <-. by left.
  - unfold force_close in Hfc. rewrite Hpos in Hfc. injection Hfc as <-. by left.
Qed.

(** C7: every iteration of the loop, and the forced close, either leaves the
    capital and the closed trades as they were, or closes the open last
    trade and sets the capital to that trade's quantity times its exit
    price. *)
Theorem capital_reassigned_on_close df (initial_capital : F) :
  (∀ k st st',
      state_after df initial_capital k = Ok st →
      state_after df initial_capital (S k) = Ok st' →
      capital_rule st st')
  ∧ (∀ st st',
        run_loop df initial_capital = Ok st →
        force_close df st = Ok st' →
        capital_rule st st').
Proof.
  split.
  - intros k st st' Hst Hst'.
    pose proof (state_after_position df initial_capital k st Hst) as Hok.
    rewrite state_after_S, Hst, bind_Ok in Hst'.
    destruct (loop_body_lookup df k st st' Hst') as (row & next & _ & _ & Hexec).
    destruct (exec_price_of df next) as [p|]; [|subst; by left].
    destruct (execute_decision (_normalize_signal (row_Signal row)) (row_date next) p st Hok)
      as (st2 & Hex & Hdec & _).
    rewrite Hexec in Hex. injection Hex as <-.
    by eapply decision_capital_rule.
  - intros st st' Hrun Hfc. rewrite run_loop_state_after in Hrun.
    eapply force_close_capital_rule; [|done].
    by eapply state_after_position.
Qed.

(** ** The engine never raises *)

Lemma simulate_total df (initial_capital : F) :
  ∃ st0 st, run_loop df initial_capital = Ok st0 ∧ force_close df st0 = Ok st
    ∧ simulate df initial_capital = Ok st.
Proof.
  destruct (state_after_position_ok df initial_capital (length (df_rows df) - 1))
    as (st0 & Hrun & Hok); [done|].
  rewrite <- run_loop_state_after in Hrun.
  assert (∃ st, force_close df st0 = Ok st) as [st Hfc].
  { destruct (in_position st0) eqn:Hpos.
    - pose proof (run_loop_holding_rows df initial_capital st0 Hrun Hpos) as Hlen.
      destruct (in_position_holding st0 Hok Hpos) as (tl & t & Htl & _ & _ & Hep & Heq).
      destruct (lookup_lt_is_Some_2 (df_rows df) (pred (length (df_rows df))))
        as [last_row Hlast]; [lia|].
      rewrite <- last_lookup in Hlast.
      erewrite force_close_holding by done. by eexists.
    - unfold force_close. rewrite Hpos. by eexists. }
  exists st0, st. split; [done|]. split; [done|].
  unfold simulate. by rewrite Hrun, bind_Ok.
Qed.

(** [backtest] raises only when the initial capital is zero, at the
    division of the return. *)
Lemma backtest_total df (initial_capital : F) :
  feq0 initial_capital = false →
  ∃ tl s, backtest df initial_capital = Ok (tl, s).
Proof.
  intros Hcap. unfold backtest. case_match; [by eexists _, _|].
  destruct (simulate_total (_ensure_datetime_index df) initial_capital)
    as (st0 & st & _ & _ & ->).
  rewrite bind_Ok. unfold summarize, no_trade_summary, return_pct, py_div.
  rewrite Hcap. destruct (trades st); [by eexists _, _|].
  destruct (List.filter is_closed _); by eexists _, _.
Qed.

(** ** The accountant *)

Lemma no_trade_summary_inv (capital0 initial_capital : F) s :
  no_trade_summary capital0 initial_capital = Ok s →
  Final_Capital s = capital0 ∧ Total_Trades s = 0 ∧ Wins s = 0
  ∧ Win_Ratio s = fzero ∧ Total_PnL s = fzero.
Proof.
  unfold no_trade_summary. intros Hs.
  apply bind_Ok_inv in Hs as (r & _ & Hs). by injection Hs as <-.
Qed.

Lemma filter_all_closed l : all_closed (List.filter is_closed l).
Proof.
  apply Forall_forall. intros t Ht.
  apply list_elem_of_In, List.filter_In in Ht. by destruct Ht.
Qed.

Lemma map_fill_all_closed l : all_closed l → all_closed (map fill_PnL l).
Proof. intros Hl. apply Forall_map. eapply Forall_impl; [exact Hl|]. done. Qed.

Lemma summarize_completed l (capital0 initial_capital : F) tl s :
  summarize l capital0 initial_capital = Ok (tl, s) →
  tl = map fill_PnL (List.filter is_closed l)
  ∧ Final_Capital s = capital0
  ∧ Total_Trades s = length tl ∧ Wins s = count_wins tl
  ∧ Win_Ratio s = win_ratio_of tl ∧ Total_PnL s = sum_PnL tl.
Proof.
  unfold summarize. intros Hs.
  destruct l as [|t0 l0].
  - apply bind_Ok_inv in Hs as (s0 & Hs0 & Hs). injection Hs as <- <-.
    apply no_trade_summary_inv in Hs0 as (? & ? & ? & ? & ?). by repeat split.
  - destruct (List.filter is_closed (t0 :: l0)) as [|c cs].
    + apply bind_Ok_inv in Hs as (s0 & Hs0 & Hs). injection Hs as <- <-.
      apply no_trade_summary_inv in Hs0 as (? & ? & ? & ? & ?). by repeat split.
    + apply bind_Ok_inv in Hs as (r & _ & Hs). by injection Hs as <- <-.
Qed.

(** C2, as the code has it: the trade list that [backtest] returns holds the
    completed trades only, so a trade left open at the end of the series is
    neither returned nor counted: Total Trades, Wins, Win Ratio and Total
    P&L are computed over the returned, completed trades. *)
Theorem backtest_returns_completed df (initial_capital : F) tl s :
  backtest df initial_capital = Ok (tl, s) →
  all_closed tl
  ∧ Total_Trades s = length tl ∧ Wins s = count_wins tl
  ∧ Win_Ratio s = win_ratio_of tl ∧ Total_PnL s = sum_PnL tl
  ∧ (∀ st, 2 ≤ length (df_rows df) → has_Signal df = true →
           simulate (_ensure_datetime_index df) initial_capital = Ok st →
           tl = map fill_PnL (List.filter is_closed (trades st))).
Proof.
  unfold backtest. intros Hbt.
  destruct ((length (df_rows (_ensure_datetime_index df)) <? 2)
            || negb (has_Signal (_ensure_datetime_index df))) eqn:Hguard.
  - injection Hbt as <- <-. split; [constructor|]. do 4 (split; [done|]).
    intros st Hlen Hsig _. simpl in Hguard.
    rewrite length_sort_index, Hsig, orb_false_r in Hguard.
    apply Nat.ltb_lt in Hguard. lia.
  - apply bind_Ok_inv in Hbt as (st0 & Hsim & Hsum).
    apply summarize_completed in Hsum as (Htl & _ & Ht & Hw & Hr & Hp).
    split; [|do 4 (split; [done|])].
    + rewrite Htl. apply map_fill_all_closed, filter_all_closed.
    + intros st _ _ Hst. congruence.
Qed.

(** ** Trades never overlap *)

Lemma non_overlapping_prefix l1 l2 :
  non_overlapping (l1 ++ l2) → non_overlapping l1.
Proof.
  induction l1 as [|a [|b l1'] IH]; [done..|].
  intros [Hab Hl]. split; [done|]. by apply IH.
Qed.

Lemma non_overlapping_fill l :
  non_overlapping l → non_overlapping (map fill_PnL l).
Proof.
  induction l as [|a [|b l'] IH]; [done..|].
  intros [Hab Hl]. split; [done|]. by apply IH.
Qed.

Lemma filter_all_closed_id l :
  all_closed l → List.filter is_closed l = l.
Proof.
  induction 1 as [|t l Ht Hl IH]; simpl; [done|]. by rewrite Ht, IH.
Qed.

Lemma filter_closed_cases l :
  all_closed (removelast l) →
  List.filter is_closed l = l ∨ List.filter is_closed l = removelast l.
Proof.
  destruct (decide (l = [])) as [-> | Hne]; [by left|].
  destruct (exists_last Hne) as (tl & t & ->).
  rewrite removelast_last. intros Hall.
  rewrite List.filter_app, (filter_all_closed_id tl Hall). simpl.
  destruct (is_closed t); [by left | right; by rewrite app_nil_r].
Qed.

(** C6: on the table sorted by date, after any number of iterations either
    the engine is flat and every trade is closed, or it holds exactly the
    last trade; consecutive trades never overlap, each exit being recorded
    and not after the next entry; this still holds after the forced close,
    where only the last trade may have stayed open, and in the list that
    [backtest] returns; a BUY while holding and a SELL while flat return the
    state unchanged. *)
Theorem single_open_position df (initial_capital : F) :
  (∀ k st, state_after (_ensure_datetime_index df) initial_capital k = Ok st →
           position_ok st ∧ non_overlapping (trades st))
  ∧ (∀ st, simulate (_ensure_datetime_index df) initial_capital = Ok st →
           all_closed (removelast (trades st)) ∧ non_overlapping (trades st))
  ∧ (∀ tl s, backtest df initial_capital = Ok (tl, s) → non_overlapping tl)
  ∧ (∀ st d p, in_position st = true → execute BUY d p st = Ok st)
  ∧ (∀ st d p, in_position st = false → execute SELL d p st = Ok st).
Proof.
  assert (StronglySorted (@date_le F) (df_rows (_ensure_datetime_index df))) as Hsorted
    by apply sort_index_sorted.
  assert (∀ st, simulate (_ensure_datetime_index df) initial_capital = Ok st →
                all_closed (removelast (trades st)) ∧ non_overlapping (trades st))
    as Hfinal.
  { intros st Hsim. unfold simulate in Hsim.
    apply bind_Ok_inv in Hsim as (st0 & Hrun & Hfc).
    rewrite run_loop_state_after in Hrun.
    destruct (state_after_ordered _ _ _ _ Hsorted Hrun) as (Hok & Hno & _).
    by eapply force_close_ordered. }
  split; [|split; [|split; [|split]]].
  - intros k st Hst.
    destruct (state_after_ordered _ _ _ _ Hsorted Hst) as (Hok & Hno & _). done.
  - exact Hfinal.
  - intros tl s Hbt. unfold backtest in Hbt.
    destruct ((length (df_rows (_ensure_datetime_index df)) <? 2)
              || negb (has_Signal (_ensure_datetime_index df))).
    + by injection Hbt as <- <-.
    + apply bind_Ok_inv in Hbt as (st & Hsim & Hsum).
      apply summarize_completed in Hsum as (-> & _).
      destruct (Hfinal st Hsim) as [Hall Hno].
      apply non_overlapping_fill.
      destruct (filter_closed_cases (trades st) Hall) as [-> | ->]; [done|].
      destruct (decide (trades st = [])) as [-> | Hne]; [done|].
      destruct (exists_last Hne) as (tl' & t' & Heq).
      rewrite Heq in Hno |- *. rewrite removelast_last.
      by eapply non_overlapping_prefix.
  - intros st d p Hpos. unfold execute. by rewrite Hpos.
  - intros st d p Hpos. unfold execute. by rewrite Hpos.
Qed.

(** ** The orchestrator *)

Lemma try_ticker_no_data mm df (initial_capital : F) months :
  df_rows df = [] → try_ticker mm df initial_capital months = Ok None.
Proof. intros Hrows. unfold try_ticker. simpl. by rewrite Hrows. Qed.

Lemma try_ticker_with_data mm df (initial_capital : F) months :
  df_rows df ≠ [] → try_ticker mm df initial_capital months ≠ Ok None.
Proof.
  intros Hrows. unfold try_ticker.
  destruct (df_rows (_ensure_datetime_index df)) as [|r rs] eqn:Hsorted.
  - apply (f_equal length) in Hsorted. simpl in Hsorted.
    rewrite length_sort_index in Hsorted. by destruct (df_rows df).
  - cbv zeta. case_match; [done|].
    by destruct (backtest _ initial_capital).
Qed.

(** The tickers that [backtest_all] writes: those whose table has a row. *)
Lemma backtest_all_keys mm (data_dict : gmap string (DataFrame F))
    (initial_capital : F) months :
  dom (backtest_all mm data_dict initial_capital months).1
  = dom (filter (λ kv, length (df_rows kv.2) ≠ 0) data_dict)
  ∧ dom (backtest_all mm data_dict initial_capital months).2
    = dom (filter (λ kv, length (df_rows kv.2) ≠ 0) data_dict).
Proof.
  unfold backtest_all.
  apply (map_fold_weak_ind
           (λ r m, dom r.1 = dom (filter (λ kv, length (df_rows kv.2) ≠ 0) m)
                   ∧ dom r.2 = dom (filter (λ kv, length (df_rows kv.2) ≠ 0) m))).
  - rewrite map_filter_empty. by rewrite !dom_empty_L.
  - intros ticker df m r Hfresh [IH1 IH2]. unfold backtest_ticker.
    destruct (decide (df_rows df = [])) as [Hempty | Hdata].
    + rewrite try_ticker_no_data by done.
      rewrite map_filter_insert_False by (simpl; rewrite Hempty; simpl; lia).
      by rewrite delete_id.
    + rewrite map_filter_insert_True by (simpl; by destruct (df_rows df)).
      rewrite dom_insert_L.
      pose proof (try_ticker_with_data mm df initial_capital months Hdata) as Hsome.
      destruct (try_ticker mm df initial_capital months) as [[[tr su]|]|e];
        [| done |]; simpl; rewrite !dom_insert_L; by rewrite IH1, IH2.
Qed.

(** C1, what the code does: a ticker whose table has no row gets no entry in
    either mapping, so the outputs have fewer keys than the input. *)
Theorem backtest_all_omits_empty_ticker mm (data_dict : gmap string (DataFrame F))
    (initial_capital : F) months ticker df :
  data_dict !! ticker = Some df → df_rows df = [] →
  (backtest_all mm data_dict initial_capital months).1 !! ticker = None
  ∧ (backtest_all mm data_dict initial_capital months).2 !! ticker = None
  ∧ size (backtest_all mm data_dict initial_capital months).1 < size data_dict
  ∧ size (backtest_all mm data_dict initial_capital months).2 < size data_dict.
Proof.
  intros Hticker Hempty.
  destruct (backtest_all_keys mm data_dict initial_capital months) as [Hk1 Hk2].
  assert (ticker ∉ dom (filter (λ kv : string * DataFrame F, length (df_rows kv.2) ≠ 0) data_dict))
    as Hnot.
  { rewrite elem_of_dom. intros [df' Hdf'].
    apply map_lookup_filter_Some in Hdf' as [Hdf' Hlen].
    rewrite Hticker in Hdf'. injection Hdf' as <-.
    simpl in Hlen. by rewrite Hempty in Hlen. }
  assert (dom (filter (λ kv : string * DataFrame F, length (df_rows kv.2) ≠ 0) data_dict)
          ⊂ dom data_dict) as Hstrict.
  { split.
    - apply subseteq_dom, map_filter_subseteq.
    - intros Hsub. apply Hnot, Hsub. rewrite elem_of_dom. by eexists. }
  apply subset_size in Hstrict. rewrite (size_dom data_dict) in Hstrict.
  split; [|split; [|split]].
  - apply not_elem_of_dom. by rewrite Hk1.
  - apply not_elem_of_dom. by rewrite Hk2.
  - by rewrite <- size_dom, Hk1.
  - by rewrite <- size_dom, Hk2.
Qed.

End Properties.


(** * The engine on exact rationals *)

Lemma Q_fgt0 (p : Q) : fgt0 p = true ↔ (0 < p)%Q.
Proof.
  unfold fgt0, Q_Arith, Qlt. simpl. rewrite Z.ltb_lt. lia.
Qed.

Lemma Q_fmul_zero (p : Q) : fmul fzero p = 0%Q.
Proof.
  unfold fmul, fzero, Q_Arith.
  rewrite (Qred_complete (0 * p) 0 (Qmult_0_l p)). reflexivity.
Qed.

(** On rationals, [int(x)] is 1 exactly on the values from 1 up to, not
    including, 2, and -1 exactly on the values from -1 down to, not
    including, -2. *)
Lemma Q_ftrunc_one (q : Q) : ftrunc q = Some 1%Z ↔ (1 <= q)%Q ∧ (q < 2)%Q.
Proof.
  unfold ftrunc, Q_Arith, Qle, Qlt. destruct q as [n d]. simpl.
  pose proof (Z.quot_rem' n (Z.pos d)) as Hqr.
  pose proof (Z.rem_bound_abs n (Z.pos d) ltac:(lia)) as Habs.
  pose proof (Z.rem_nonneg n (Z.pos d) ltac:(lia)) as Hpos.
  pose proof (Z.rem_nonpos n (Z.pos d) ltac:(lia)) as Hneg.
  split.
  - intros [= Hq]. rewrite Hq in Hqr. lia.
  - intros [Hlo Hhi]. f_equal. nia.
Qed.

Lemma Q_ftrunc_minus_one (q : Q) :
  ftrunc q = Some (-1)%Z ↔ (-2 < q)%Q ∧ (q <= -1)%Q.
Proof.
  unfold ftrunc, Q_Arith, Qle, Qlt. destruct q as [n d]. simpl.
  pose proof (Z.quot_rem' n (Z.pos d)) as Hqr.
  pose proof (Z.rem_bound_abs n (Z.pos d) ltac:(lia)) as Habs.
  pose proof (Z.rem_nonneg n (Z.pos d) ltac:(lia)) as Hpos.
  pose proof (Z.rem_nonpos n (Z.pos d) ltac:(lia)) as Hneg.
  split.
  - intros [= Hq]. rewrite Hq in Hqr. lia.
  - intros [Hlo Hhi]. f_equal. nia.
Qed.

(** The six forms of the table are read as the table says. *)
Example listed_forms :
  map (λ s, _normalize_signal (VStr s : pyval Q)) ["BUY"; "B"; "1"; "SELL"; "S"; "-1"; "HOLD"]
  = [BUY; BUY; BUY; SELL; SELL; SELL; HOLD]
  ∧ map (λ n, _normalize_signal (VInt n : pyval Q)) [1; -1; 0; 2]%Z
    = [BUY; SELL; HOLD; HOLD].
Proof. split; vm_compute; reflexivity. Qed.

(** ** The scenario of the specification *)

Lemma scenario_value :
  backtest scenario 1000%Q
  = Ok ([{| Entry_Date := 1; Entry_Price := 11%Q;
            Exit_Date := Some 3%Z; Exit_Price := Some 15%Q;
            Qty := (1000 # 11)%Q; PnL := Some (4000 # 11)%Q |}],
        {| Final_Capital := (15000 # 11)%Q; Total_Trades := 1; Wins := 1;
           Win_Ratio := 100%Q; Total_PnL := (4000 # 11)%Q;
           Return_pct := (909 # 25)%Q |}).
Proof. vm_compute. reflexivity. Qed.

(** C8, as the code runs it: the BUY of d0 enters at d1, at its Open of 11,
    with 1000/11 shares; the SELL of d2 exits at d3, at its Open of 15; the
    P&L is 4000/11, the final capital 15000/11 and the return 36.36. *)
Theorem scenario_backtest :
  ∃ t pnl s,
    backtest scenario 1000%Q = Ok ([t], s)
    ∧ Entry_Date t = 1%Z ∧ Entry_Price t = 11%Q
    ∧ (Qty t == 1000 / 11)%Q
    ∧ Exit_Date t = Some 3%Z ∧ Exit_Price t = Some 15%Q
    ∧ PnL t = Some pnl ∧ (pnl == (15 - 11) * (1000 / 11))%Q
    ∧ Total_Trades s = 1 ∧ Wins s = 1
    ∧ (Total_PnL s == 4000 / 11)%Q
    ∧ (Final_Capital s == 15000 / 11)%Q
    ∧ (Return_pct s == 3636 / 100)%Q
    ∧ Return_pct s = Qround2 ((Final_Capital s - 1000) / 1000 * 100).
Proof.
  eexists _, _, _. split; [apply scenario_value|].
  repeat split; reflexivity.
Qed.

(** The scenario does not end the way the specification tells it: the exit
    is not at d2 at 13, and the return is not 18.18. *)
Lemma scenario_exit_not_at_d2 :
  ¬ ∃ t s, backtest scenario 1000%Q = Ok ([t], s)
      ∧ Exit_Date t = Some 2%Z ∧ Exit_Price t = Some 13%Q
      ∧ (Final_Capital s == 13000 / 11)%Q
      ∧ (Return_pct s == 1818 / 100)%Q.
Proof.
  intros (t & s & Hbt & Hdate & _).
  rewrite scenario_value in Hbt. injection Hbt as <- <-. discriminate.
Qed.

(** ** Signal forms outside the table of the specification *)

Lemma normalize_signal_not_spec :
  _normalize_signal (VStr "buy" : pyval Q) = BUY
  ∧ spec_normalize_signal (VStr "buy") = HOLD
  ∧ _normalize_signal (VFloat (3 # 2)%Q) = BUY
  ∧ spec_normalize_signal (VFloat (3 # 2)%Q) = HOLD.
Proof. repeat split; vm_compute; reflexivity. Qed.

(** ** An open trade at the end of the series *)

(** The trade that [open_tail] leaves open is in the engine's list, with its
    exit fields absent, and is not in the list that [backtest] returns. *)
Lemma open_trade_not_returned :
  (∃ st t, simulate (_ensure_datetime_index open_tail) 1000%Q = Ok st
           ∧ trades st = [t]
           ∧ Exit_Date t = None ∧ Exit_Price t = None ∧ PnL t = None)
  ∧ backtest open_tail 1000%Q = Ok ([], zero_summary 1000%Q).
Proof.
  split; [|vm_compute; reflexivity].
  eexists _, _. split; [vm_compute; reflexivity|]. by repeat split.
Qed.

(** The specification's example of the forced close: no Close in the last
    row, an Open of 20. *)
Example open_only_tail_closes_at_open :
  ∃ t s, backtest open_only_tail 1000%Q = Ok ([t], s)
    ∧ Exit_Date t = Some 2%Z ∧ Exit_Price t = Some 20%Q
    ∧ Final_Capital s = 2000%Q.
Proof. eexists _, _. split; [vm_compute; reflexivity|]. by repeat split. Qed.

(** ** The guarded division *)

(** A BUY at a price of 0 and a later SELL at 5: quantity 0, final capital 0. *)
Example zero_price_backtest :
  ∃ t s, backtest zero_price 1000%Q = Ok ([t], s)
    ∧ Entry_Price t = 0%Q ∧ Qty t = 0%Q ∧ Exit_Price t = Some 5%Q
    ∧ Final_Capital s = 0%Q.
Proof. eexists _, _. split; [vm_compute; reflexivity|]. by repeat split. Qed.

(** * Instances of the theorems on concrete series *)

Lemma backtest_insufficient_data_witness :
  (length (df_rows single_bar) < 2 ∨ has_Signal single_bar = false)
  ∧ ∃ s, backtest single_bar 1000%Q = Ok ([], s)
      ∧ Total_Trades s = 0 ∧ Wins s = 0
      ∧ Win_Ratio s = fzero ∧ Total_PnL s = fzero
      ∧ Final_Capital s = 1000%Q.
Proof.
  assert (length (df_rows single_bar) < 2 ∨ has_Signal single_bar = false) as Hshort.
  { left. simpl. lia. }
  split; [exact Hshort|].
  exact (backtest_insufficient_data single_bar 1000%Q Hshort).
Defined.

Lemma next_bar_execution_witness :
  1 < length (df_rows scenario)
  ∧ ∃ row next st st',
      df_rows scenario !! 0 = Some row ∧ df_rows scenario !! 1 = Some next
      ∧ state_after scenario 1000%Q 0 = Ok st
      ∧ state_after scenario 1000%Q 1 = Ok st'
      ∧ (∀ p, has_Open scenario = true → row_Open next = Some p → fisnan p = false →
              executed_at (_normalize_signal (row_Signal row)) (row_date next) p st st')
      ∧ (∀ p, unpriced (has_Open scenario) (row_Open next) →
              has_Close scenario = true → row_Close next = Some p → fisnan p = false →
              executed_at (_normalize_signal (row_Signal row)) (row_date next) p st st')
      ∧ (unpriced (has_Open scenario) (row_Open next) →
         unpriced (has_Close scenario) (row_Close next) → st' = st)
      ∧ run_loop scenario 1000%Q
        = for_range (loop_body scenario) 1 (length (df_rows scenario) - 1 - 1) st'.
Proof.
  assert (1 < length (df_rows scenario)) as Hi by (simpl; lia).
  split; [exact Hi|].
  exact (next_bar_execution scenario 1000%Q 0 Hi).
Defined.

Lemma force_close_last_price_witness :
  run_loop open_only_tail 1000%Q = Ok holding_state
  ∧ in_position holding_state = true
  ∧ ∃ last_row tl t st',
      last (df_rows open_only_tail) = Some last_row
      ∧ trades holding_state = tl ++ [t]
      ∧ Exit_Date t = None ∧ Exit_Price t = None ∧ PnL t = None
      ∧ force_close open_only_tail holding_state = Ok st'
      ∧ in_position st' = false
      ∧ (∀ p, has_Close open_only_tail = true → row_Close last_row = Some p →
              fisnan p = false →
              ∃ t', trades st' = tl ++ [t'] ∧ closes (row_date last_row) p t t'
                    ∧ capital st' = fmul (Qty t) p)
      ∧ (∀ p, unpriced (has_Close open_only_tail) (row_Close last_row) →
              has_Open open_only_tail = true → row_Open last_row = Some p →
              fisnan p = false →
              ∃ t', trades st' = tl ++ [t'] ∧ closes (row_date last_row) p t t'
                    ∧ capital st' = fmul (Qty t) p)
      ∧ (unpriced (has_Close open_only_tail) (row_Close last_row) →
         unpriced (has_Open open_only_tail) (row_Open last_row) →
           trades st' = tl ++ [t] ∧ capital st' = capital holding_state).
Proof.
  assert (run_loop open_only_tail 1000%Q = Ok holding_state) as Hrun
    by (vm_compute; reflexivity).
  split; [exact Hrun|]. split; [reflexivity|].
  exact (force_close_last_price open_only_tail 1000%Q holding_state Hrun eq_refl).
Defined.

Lemma backtest_returns_completed_witness :
  backtest open_tail 1000%Q = Ok ([], zero_summary 1000%Q)
  ∧ all_closed ([] : list (Trade Q))
  ∧ Total_Trades (zero_summary 1000%Q) = length ([] : list (Trade Q))
  ∧ Wins (zero_summary 1000%Q) = count_wins ([] : list (Trade Q))
  ∧ Win_Ratio (zero_summary 1000%Q) = win_ratio_of ([] : list (Trade Q))
  ∧ Total_PnL (zero_summary 1000%Q) = sum_PnL ([] : list (Trade Q))
  ∧ (∀ st, 2 ≤ length (df_rows open_tail) → has_Signal open_tail = true →
           simulate (_ensure_datetime_index open_tail) 1000%Q = Ok st →
           [] = map fill_PnL (List.filter is_closed (trades st))).
Proof.
  assert (backtest open_tail 1000%Q = Ok ([], zero_summary 1000%Q)) as Hbt
    by (vm_compute; reflexivity).
  split; [exact Hbt|].
  exact (backtest_returns_completed open_tail 1000%Q [] (zero_summary 1000%Q) Hbt).
Defined.

Lemma backtest_all_omits_empty_ticker_witness :
  one_empty_ticker !! "TCS.NS" = Some no_data
  ∧ df_rows no_data = []
  ∧ (backtest_all minus_months_30 one_empty_ticker 1000%Q 6).1 !! "TCS.NS" = None
  ∧ (backtest_all minus_months_30 one_empty_ticker 1000%Q 6).2 !! "TCS.NS" = None
  ∧ size (backtest_all minus_months_30 one_empty_ticker 1000%Q 6).1 < size one_empty_ticker
  ∧ size (backtest_all minus_months_30 one_empty_ticker 1000%Q 6).2 < size one_empty_ticker.
Proof.
  assert (one_empty_ticker !! "TCS.NS" = Some no_data) as Hticker
    by (vm_compute; reflexivity).
  split; [exact Hticker|]. split; [reflexivity|].
  exact (backtest_all_omits_empty_ticker minus_months_30 one_empty_ticker
           1000%Q 6 "TCS.NS" no_data Hticker eq_refl).
Defined.

(** The failing input of the orchestrator, evaluated: one ticker in, no key
    out. *)
Example backtest_all_one_empty_ticker :
  size one_empty_ticker = 1
  ∧ backtest_all minus_months_30 one_empty_ticker 1000%Q 6 = (∅, ∅).
Proof. split; vm_compute; reflexivity. Qed.

(** The other failures do get their entry: a table without a Signal column,
    and a simulation that raises (here the division of the return by an
    initial capital of 0). *)
Example backtest_all_failures_with_entry :
  backtest_all minus_months_30 {["INFY.NS" := no_signal]} 1000%Q 6
  = ({["INFY.NS" := []]}, {["INFY.NS" := zero_summary 1000%Q]})
  ∧ backtest scenario 0%Q = Raise ZeroDivisionError
  ∧ backtest_all minus_months_30 {["INFY.NS" := scenario]} 0%Q 6
    = ({["INFY.NS" := []]}, {["INFY.NS" := zero_summary 0%Q]}).
Proof. repeat split; vm_compute; reflexivity. Qed.

(** * Further properties of [backtest.py] *)

Section MoreProperties.

Context {F : Type} `{Arith F}.

Implicit Types (st : State F) (df : DataFrame F) (t : Trade F) (l : list (Trade F)).

(** ** The sort, again *)

Lemma insert_sorted_perm (r : Row F) (rows : list (Row F)) :
  insert_sorted r rows ≡ₚ r :: rows.
Proof.
  induction rows as [|r' rows IH]; simpl; [done|].
  case_match; [done|]. rewrite IH. apply Permutation_swap.
Qed.

Lemma sort_index_perm (rows : list (Row F)) : sort_index rows ≡ₚ rows.
Proof.
  induction rows as [|r rows IH]; simpl; [done|].
  by rewrite insert_sorted_perm, IH.
Qed.

(** X1: [_ensure_datetime_index] keeps the columns and returns the same rows,
    rearranged so that dates never decrease. *)
Theorem ensure_datetime_index_sorts df :
  df_rows (_ensure_datetime_index df) ≡ₚ df_rows df
  ∧ StronglySorted (@date_le F) (df_rows (_ensure_datetime_index df))
  ∧ has_Open (_ensure_datetime_index df) = has_Open df
  ∧ has_Close (_ensure_datetime_index df) = has_Close df
  ∧ has_Signal (_ensure_datetime_index df) = has_Signal df.
Proof.
  split; [apply sort_index_perm|]. split; [apply sort_index_sorted|]. done.
Qed.

Lemma sorted_unique (l1 l2 : list (Row F)) :
  StronglySorted (@date_le F) l1 → StronglySorted (@date_le F) l2 →
  NoDup (map row_date l1) → l1 ≡ₚ l2 → l1 = l2.
Proof.
  intros Hs1. revert l2. induction Hs1 as [|a l1 Hs1 IH Ha]; intros l2 Hs2 Hnd Hperm.
  - by apply Permutation_nil_l in Hperm.
  - destruct Hs2 as [|b l2 Hs2 Hb].
    { by apply Permutation_nil_r in Hperm. }
    simpl in Hnd. apply NoDup_cons in Hnd as [Hfresh Hnd].
    rewrite Forall_forall in Ha, Hb.
    assert (a = b) as <-.
    { assert (a ∈ b :: l2) as Ha_in by (rewrite <- Hperm; left).
      assert (b ∈ a :: l1) as Hb_in by (rewrite Hperm; left).
      apply elem_of_cons in Ha_in as [-> | Ha_in]; [done|].
      apply elem_of_cons in Hb_in as [-> | Hb_in]; [done|].
      specialize (Ha b Hb_in). specialize (Hb a Ha_in). unfold date_le in *.
      exfalso. apply Hfresh.
      replace (row_date a) with (row_date b) by lia.
      by apply list_elem_of_fmap_2. }
    f_equal. apply IH; [done..|]. by eapply Permutation_cons_inv.
Qed.

(** X2: when the dates are pairwise distinct, the order in which the rows are
    given does not matter: two tables with the same columns and the same rows
    in any order have the same backtest. *)
Theorem backtest_row_order_irrelevant df1 df2 (initial_capital : F) :
  NoDup (map row_date (df_rows df1)) →
  df_rows df1 ≡ₚ df_rows df2 →
  has_Open df1 = has_Open df2 → has_Close df1 = has_Close df2 →
  has_Signal df1 = has_Signal df2 →
  backtest df1 initial_capital = backtest df2 initial_capital.
Proof.
  intros Hnd Hperm Ho Hc Hs.
  assert (_ensure_datetime_index df1 = _ensure_datetime_index df2) as Heq.
  { unfold _ensure_datetime_index. rewrite Ho, Hc, Hs. f_equal.
    apply sorted_unique; [apply sort_index_sorted.. | |].
    - by rewrite sort_index_perm.
    - by rewrite !sort_index_perm. }
  unfold backtest. by rewrite Heq.
Qed.

(** ** Shapes of a run *)

Lemma backtest_inv df (initial_capital : F) tl s :
  backtest df initial_capital = Ok (tl, s) →
  (tl = [] ∧ s = zero_summary initial_capital
   ∧ (length (df_rows df) < 2 ∨ has_Signal df = false))
  ∨ (2 ≤ length (df_rows df) ∧ has_Signal df = true
     ∧ ∃ st0 st,
         run_loop (_ensure_datetime_index df) initial_capital = Ok st0
         ∧ force_close (_ensure_datetime_index df) st0 = Ok st
         ∧ summarize (trades st) (capital st) initial_capital = Ok (tl, s)).
Proof.
  unfold backtest. intros Hbt.
  destruct ((length (df_rows (_ensure_datetime_index df)) <? 2)
            || negb (has_Signal (_ensure_datetime_index df))) eqn:Hguard.
  - injection Hbt as <- <-. left. split; [done|]. split; [done|].
    simpl in Hguard. rewrite length_sort_index in Hguard.
    apply orb_true_iff in Hguard as [Hlen | Hsig].
    + left. by apply Nat.ltb_lt.
    + right. by apply negb_true_iff.
  - right. simpl in Hguard. rewrite length_sort_index in Hguard.
    apply orb_false_iff in Hguard as [Hlen Hsig].
    apply Nat.ltb_ge in Hlen. apply negb_false_iff in Hsig.
    split; [done|]. split; [done|].
    apply bind_Ok_inv in Hbt as (st & Hsim & Hsum).
    unfold simulate in Hsim. apply bind_Ok_inv in Hsim as (st0 & Hrun & Hfc).
    by exists st0, st.
Qed.

Lemma state_after_bound df cap k st :
  state_after df cap k = Ok st → k ≤ length (df_rows df) - 1.
Proof.
  destruct k as [|k]; [lia|]. rewrite state_after_S. intros Hst.
  apply bind_Ok_inv in Hst as (st0 & _ & Hbody).
  destruct (loop_body_lookup df k st0 st Hbody) as (row & next & _ & Hnext & _).
  apply lookup_lt_Some in Hnext. lia.
Qed.

Lemma force_close_trades_length df st st' :
  force_close df st = Ok st' → length (trades st') = length (trades st).
Proof.
  unfold force_close, iloc, the_float, update_last. intros Hfc.
  destruct (in_position st); [|by injection Hfc as <-].
  destruct (df_rows df !! (length (df_rows df) - 1)); [|done]. simpl in Hfc.
  destruct (last_price_of df r); [|by injection Hfc as <-].
  destruct (entry_price st); [|done]. destruct (entry_qty st); [|done].
  simpl in Hfc. destruct (last (trades st)) as [t|] eqn:Hlast; [|done].
  injection Hfc as <-. simpl.
  apply last_Some in Hlast as [tl ->].
  rewrite removelast_last. by rewrite !length_app.
Qed.

(** ** No BUY, no trade *)

Lemma no_buy_state_after df (initial_capital : F) k :
  (∀ r, r ∈ df_rows df → _normalize_signal (row_Signal r) ≠ BUY) →
  k ≤ length (df_rows df) - 1 →
  state_after df initial_capital k = Ok (init_state initial_capital).
Proof.
  intros Hno. induction k as [|k IH]; intros Hk; [done|].
  rewrite state_after_S, IH, bind_Ok by lia.
  unfold loop_body, iloc.
  destruct (lookup_lt_is_Some_2 (df_rows df) k) as [row Hrow]; [lia|].
  destruct (lookup_lt_is_Some_2 (df_rows df) (S k)) as [next Hnext]; [lia|].
  rewrite Hrow, Hnext. simpl.
  destruct (exec_price_of df next); [|done].
  pose proof (Hno row (list_elem_of_lookup_2 _ _ _ Hrow)) as Hsig.
  unfold execute. simpl. by destruct (_normalize_signal (row_Signal row)).
Qed.

Lemma no_buy_simulate df (initial_capital : F) :
  (∀ r, r ∈ df_rows df → _normalize_signal (row_Signal r) ≠ BUY) →
  simulate (_ensure_datetime_index df) initial_capital
  = Ok (init_state initial_capital).
Proof.
  intros Hno.
  assert (∀ r, r ∈ df_rows (_ensure_datetime_index df) →
               _normalize_signal (row_Signal r) ≠ BUY) as Hno'.
  { intros r Hr. apply Hno. simpl in Hr. by rewrite sort_index_perm in Hr. }
  unfold simulate. rewrite run_loop_state_after.
  by rewrite (no_buy_state_after _ _ _ Hno').
Qed.

Lemma idle_backtest df (initial_capital : F) :
  feq0 initial_capital = false →
  simulate (_ensure_datetime_index df) initial_capital
  = Ok (init_state initial_capital) →
  ∃ s, backtest df initial_capital = Ok ([], s)
    ∧ Total_Trades s = 0 ∧ Wins s = 0 ∧ Total_PnL s = fzero
    ∧ Final_Capital s = initial_capital.
Proof.
  intros Hcap Hsim. unfold backtest.
  case_match; [by exists (zero_summary initial_capital)|].
  rewrite Hsim, bind_Ok. simpl.
  unfold no_trade_summary, return_pct, py_div. rewrite Hcap. simpl.
  eexists. split; [done|]. done.
Qed.

(** X3: a table in which no signal normalizes to BUY yields, for a non-zero
    initial capital, an empty trade list, 0 trades, a total P&L of 0 and the
    initial capital as final capital. *)
Theorem no_buy_no_trade df (initial_capital : F) :
  feq0 initial_capital = false →
  (∀ r, r ∈ df_rows df → _normalize_signal (row_Signal r) ≠ BUY) →
  ∃ s, backtest df initial_capital = Ok ([], s)
    ∧ Total_Trades s = 0 ∧ Wins s = 0 ∧ Total_PnL s = fzero
    ∧ Final_Capital s = initial_capital.
Proof.
  intros Hcap Hno. apply idle_backtest; [done|].
  unfold simulate. rewrite run_loop_state_after.
  rewrite (no_buy_state_after (_ensure_datetime_index df) initial_capital).
  - done.
  - intros r Hr. apply Hno. simpl in Hr. by rewrite sort_index_perm in Hr.
  - done.
Qed.

(** ** Counting trades *)

Lemma state_after_count df cap k st :
  state_after df cap k = Ok st →
  2 * length (trades st) ≤ k + (if in_position st then 1 else 0).
Proof.
  revert st. induction k as [|k IH]; intros st Hst.
  - injection Hst as <-. simpl. lia.
  - pose proof Hst as Hst'. rewrite state_after_S in Hst'.
    apply bind_Ok_inv in Hst' as (st0 & Hst0 & Hbody).
    specialize (IH st0 Hst0).
    pose proof (state_after_position df cap k st0 Hst0) as Hok.
    destruct (loop_body_lookup df k st0 st Hbody) as (row & next & _ & _ & Hexec).
    destruct (exec_price_of df next) as [p|];
      [|subst; destruct (in_position st0); lia].
    destruct (execute_decision (_normalize_signal (row_Signal row)) (row_date next) p st0 Hok)
      as (st2 & Hex & Hdec & _).
    rewrite Hexec in Hex. injection Hex as <-.
    unfold decision_executed in Hdec.
    destruct (_normalize_signal (row_Signal row)), (in_position st0) eqn:Hpos;
      try (subst; rewrite ?Hpos; lia).
    + destruct Hdec as (-> & -> & _). rewrite length_app. simpl. lia.
    + destruct Hdec as (tl & t & Htl & -> & -> & _).
      rewrite Htl in IH. rewrite !length_app in *. simpl in *. lia.
Qed.

Lemma count_wins_le l : count_wins l ≤ length l.
Proof. unfold count_wins. apply filter_length_le. Qed.

(** X4: in every summary that [backtest] returns, the wins are at most the
    trades, the trades are at most half the rows of the table, and the win
    ratio is 0 when there is no trade. *)
Theorem trade_count_bounds df (initial_capital : F) tl s :
  backtest df initial_capital = Ok (tl, s) →
  Wins s ≤ Total_Trades s
  ∧ 2 * Total_Trades s ≤ length (df_rows df)
  ∧ (Total_Trades s = 0 → Win_Ratio s = fzero).
Proof.
  intros Hbt.
  destruct (backtest_inv df initial_capital tl s Hbt)
    as [(-> & -> & _) | (Hlen & _ & st0 & st & Hrun & Hfc & Hsum)].
  { simpl. split; [lia|]. split; [lia|done]. }
  apply summarize_completed in Hsum as (Htl & _ & Ht & Hw & Hr & _).
  rewrite Ht, Hw, Hr. split; [apply count_wins_le|]. split.
  - rewrite run_loop_state_after in Hrun.
    pose proof (state_after_count _ _ _ _ Hrun) as Hcount.
    simpl in Hcount. rewrite length_sort_index in Hcount.
    pose proof (force_close_trades_length _ _ _ Hfc) as Hsame.
    assert (length tl ≤ length (trades st)) as Hle.
    { rewrite Htl, length_map. apply filter_length_le. }
    destruct (in_position st0); lia.
  - intros Hzero. unfold win_ratio_of. by rewrite Hzero.
Qed.

(** ** When [backtest] raises *)

Lemma summarize_zero_capital l (capital0 initial_capital : F) :
  feq0 initial_capital = true →
  summarize l capital0 initial_capital = Raise ZeroDivisionError.
Proof.
  intros Hcap. unfold summarize, no_trade_summary, return_pct, py_div.
  rewrite Hcap. destruct l; [done|]. by destruct (List.filter is_closed _).
Qed.

(** X5: [backtest] raises exactly when the initial capital is zero on a table
    of at least 2 rows with a Signal column, and what it raises then is the
    ZeroDivisionError of the return. *)
Theorem backtest_raises_iff_zero_capital df (initial_capital : F) :
  (backtest df initial_capital = Raise ZeroDivisionError
   ↔ feq0 initial_capital = true
     ∧ 2 ≤ length (df_rows df) ∧ has_Signal df = true)
  ∧ (∀ e, backtest df initial_capital = Raise e → e = ZeroDivisionError).
Proof.
  assert (∀ e, backtest df initial_capital = Raise e →
               e = ZeroDivisionError ∧ feq0 initial_capital = true
               ∧ 2 ≤ length (df_rows df) ∧ has_Signal df = true) as Hraise.
  { intros e Hbt. destruct (feq0 initial_capital) eqn:Hcap.
    - unfold backtest in Hbt.
      destruct ((length (df_rows (_ensure_datetime_index df)) <? 2)
                || negb (has_Signal (_ensure_datetime_index df))) eqn:Hguard; [done|].
      simpl in Hguard. rewrite length_sort_index in Hguard.
      apply orb_false_iff in Hguard as [Hlen Hsig].
      apply Nat.ltb_ge in Hlen. apply negb_false_iff in Hsig.
      destruct (simulate_total (_ensure_datetime_index df) initial_capital)
        as (st0 & st & _ & _ & Hsim).
      rewrite Hsim, bind_Ok, summarize_zero_capital in Hbt by done.
      by injection Hbt as <-.
    - destruct (backtest_total df initial_capital Hcap) as (tl & s & Hok).
      congruence. }
  split; [|intros e He; by destruct (Hraise e He)].
  split; [intros Hbt; by destruct (Hraise _ Hbt)|].
  intros (Hcap & Hlen & Hsig). unfold backtest.
  assert ((length (df_rows (_ensure_datetime_index df)) <? 2)
          || negb (has_Signal (_ensure_datetime_index df)) = false) as ->.
  { simpl. rewrite length_sort_index, Hsig.
    apply Nat.ltb_ge in Hlen. by rewrite Hlen. }
  destruct (simulate_total (_ensure_datetime_index df) initial_capital)
    as (st0 & st & _ & _ & Hsim).
  by rewrite Hsim, bind_Ok, summarize_zero_capital.
Qed.

(** ** The ledger of a run *)

Lemma decision_ledger_step sig d p st st' :
  position_ok st → decision_executed sig d p st st' →
  ledger_step (ledger_of st) (ledger_of st').
Proof.
  intros Hok Hdec. unfold decision_executed in Hdec. unfold ledger_of.
  destruct Hok as [Hflat Hall | tl t Hpos Htl Hall Hopen Hep Heq].
  - rewrite Hflat in Hdec. destruct sig; [|subst; constructor..].
    destruct Hdec as (-> & _ & ->). by constructor.
  - rewrite Hpos in Hdec. destruct sig; [subst; constructor | | subst; constructor].
    destruct Hdec as (tl' & t' & Htl' & -> & _ & ->).
    rewrite Htl in Htl'. apply app_inj_tail in Htl' as [<- <-].
    rewrite Htl. by constructor.
Qed.

Lemma loop_body_ledger_step df k st st' :
  position_ok st → loop_body df k st = Ok st' →
  ledger_step (ledger_of st) (ledger_of st').
Proof.
  intros Hok Hbody.
  destruct (loop_body_lookup df k st st' Hbody) as (row & next & _ & _ & Hexec).
  destruct (exec_price_of df next) as [p|]; [|subst; constructor].
  destruct (execute_decision (_normalize_signal (row_Signal row)) (row_date next) p st Hok)
    as (st2 & Hex & Hdec & _).
  rewrite Hexec in Hex. injection Hex as <-.
  by eapply decision_ledger_step.
Qed.

Lemma force_close_ledger_step df st st' :
  position_ok st → force_close df st = Ok st' →
  ledger_step (ledger_of st) (ledger_of st').
Proof.
  intros Hok Hfc. unfold ledger_of. destruct (in_position st) eqn:Hpos.
  - destruct (in_position_holding st Hok Hpos) as (tl & t & Htl & Hall & Hopen & Hep & Heq).
    unfold force_close, iloc in Hfc. rewrite Hpos in Hfc.
    destruct (df_rows df !! (length (df_rows df) - 1)) as [last_row|]; [|done].
    simpl in Hfc.
    destruct (last_price_of df last_row) as [p|].
    + rewrite Hep, Heq, Htl in Hfc. simpl in Hfc.
      rewrite update_last_snoc in Hfc. injection Hfc as <-. simpl.
      rewrite Htl. by constructor.
    + injection Hfc as <-. constructor.
  - unfold force_close in Hfc. rewrite Hpos in Hfc. injection Hfc as <-. constructor.
Qed.

Lemma state_after_le df cap k m st :
  k ≤ m → state_after df cap m = Ok st → ∃ st0, state_after df cap k = Ok st0.
Proof.
  intros Hkm. revert st. induction Hkm as [|m Hkm IH]; intros st Hst; [eauto|].
  rewrite state_after_S in Hst. apply bind_Ok_inv in Hst as (st1 & Hst1 & _). eauto.
Qed.

Lemma state_after_ledger df cap k m st st' :
  k ≤ m → state_after df cap k = Ok st → state_after df cap m = Ok st' →
  rtc ledger_step (ledger_of st) (ledger_of st').
Proof.
  intros Hkm Hst. revert st'. induction Hkm as [|m Hkm IH]; intros st' Hst'.
  - rewrite Hst in Hst'. by injection Hst' as <-.
  - rewrite state_after_S in Hst'. apply bind_Ok_inv in Hst' as (st1 & Hst1 & Hbody).
    eapply rtc_r; [by apply IH|].
    eapply loop_body_ledger_step; [|done]. by eapply state_after_position.
Qed.

Lemma simulate_ledger df cap k st st' :
  state_after df cap k = Ok st → simulate df cap = Ok st' →
  rtc ledger_step (ledger_of st) (ledger_of st').
Proof.
  intros Hst Hsim. unfold simulate in Hsim.
  apply bind_Ok_inv in Hsim as (st0 & Hrun & Hfc).
  rewrite run_loop_state_after in Hrun.
  eapply rtc_r.
  - eapply state_after_ledger; [|done..]. by eapply state_after_bound.
  - eapply force_close_ledger_step; [|done]. by eapply state_after_position.
Qed.

(** ** What the ledger keeps *)

Lemma value_after_snoc (c : F) l t :
  value_after c (l ++ [t]) = default (value_after c l) (closing_value t).
Proof. unfold value_after. by rewrite fold_left_app. Qed.

Lemma sized_against_snoc (c : F) l t :
  sized_against c (l ++ [t])
  ↔ sized_against c l ∧ Qty t = buy_qty (value_after c l) (Entry_Price t).
Proof.
  revert c. induction l as [|a l IH]; intros c; simpl.
  - tauto.
  - rewrite IH. tauto.
Qed.

Lemma closing_value_open t : is_open t → closing_value t = None.
Proof. intros (_ & Hp & _). unfold closing_value. by rewrite Hp. Qed.

Lemma ledger_ok_init (c : F) : ledger_ok c (c, []).
Proof. repeat split; constructor. Qed.

Lemma ledger_step_ok (c0 : F) x y :
  ledger_ok c0 x → ledger_step x y → ledger_ok c0 y.
Proof.
  intros (Hwf & Hclosed & Hsized & Hval) Hstep.
  destruct Hstep as [c l | c l d p Hall | c tl t d p Hall Hopen]; simpl in *.
  - done.
  - split; [|split; [|split]]; simpl.
    + apply Forall_app. split; [done|]. constructor; [|done]. by left.
    + by rewrite removelast_last.
    + apply sized_against_snoc. split; [done|]. by rewrite <- Hval.
    + by rewrite value_after_snoc.
  - apply Forall_app in Hwf as [Hwf _].
    apply sized_against_snoc in Hsized as [Hsized Hqty].
    split; [|split; [|split]]; simpl.
    + apply Forall_app. split; [done|]. constructor; [|done].
      right. by exists d, p.
    + by rewrite removelast_last.
    + apply sized_against_snoc. by split.
    + by rewrite value_after_snoc.
Qed.

Lemma rtc_ledger_ok (c0 : F) x y :
  ledger_ok c0 x → rtc ledger_step x y → ledger_ok c0 y.
Proof. intros Hx Hxy. induction Hxy; [done|]. eauto using ledger_step_ok. Qed.

Lemma simulate_ledger_ok df (initial_capital : F) st :
  simulate df initial_capital = Ok st →
  ledger_ok initial_capital (ledger_of st).
Proof.
  intros Hsim. eapply rtc_ledger_ok; [apply ledger_ok_init|].
  by apply (simulate_ledger df initial_capital 0 (init_state initial_capital) st).
Qed.

(** The list that [summarize] returns, from a reachable ledger. *)
Lemma completed_of_ledger (c0 : F) c l :
  ledger_ok c0 (c, l) →
  Forall exit_fields_together (List.filter is_closed l)
  ∧ all_closed (List.filter is_closed l)
  ∧ sized_against c0 (List.filter is_closed l)
  ∧ c = value_after c0 (List.filter is_closed l).
Proof.
  intros (Hwf & Hclosed & Hsized & Hval). simpl in *.
  split; [|split; [apply filter_all_closed|]].
  { apply Forall_forall. intros t Ht.
    apply list_elem_of_In, List.filter_In in Ht as [Ht _].
    rewrite Forall_forall in Hwf. by apply Hwf, list_elem_of_In. }
  destruct (filter_closed_cases l Hclosed) as [-> | Hdrop]; [done|].
  rewrite Hdrop.
  destruct (decide (l = [])) as [-> | Hne]; [done|].
  destruct (exists_last Hne) as (tl & t & ->).
  rewrite removelast_last in *.
  rewrite List.filter_app, (filter_all_closed_id tl Hclosed) in Hdrop.
  simpl in Hdrop. destruct (is_closed t) eqn:Ht.
  { apply (f_equal length) in Hdrop. rewrite length_app in Hdrop. simpl in Hdrop. lia. }
  apply Forall_app in Hwf as [_ Hwf_t]. apply Forall_inv in Hwf_t.
  assert (closing_value t = None) as Hnone.
  { destruct Hwf_t as [Hopen | (d & p & Hd & _)]; [by apply closing_value_open|].
    unfold is_closed in Ht. by rewrite Hd in Ht. }
  apply sized_against_snoc in Hsized as [Hsized _].
  split; [done|]. by rewrite value_after_snoc, Hnone in Hval.
Qed.

Lemma closing_value_fill t : closing_value (fill_PnL t) = closing_value t.
Proof. reflexivity. Qed.

Lemma value_after_fill (c : F) l : value_after c (map fill_PnL l) = value_after c l.
Proof.
  revert c. induction l as [|t l IH]; intros c; [done|].
  unfold value_after in *. simpl. by rewrite IH.
Qed.

Lemma sized_against_fill (c : F) l :
  sized_against c l → sized_against c (map fill_PnL l).
Proof.
  revert c. induction l as [|t l IH]; intros c; [done|].
  simpl. intros [Hq Hl]. split; [done|]. by apply IH.
Qed.

(** What [backtest] returns, in terms of the ledger: the completed trades of
    a reachable ledger, with their P&L filled. *)
Lemma backtest_ledger df (initial_capital : F) tl s :
  backtest df initial_capital = Ok (tl, s) →
  ∃ l, tl = map fill_PnL l
    ∧ Forall exit_fields_together l ∧ all_closed l
    ∧ sized_against initial_capital l
    ∧ Final_Capital s = value_after initial_capital l.
Proof.
  intros Hbt.
  destruct (backtest_inv df initial_capital tl s Hbt)
    as [(-> & -> & _) | (_ & _ & st0 & st & Hrun & Hfc & Hsum)].
  { exists []. repeat split; constructor. }
  assert (simulate (_ensure_datetime_index df) initial_capital = Ok st) as Hsim.
  { unfold simulate. by rewrite Hrun, bind_Ok. }
  pose proof (simulate_ledger_ok _ _ _ Hsim) as Hok.
  apply completed_of_ledger in Hok as (Hwf & Hall & Hsized & Hval).
  apply summarize_completed in Hsum as (Htl & Hfinal & _).
  exists (List.filter is_closed (trades st)).
  split; [done|]. split; [done|]. split; [done|]. split; [done|]. congruence.
Qed.

Lemma value_after_last (c : F) l :
  Forall (λ t, is_Some (closing_value t)) l →
  value_after c l = default c (last l ≫= closing_value).
Proof.
  intros Hall. destruct (decide (l = [])) as [-> | Hne]; [done|].
  destruct (exists_last Hne) as (tl & t & ->).
  apply Forall_app in Hall as [_ Ht]. apply Forall_inv in Ht as [v Hv].
  rewrite value_after_snoc, last_snoc. simpl. by rewrite Hv.
Qed.

Lemma closed_has_value t :
  exit_fields_together t → is_closed t = true →
  ∃ d p, Exit_Date t = Some d ∧ Exit_Price t = Some p
         ∧ PnL t = Some (pnl_at p t)
         ∧ closing_value t = Some (fmul (Qty t) p).
Proof.
  intros [(Hd & _) | (d & p & Hd & Hp & Hpnl)] Hclosed.
  - unfold is_closed in Hclosed. by rewrite Hd in Hclosed.
  - exists d, p. unfold closing_value. by rewrite Hp.
Qed.

(** X6: the final capital of a summary is the quantity times the exit price
    of the last trade returned, and the initial capital when no trade is
    returned. *)
Theorem final_capital_of_last_trade df (initial_capital : F) tl s :
  backtest df initial_capital = Ok (tl, s) →
  match last tl with
  | Some t => ∃ p, Exit_Price t = Some p ∧ Final_Capital s = fmul (Qty t) p
  | None => Final_Capital s = initial_capital
  end.
Proof.
  intros Hbt.
  destruct (backtest_ledger df initial_capital tl s Hbt)
    as (l & -> & Hwf & Hall & _ & ->).
  rewrite value_after_last.
  - rewrite fmap_last. destruct (last l) as [t|] eqn:Hlast; [|done]. simpl.
    apply last_Some_elem_of in Hlast.
    rewrite Forall_forall in Hwf. unfold all_closed in Hall. rewrite Forall_forall in Hall.
    destruct (closed_has_value t (Hwf t Hlast) (Hall t Hlast))
      as (d & p & _ & Hp & _ & Hv).
    exists p. split; [done|]. by rewrite Hv.
  - apply Forall_forall. intros t Ht.
    rewrite Forall_forall in Hwf. unfold all_closed in Hall. rewrite Forall_forall in Hall.
    destruct (closed_has_value t (Hwf t Ht) (Hall t Ht)) as (d & p & _ & _ & _ & Hv).
    by eexists.
Qed.

Lemma sized_against_lookup (c : F) l i t :
  sized_against c l → l !! i = Some t →
  Qty t = buy_qty (value_after c (take i l)) (Entry_Price t).
Proof.
  revert c i. induction l as [|a l IH]; intros c i Hsized Hi; [done|].
  destruct Hsized as [Hq Hl]. destruct i as [|i]; simpl in *.
  - by injection Hi as <-.
  - by apply IH.
Qed.

(** X7: the trades compound: the quantity of each returned trade is the
    capital left by the trades before it (the initial capital for the first)
    divided by its entry price, and 0 when that price is not positive. *)
Theorem quantities_compound df (initial_capital : F) tl s i t :
  backtest df initial_capital = Ok (tl, s) → tl !! i = Some t →
  Qty t = (if fgt0 (Entry_Price t)
           then fdiv (value_after initial_capital (take i tl)) (Entry_Price t)
           else fzero).
Proof.
  intros Hbt Hi.
  destruct (backtest_ledger df initial_capital tl s Hbt)
    as (l & -> & _ & _ & Hsized & _).
  apply sized_against_fill in Hsized.
  by apply (sized_against_lookup _ _ _ _ Hsized Hi).
Qed.

(** ** Completed trades *)

Lemma decision_entry_le_exit sig d0 d p st st' :
  position_ok st → decision_executed sig d p st st' →
  dates_upto d0 (trades st) → (d0 ≤ d)%Z →
  Forall entry_le_exit (trades st) → Forall entry_le_exit (trades st').
Proof.
  intros Hok Hdec Hdates Hd Hall. unfold decision_executed in Hdec.
  destruct Hok as [Hflat _ | tl t Hpos Htl _ _ _ _].
  - rewrite Hflat in Hdec. destruct sig; [|by subst..].
    destruct Hdec as (-> & _). apply Forall_app. split; [done|].
    constructor; [|done]. by intros e.
  - rewrite Hpos in Hdec. destruct sig; [by subst | | by subst].
    destruct Hdec as (tl' & t' & Htl' & -> & _).
    rewrite Htl in Htl'. apply app_inj_tail in Htl' as [<- <-].
    rewrite Htl in Hall, Hdates.
    apply Forall_app in Hall as [Hall _].
    apply Forall_app in Hdates as [_ Ht]. apply Forall_inv in Ht as [Hentry _].
    apply Forall_app. split; [done|]. constructor; [|done].
    intros e [= <-]. simpl. lia.
Qed.

Lemma state_after_entry_le_exit df cap k st :
  StronglySorted (@date_le F) (df_rows df) →
  state_after df cap k = Ok st → Forall entry_le_exit (trades st).
Proof.
  intros Hsorted. revert st. induction k as [|k IH]; intros st Hst.
  - injection Hst as <-. constructor.
  - rewrite state_after_S in Hst.
    apply bind_Ok_inv in Hst as (st0 & Hst0 & Hbody).
    specialize (IH st0 Hst0).
    destruct (state_after_ordered df cap k st0 Hsorted Hst0) as (Hok & _ & Hdates).
    destruct (loop_body_lookup df k st0 st Hbody) as (row & next & Hrow & Hnext & Hexec).
    pose proof (sorted_adjacent (df_rows df) k row next Hsorted Hrow Hnext) as Hle.
    destruct (exec_price_of df next) as [p|]; [|by subst].
    destruct (execute_decision (_normalize_signal (row_Signal row)) (row_date next) p st0 Hok)
      as (st2 & Hex & Hdec & _).
    rewrite Hexec in Hex. injection Hex as <-.
    eapply decision_entry_le_exit; [done.. | by apply Hdates | done | done].
Qed.

Lemma simulate_entry_le_exit df cap st :
  StronglySorted (@date_le F) (df_rows df) →
  simulate df cap = Ok st → Forall entry_le_exit (trades st).
Proof.
  intros Hsorted Hsim. unfold simulate in Hsim.
  apply bind_Ok_inv in Hsim as (st0 & Hrun & Hfc).
  rewrite run_loop_state_after in Hrun.
  pose proof (state_after_entry_le_exit df cap _ st0 Hsorted Hrun) as Hall.
  destruct (state_after_ordered df cap _ st0 Hsorted Hrun) as (Hok & _ & Hdates).
  destruct (in_position st0) eqn:Hpos.
  - destruct (in_position_holding st0 Hok Hpos) as (tl & t & Htl & _ & _ & Hep & Heq).
    unfold force_close, iloc in Hfc. rewrite Hpos in Hfc.
    destruct (df_rows df !! (length (df_rows df) - 1)) as [last_row|] eqn:Hlast; [|done].
    simpl in Hfc. specialize (Hdates last_row eq_refl).
    destruct (last_price_of df last_row) as [p|].
    + rewrite Hep, Heq, Htl in Hfc. simpl in Hfc.
      rewrite update_last_snoc in Hfc. injection Hfc as <-. simpl.
      rewrite Htl in Hall, Hdates.
      apply Forall_app in Hall as [Hall _].
      apply Forall_app in Hdates as [_ Ht]. apply Forall_inv in Ht as [Hentry _].
      apply Forall_app. split; [done|]. constructor; [|done].
      by intros e [= <-].
    + by injection Hfc as <-.
  - unfold force_close in Hfc. rewrite Hpos in Hfc. by injection Hfc as <-.
Qed.

(** X8: every trade that [backtest] returns is complete: it has an exit date
    that is not before its entry date, an exit price, and as P&L the exit
    price minus the entry price, times the quantity (0 when that product is
    NaN). *)
Theorem returned_trades_complete df (initial_capital : F) tl s t :
  backtest df initial_capital = Ok (tl, s) → t ∈ tl →
  ∃ d p, Exit_Date t = Some d ∧ (Entry_Date t ≤ d)%Z
    ∧ Exit_Price t = Some p
    ∧ PnL t = Some (if fisnan (fmul (fsub p (Entry_Price t)) (Qty t)) then fzero
                    else fmul (fsub p (Entry_Price t)) (Qty t)).
Proof.
  intros Hbt Ht.
  destruct (backtest_inv df initial_capital tl s Hbt)
    as [(-> & _) | (_ & _ & st0 & st & Hrun & Hfc & Hsum)].
  { by apply elem_of_nil in Ht. }
  assert (simulate (_ensure_datetime_index df) initial_capital = Ok st) as Hsim.
  { unfold simulate. by rewrite Hrun, bind_Ok. }
  pose proof (simulate_ledger_ok _ _ _ Hsim) as (Hwf & _).
  pose proof (simulate_entry_le_exit (_ensure_datetime_index df) _ _
                (sort_index_sorted (df_rows df)) Hsim) as Hdates.
  apply summarize_completed in Hsum as (-> & _).
  apply list_elem_of_fmap in Ht as (t0 & -> & Ht0).
  apply list_elem_of_In, List.filter_In in Ht0 as [Ht0 Hclosed].
  apply list_elem_of_In in Ht0.
  simpl in Hwf. rewrite Forall_forall in Hwf, Hdates.
  destruct (closed_has_value t0 (Hwf t0 Ht0) Hclosed) as (d & p & Hd & Hp & Hpnl & _).
  exists d, p. split; [done|]. split; [by apply (Hdates t0 Ht0)|]. split; [done|].
  unfold fill_PnL. simpl. rewrite Hpnl. simpl. unfold pnl_at.
  by destruct (fisnan _).
Qed.

(** ** Where trades come from *)

Lemma placed_mono df k t : placed df k t → placed df (S k) t.
Proof.
  intros (i & Hi & Hin & [Hopen | (j & Hj & Hout)]).
  - exists i. split; [lia|]. split; [done|]. by left.
  - exists i. split; [lia|]. split; [done|]. right. exists j. split; [lia|done].
Qed.

Lemma state_after_placed df cap k st :
  state_after df cap k = Ok st → Forall (placed df k) (trades st).
Proof.
  revert st. induction k as [|k IH]; intros st Hst.
  - injection Hst as <-. constructor.
  - rewrite state_after_S in Hst.
    apply bind_Ok_inv in Hst as (st0 & Hst0 & Hbody).
    specialize (IH st0 Hst0).
    assert (Forall (placed df (S k)) (trades st0)) as IH'.
    { eapply Forall_impl; [exact IH|]. intros t. apply placed_mono. }
    pose proof (state_after_position df cap k st0 Hst0) as Hok.
    destruct (loop_body_lookup df k st0 st Hbody) as (row & next & Hrow & Hnext & Hexec).
    destruct (exec_price_of df next) as [p|] eqn:Hprice; [|by subst].
    destruct (execute_decision (_normalize_signal (row_Signal row)) (row_date next) p st0 Hok)
      as (st2 & Hex & Hdec & _).
    rewrite Hexec in Hex. injection Hex as <-.
    unfold decision_executed in Hdec.
    destruct (_normalize_signal (row_Signal row)) eqn:Hsig, (in_position st0) eqn:Hpos;
      try by subst.
    + destruct Hdec as (-> & _). apply Forall_app. split; [done|].
      constructor; [|done]. exists k. split; [lia|]. split.
      * exists row, next. do 4 (split; [done|]). by apply exec_price_of_spec.
      * by left.
    + destruct Hdec as (tl & t & Htl & -> & _). rewrite Htl in IH, IH'.
      apply Forall_app in IH' as [IHtl _].
      apply Forall_app in IH as [_ IHt]. apply Forall_inv in IHt as (i & Hi & Hin & _).
      apply Forall_app. split; [done|]. constructor; [|done].
      exists i. split; [lia|]. split; [exact Hin|].
      right. exists k. split; [lia|]. exists row, next, p.
      do 5 (split; [done|]). by apply exec_price_of_spec.
Qed.

(** X9: every trade that [backtest] returns was entered on a BUY signal, at
    the date of the row after the signal and at that row's Open (when the
    column exists and the cell is not NaN), else its Close; and it was closed
    either on a later SELL signal, at the date of the row after that signal
    and at that row's Open, else its Close, or by the forced close, at the
    date of the last row and at its Close, else its Open. *)
Theorem trades_execute_on_next_row df (initial_capital : F) tl s t :
  backtest df initial_capital = Ok (tl, s) → t ∈ tl →
  ∃ i, entered_at (_ensure_datetime_index df) i t
    ∧ ((∃ j, i < j ∧ sold_at (_ensure_datetime_index df) j t)
       ∨ force_closed (_ensure_datetime_index df) t).
Proof.
  intros Hbt Ht.
  destruct (backtest_inv df initial_capital tl s Hbt)
    as [(-> & _) | (_ & _ & st0 & st & Hrun & Hfc & Hsum)].
  { by apply elem_of_nil in Ht. }
  apply summarize_completed in Hsum as (-> & _).
  apply list_elem_of_fmap in Ht as (t0 & -> & Ht0).
  apply list_elem_of_In, List.filter_In in Ht0 as [Ht0 Hclosed].
  apply list_elem_of_In in Ht0.
  rewrite run_loop_state_after in Hrun.
  pose proof (state_after_placed _ _ _ _ Hrun) as Hplaced.
  pose proof (state_after_position _ _ _ _ Hrun) as Hok.
  set (sdf := _ensure_datetime_index df) in *.
  assert (∀ t1, t1 ∈ trades st0 → is_closed t1 = true →
                ∃ i, entered_at sdf i t1 ∧ ∃ j, i < j ∧ sold_at sdf j t1) as Hsold.
  { intros t1 Ht1 Hc1. rewrite Forall_forall in Hplaced.
    destruct (Hplaced t1 Ht1) as (i & _ & Hin & [Hopen | (j & Hj & Hout)]).
    - apply is_open_not_closed in Hopen. congruence.
    - exists i. split; [done|]. exists j. split; [lia|done]. }
  destruct (in_position st0) eqn:Hpos.
  - destruct (in_position_holding st0 Hok Hpos) as (tl & t1 & Htl & _ & Hopen & Hep & Heq).
    unfold force_close, iloc in Hfc. rewrite Hpos in Hfc.
    destruct (df_rows sdf !! (length (df_rows sdf) - 1)) as [last_row|] eqn:Hlast; [|done].
    simpl in Hfc.
    destruct (last_price_of sdf last_row) as [p|] eqn:Hprice.
    + rewrite Hep, Heq, Htl in Hfc. simpl in Hfc.
      rewrite update_last_snoc in Hfc. injection Hfc as <-. simpl in Ht0.
      apply elem_of_app in Ht0 as [Ht0 | Ht0].
      * destruct (Hsold t0) as (i & Hin & j & Hj & Hout); [rewrite Htl; set_solver | done |].
        exists i. split; [done|]. left. by exists j.
      * apply list_elem_of_singleton in Ht0 as ->.
        rewrite Forall_forall in Hplaced.
        destruct (Hplaced t1) as (i & _ & Hin & _); [rewrite Htl; set_solver|].
        exists i. split; [exact Hin|]. right.
        exists last_row, p. split; [|split; [done|]; split; [done|]].
        { rewrite last_lookup.
          by replace (pred (length (df_rows sdf))) with (length (df_rows sdf) - 1) by lia. }
        by apply last_price_of_spec.
    + injection Hfc as <-. simpl in Ht0.
      destruct (Hsold t0 Ht0 Hclosed) as (i & Hin & j & Hj & Hout).
      exists i. split; [done|]. left. by exists j.
  - unfold force_close in Hfc. rewrite Hpos in Hfc. injection Hfc as <-.
    destruct (Hsold t0 Ht0 Hclosed) as (i & Hin & j & Hj & Hout).
    exists i. split; [done|]. left. by exists j.
Qed.

(** ** Completed trades stay *)

Lemma ledger_step_prefix (x y : F * list (Trade F)) :
  ledger_step x y →
  List.filter is_closed x.2 `prefix_of` List.filter is_closed y.2.
Proof.
  intros [c l | c l d p Hall | c tl t d p Hall Hopen]; simpl.
  - done.
  - by rewrite filter_closed_snoc_open.
  - rewrite filter_closed_snoc_open by by apply is_open_not_closed.
    rewrite List.filter_app. by apply prefix_app_r.
Qed.

Lemma rtc_ledger_prefix (x y : F * list (Trade F)) :
  rtc ledger_step x y →
  List.filter is_closed x.2 `prefix_of` List.filter is_closed y.2.
Proof.
  induction 1 as [|x y z Hxy _ IH]; [done|].
  etrans; [by apply ledger_step_prefix | done].
Qed.

(** X10: a completed trade is never changed or removed afterwards: the
    completed trades after any number of iterations are the first completed
    trades of the end of the run, in the same order. *)
Theorem completed_trades_are_kept df (initial_capital : F) k st st' :
  state_after df initial_capital k = Ok st →
  simulate df initial_capital = Ok st' →
  List.filter is_closed (trades st) `prefix_of` List.filter is_closed (trades st').
Proof.
  intros Hst Hsim.
  apply (rtc_ledger_prefix (ledger_of st) (ledger_of st')).
  by eapply simulate_ledger.
Qed.

(** ** The orchestrator, ticker by ticker *)

Lemma backtest_ticker_entry mm (initial_capital : F) months ticker df acc :
  backtest_ticker mm initial_capital months ticker df acc
  = match ticker_entry mm df initial_capital months with
    | Some res => (<[ticker := res.1]> acc.1, <[ticker := res.2]> acc.2)
    | None => acc
    end.
Proof.
  unfold backtest_ticker, ticker_entry.
  by destruct (try_ticker mm df initial_capital months) as [[[tr su]|]|e].
Qed.

Lemma backtest_all_lookup mm (data_dict : gmap string (DataFrame F))
    (initial_capital : F) months ticker :
  (backtest_all mm data_dict initial_capital months).1 !! ticker
  = fst <$> (data_dict !! ticker ≫= λ df, ticker_entry mm df initial_capital months)
  ∧ (backtest_all mm data_dict initial_capital months).2 !! ticker
    = snd <$> (data_dict !! ticker ≫= λ df, ticker_entry mm df initial_capital months).
Proof.
  unfold backtest_all.
  apply (map_fold_weak_ind
           (λ r m,
              r.1 !! ticker
              = fst <$> (m !! ticker ≫= λ df, ticker_entry mm df initial_capital months)
              ∧ r.2 !! ticker
                = snd <$> (m !! ticker ≫= λ df, ticker_entry mm df initial_capital months))).
  - by rewrite !lookup_empty.
  - intros i df m r Hfresh [IH1 IH2]. rewrite backtest_ticker_entry.
    destruct (decide (i = ticker)) as [-> | Hne].
    + rewrite lookup_insert_eq. rewrite Hfresh in IH1, IH2. simpl in *.
      destruct (ticker_entry mm df initial_capital months) as [res|]; simpl.
      * by rewrite !lookup_insert_eq.
      * done.
    + rewrite lookup_insert_ne by done.
      destruct (ticker_entry mm df initial_capital months) as [res|]; simpl;
        by rewrite ?lookup_insert_ne.
Qed.

(** X11: the entry of a ticker does not depend on the other tickers: it is
    the entry that [backtest_all] writes when given that ticker alone. *)
Theorem backtest_all_per_ticker mm (data_dict : gmap string (DataFrame F))
    (initial_capital : F) months ticker df :
  data_dict !! ticker = Some df →
  (backtest_all mm data_dict initial_capital months).1 !! ticker
  = (backtest_all mm {[ticker := df]} initial_capital months).1 !! ticker
  ∧ (backtest_all mm data_dict initial_capital months).2 !! ticker
    = (backtest_all mm {[ticker := df]} initial_capital months).2 !! ticker.
Proof.
  intros Hticker.
  destruct (backtest_all_lookup mm data_dict initial_capital months ticker) as [-> ->].
  destruct (backtest_all_lookup mm {[ticker := df]} initial_capital months ticker) as [-> ->].
  by rewrite Hticker, lookup_singleton_eq.
Qed.

(** X12: the two mappings always have the same tickers, all of them tickers
    of the input, and among those exactly the ones whose table has a row. *)
Theorem backtest_all_key_sets mm (data_dict : gmap string (DataFrame F))
    (initial_capital : F) months :
  dom (backtest_all mm data_dict initial_capital months).1
  = dom (backtest_all mm data_dict initial_capital months).2
  ∧ dom (backtest_all mm data_dict initial_capital months).1 ⊆ dom data_dict
  ∧ ∀ ticker,
      ticker ∈ dom (backtest_all mm data_dict initial_capital months).1
      ↔ ∃ df, data_dict !! ticker = Some df ∧ df_rows df ≠ [].
Proof.
  destruct (backtest_all_keys mm data_dict initial_capital months) as [Hk1 Hk2].
  split; [by rewrite Hk1, Hk2|]. split.
  - rewrite Hk1. apply subseteq_dom, map_filter_subseteq.
  - intros ticker. rewrite Hk1, elem_of_dom. split.
    + intros [df Hdf]. apply map_lookup_filter_Some in Hdf as [Hdf Hlen].
      exists df. split; [done|]. simpl in Hlen. by destruct (df_rows df).
    + intros (df & Hdf & Hrows). exists df.
      apply map_lookup_filter_Some. split; [done|]. simpl. by destruct (df_rows df).
Qed.

Lemma sort_index_sorted_id (rows : list (Row F)) :
  StronglySorted (@date_le F) rows → sort_index rows = rows.
Proof.
  induction 1 as [|a rows Hs IH Ha]; simpl; [done|].
  rewrite IH. destruct rows as [|b rows]; simpl; [done|].
  apply Forall_inv in Ha. unfold date_le in Ha.
  apply Z.leb_le in Ha. by rewrite Ha.
Qed.

Lemma foldr_max_bounds (d : Z) (ds : list Z) :
  (foldr Z.max d ds ∈ d :: ds) ∧ Forall (λ x, (x ≤ foldr Z.max d ds)%Z) (d :: ds).
Proof.
  induction ds as [|a ds [IHin IHle]]; simpl.
  - split; [left|]. constructor; [lia|constructor].
  - apply Forall_cons in IHle as [Hd Hds]. split.
    + destruct (Z.max_spec a (foldr Z.max d ds)) as [[_ ->] | [_ ->]].
      * apply elem_of_cons in IHin as [-> | Hin]; [left | right; by right].
      * right. left.
    + constructor; [lia|]. constructor; [lia|].
      eapply Forall_impl; [exact Hds|]. simpl. lia.
Qed.

Lemma filter_all_true {A} (f : A → bool) (xs : list A) :
  Forall (λ x, f x = true) xs → List.filter f xs = xs.
Proof. induction 1 as [|x xs Hx _ IH]; simpl; [done|]. by rewrite Hx, IH. Qed.

Lemma try_ticker_whole_table mm df (initial_capital : F) months :
  df_rows df ≠ [] →
  (∀ r r', r ∈ df_rows df → r' ∈ df_rows df →
           (mm (row_date r) months ≤ row_date r')%Z) →
  try_ticker mm df initial_capital months
  = (backtest df initial_capital ≫= λ res, Ok (Some res)).
Proof.
  intros Hrows Hwindow. unfold try_ticker.
  destruct (df_rows (_ensure_datetime_index df)) as [|r rs] eqn:Hsorted.
  { apply (f_equal length) in Hsorted. simpl in Hsorted.
    rewrite length_sort_index in Hsorted. by destruct (df_rows df). }
  cbv zeta.
  set (last_date := foldr Z.max (row_date r) (map row_date rs)).
  assert (loc_slice (_ensure_datetime_index df) (mm last_date months) last_date
          = _ensure_datetime_index df) as ->.
  { unfold loc_slice, _ensure_datetime_index. simpl. f_equal.
    simpl in Hsorted. rewrite Hsorted.
    apply filter_all_true.
    destruct (foldr_max_bounds (row_date r) (map row_date rs)) as [Hin Hle].
    fold last_date in Hin, Hle.
    change (row_date r :: map row_date rs) with (map row_date (r :: rs)) in Hin, Hle.
    apply list_elem_of_fmap in Hin as (rmax & Hmax & Hrmax).
    assert (∀ x, x ∈ r :: rs → x ∈ df_rows df) as Hmem.
    { intros x Hx. rewrite <- Hsorted in Hx. by rewrite sort_index_perm in Hx. }
    apply Forall_forall. intros x Hx.
    apply andb_true_iff. split; apply Z.leb_le.
    - rewrite Hmax. apply Hwindow; by apply Hmem.
    - rewrite Forall_forall in Hle. apply Hle. by apply list_elem_of_fmap_2. }
  assert ((length (df_rows (_ensure_datetime_index df)) =? 0) = false) as ->.
  { by rewrite Hsorted. }
  assert (backtest (_ensure_datetime_index df) initial_capital
          = backtest df initial_capital) as Hidem.
  { unfold backtest.
    assert (_ensure_datetime_index (_ensure_datetime_index df)
            = _ensure_datetime_index df) as ->; [|done].
    unfold _ensure_datetime_index. simpl. f_equal.
    apply sort_index_sorted_id, sort_index_sorted. }
  simpl. destruct (has_Signal df) eqn:Hsig; simpl.
  - by rewrite Hidem.
  - unfold backtest. simpl. by rewrite Hsig, orb_true_r.
Qed.

(** X13: for a ticker whose table has a row and lies within the window (the
    window start computed from any of its dates is not after any of its
    dates), [backtest_all] writes exactly what [backtest] returns on the
    table, and the empty list with the zero summary where [backtest]
    raises. *)
Theorem backtest_all_runs_backtest mm (data_dict : gmap string (DataFrame F))
    (initial_capital : F) months ticker df :
  data_dict !! ticker = Some df →
  df_rows df ≠ [] →
  (∀ r r', r ∈ df_rows df → r' ∈ df_rows df →
           (mm (row_date r) months ≤ row_date r')%Z) →
  ((backtest_all mm data_dict initial_capital months).1 !! ticker,
   (backtest_all mm data_dict initial_capital months).2 !! ticker)
  = match backtest df initial_capital with
    | Ok (tl, s) => (Some tl, Some s)
    | Raise _ => (Some [], Some (zero_summary initial_capital))
    end.
Proof.
  intros Hticker Hrows Hwindow.
  destruct (backtest_all_lookup mm data_dict initial_capital months ticker) as [-> ->].
  rewrite Hticker. simpl. unfold ticker_entry.
  rewrite try_ticker_whole_table by done.
  by destruct (backtest df initial_capital) as [[tl s]|e].
Qed.

(** ** An initial capital of zero *)

Lemma backtest_zero_capital df (initial_capital : F) tl s :
  feq0 initial_capital = true →
  backtest df initial_capital = Ok (tl, s) →
  tl = [] ∧ s = zero_summary initial_capital.
Proof.
  intros Hcap Hbt.
  destruct (backtest_inv df initial_capital tl s Hbt)
    as [(-> & -> & _) | (_ & _ & st0 & st & _ & _ & Hsum)]; [done|].
  by rewrite summarize_zero_capital in Hsum.
Qed.

Lemma ticker_entry_zero_capital mm df (initial_capital : F) months res :
  feq0 initial_capital = true →
  ticker_entry mm df initial_capital months = Some res →
  res = ([], zero_summary initial_capital).
Proof.
  intros Hcap. unfold ticker_entry, try_ticker.
  destruct (df_rows (_ensure_datetime_index df)) as [|r rs]; [done|]. cbv zeta.
  destruct ((length (df_rows _) =? 0) || negb (has_Signal _)); simpl;
    [by intros [= <-]|].
  destruct (backtest _ initial_capital) as [[tl s]|e] eqn:Hbt; simpl.
  - intros [= <-]. by destruct (backtest_zero_capital _ _ _ _ Hcap Hbt) as [-> ->].
  - by intros [= <-].
Qed.

(** X14: with an initial capital of zero the orchestrator reports no trade
    at all: every entry it writes is the empty trade list and the zero
    summary, whatever the table holds. *)
Theorem backtest_all_zero_capital mm (data_dict : gmap string (DataFrame F))
    (initial_capital : F) months ticker :
  feq0 initial_capital = true →
  (∀ tl, (backtest_all mm data_dict initial_capital months).1 !! ticker = Some tl →
         tl = [])
  ∧ (∀ s, (backtest_all mm data_dict initial_capital months).2 !! ticker = Some s →
          s = zero_summary initial_capital).
Proof.
  intros Hcap.
  destruct (backtest_all_lookup mm data_dict initial_capital months ticker) as [-> ->].
  destruct (data_dict !! ticker) as [df|]; simpl; [|done].
  destruct (ticker_entry mm df initial_capital months) as [res|] eqn:Hres; simpl; [|done].
  apply ticker_entry_zero_capital in Hres as ->; [|done].
  split; by intros ? [= <-].
Qed.

End MoreProperties.

(** ** Case and padding of a signal string *)

Lemma is_space_upper c : is_space (upper_ascii c) = is_space c.
Proof. by destruct c as [[] [] [] [] [] [] [] []]. Qed.

Lemma upper_ascii_idem c : upper_ascii (upper_ascii c) = upper_ascii c.
Proof. by destruct c as [[] [] [] [] [] [] [] []]. Qed.

Lemma upper_idem s : upper (upper s) = upper s.
Proof. induction s as [|c s IH]; simpl; [done|]. by rewrite upper_ascii_idem, IH. Qed.

Lemma lstrip_upper s : lstrip (upper s) = upper (lstrip s).
Proof.
  induction s as [|c s IH]; simpl; [done|].
  rewrite is_space_upper. by destruct (is_space c).
Qed.

Lemma rstrip_upper s : rstrip (upper s) = upper (rstrip s).
Proof.
  induction s as [|c s IH]; simpl; [done|].
  rewrite IH, is_space_upper. destruct (rstrip s); simpl; [|done].
  by destruct (is_space c).
Qed.

Lemma strip_upper s : strip (upper s) = upper (strip s).
Proof. unfold strip. by rewrite lstrip_upper, rstrip_upper. Qed.

Lemma rstrip_all_space r : all_space r = true → rstrip r = EmptyString.
Proof.
  induction r as [|c r IH]; simpl; [done|].
  intros [Hc Hr]%andb_true_iff. by rewrite IH, Hc.
Qed.

Lemma rstrip_app_space s r :
  all_space r = true → rstrip (s +:+ r) = rstrip s.
Proof.
  intros Hr. induction s as [|c s IH]; simpl.
  - by apply rstrip_all_space.
  - by rewrite IH.
Qed.

Lemma lstrip_all_space l : all_space l = true → lstrip l = EmptyString.
Proof.
  induction l as [|c l IH]; simpl; [done|].
  intros [Hc Hl]%andb_true_iff. by rewrite Hc, IH.
Qed.

Lemma strip_app_space_r s r :
  all_space r = true → strip (s +:+ r) = strip s.
Proof.
  intros Hr. unfold strip. induction s as [|c s IH].
  - simpl. by rewrite lstrip_all_space.
  - change (lstrip (String c s +:+ r))
      with (if is_space c then lstrip (s +:+ r) else String c s +:+ r).
    change (lstrip (String c s)) with (if is_space c then lstrip s else String c s).
    destruct (is_space c); [done|].
    apply (rstrip_app_space (String c s) r Hr).
Qed.

Lemma strip_app_space_l l s :
  all_space l = true → strip (l +:+ s) = strip s.
Proof.
  unfold strip. induction l as [|c l IH]; simpl; [done|].
  intros [Hc Hl]%andb_true_iff. rewrite Hc. by apply IH.
Qed.

(** X15: the normalization of a string looks at neither its case nor the
    whitespace around it: two strings with the same upper-case form, and a
    string with or without whitespace before and after it, normalize to the
    same signal. *)
Theorem normalize_signal_case_and_padding {F : Type} `{Arith F} :
  (∀ s1 s2, upper s1 = upper s2 →
            _normalize_signal (VStr s1 : pyval F) = _normalize_signal (VStr s2))
  ∧ (∀ l s r, all_space l = true → all_space r = true →
              _normalize_signal (VStr (l +:+ s +:+ r) : pyval F)
              = _normalize_signal (VStr s)).
Proof.
  split.
  - intros s1 s2 Hupper. unfold _normalize_signal, isna_val. cbn iota zeta.
    by rewrite <- !strip_upper, Hupper.
  - intros l s r Hl Hr. unfold _normalize_signal, isna_val. cbn iota zeta.
    by rewrite strip_app_space_l, strip_app_space_r.
Qed.

(** * [strategy.py] *)

Lemma Qlt_bool_iff (x y : Q) : Qlt_bool x y = true ↔ (x < y)%Q.
Proof.
  unfold Qlt_bool. rewrite negb_true_iff, <- not_true_iff_false, Qle_bool_iff.
  split; [apply Qnot_le_lt | apply Qlt_not_le].
Qed.

Lemma buy_cond_rule r : buy_cond r = true ↔ buy_rule r.
Proof.
  unfold buy_cond, buy_rule, cell_lt, cells_lt. rewrite andb_true_iff. split.
  - destruct (RSI r) as [x|]; [|intros [? _]; done].
    destruct (SMA50 r) as [b|]; [|intros [_ ?]; done].
    destruct (SMA20 r) as [a|]; [|intros [_ ?]; done].
    rewrite !Qlt_bool_iff. intros [Hx Hab]. by exists x, a, b.
  - intros (x & a & b & -> & -> & -> & Hx & Hab). by rewrite !Qlt_bool_iff.
Qed.

Lemma sell_cond_rule r : sell_cond r = true ↔ sell_rule r.
Proof.
  unfold sell_cond, sell_rule, cell_gt, cells_lt. rewrite andb_true_iff. split.
  - destruct (RSI r) as [x|]; [|intros [? _]; done].
    destruct (SMA20 r) as [a|]; [|intros [_ ?]; done].
    destruct (SMA50 r) as [b|]; [|intros [_ ?]; done].
    rewrite !Qlt_bool_iff. intros [Hx Hab]. by exists x, a, b.
  - intros (x & a & b & -> & -> & -> & Hx & Hab). by rewrite !Qlt_bool_iff.
Qed.

Lemma rules_exclusive r : buy_rule r → sell_rule r → False.
Proof.
  intros (x & a & b & Hx & _ & _ & Hlt & _) (x' & a' & b' & Hx' & _ & _ & Hgt & _).
  rewrite Hx in Hx'. injection Hx' as <-.
  assert (70 < 30)%Q as Habs by (eapply Qlt_trans; eassumption).
  by compute in Habs.
Qed.


Lemma buy_cond_set v r : buy_cond (set_Signal v r) = buy_cond r.
Proof. reflexivity. Qed.

Lemma sell_cond_set v r : sell_cond (set_Signal v r) = sell_cond r.
Proof. reflexivity. Qed.

Lemma set_Signal_set v w r : set_Signal v (set_Signal w r) = set_Signal v r.
Proof. reflexivity. Qed.

Lemma three_assignments rows :
  loc_assign sell_cond "SELL"
    (loc_assign buy_cond "BUY" (map (set_Signal "HOLD") rows))
  = map labelled rows.
Proof.
  unfold loc_assign. rewrite !map_map. apply map_ext. intros r.
  unfold labelled. rewrite buy_cond_set.
  destruct (buy_cond r); rewrite !sell_cond_set;
    by destruct (sell_cond r).
Qed.

Lemma apply_strategy_rows df df' :
  apply_strategy df = Some df' →
  ind_rows df' = map labelled (ind_rows df)
  ∧ ind_Signal df' = true
  ∧ ind_Open df' = ind_Open df ∧ ind_Close df' = ind_Close df
  ∧ has_RSI df' = true ∧ has_SMA20 df' = true ∧ has_SMA50 df' = true.
Proof.
  unfold apply_strategy.
  destruct (has_RSI df) eqn:H1, (has_SMA20 df) eqn:H2, (has_SMA50 df) eqn:H3;
    simpl; try done.
  intros [= <-]. simpl. split; [|done]. apply three_assignments.
Qed.

Lemma labelled_signal r :
  (_normalize_signal (row_Signal (ind_row (labelled r))) = BUY ↔ buy_rule r)
  ∧ (_normalize_signal (row_Signal (ind_row (labelled r))) = SELL ↔ sell_rule r).
Proof.
  unfold labelled.
  pose proof (buy_cond_rule r) as Hb. pose proof (sell_cond_rule r) as Hs.
  pose proof (rules_exclusive r) as Hex.
  destruct (sell_cond r), (buy_cond r); simpl;
    split; split; intros Hx; try done; try tauto.
  all: try (exfalso; apply Hex; tauto).
  all: try (apply Hb in Hx; done).
  all: try (apply Hs in Hx; done).
Qed.

(** X16: [apply_strategy] keeps every row with its date, prices and
    indicators, and writes signals that the backtest reads back as the rule
    says: BUY exactly on the rows with RSI below 30 and SMA20 above SMA50,
    SELL exactly on those with RSI above 70 and SMA20 below SMA50, HOLD on
    every other row, whatever the Signal column held before. *)
Theorem strategy_signals_read_back df df' :
  apply_strategy df = Some df' →
  length (ind_rows df') = length (ind_rows df)
  ∧ has_Signal (to_frame df') = true
  ∧ ∀ i r, ind_rows df !! i = Some r →
      ∃ r', ind_rows df' !! i = Some r'
        ∧ row_date (ind_row r') = row_date (ind_row r)
        ∧ row_Open (ind_row r') = row_Open (ind_row r)
        ∧ row_Close (ind_row r') = row_Close (ind_row r)
        ∧ RSI r' = RSI r ∧ SMA20 r' = SMA20 r ∧ SMA50 r' = SMA50 r
        ∧ (_normalize_signal (row_Signal (ind_row r')) = BUY ↔ buy_rule r)
        ∧ (_normalize_signal (row_Signal (ind_row r')) = SELL ↔ sell_rule r).
Proof.
  intros Happly.
  destruct (apply_strategy_rows df df' Happly) as (Hrows & Hsig & _).
  split; [by rewrite Hrows, length_map|]. split; [done|].
  intros i r Hr. exists (labelled r). split.
  { rewrite Hrows. change (map labelled (ind_rows df)) with (labelled <$> ind_rows df).
    by rewrite list_lookup_fmap, Hr. }
  destruct (labelled_signal r) as [Hb Hs].
  split; [|split; [|split; [|split; [|split; [|split; [|split]]]]]]; try done;
    unfold labelled; by destruct (sell_cond r), (buy_cond r).
Qed.

Lemma labelled_idem r : labelled (labelled r) = labelled r.
Proof.
  unfold labelled at 1.
  assert (sell_cond (labelled r) = sell_cond r) as ->
    by (unfold labelled; destruct (sell_cond r) eqn:Hs, (buy_cond r) eqn:Hb;
        by rewrite sell_cond_set).
  assert (buy_cond (labelled r) = buy_cond r) as ->
    by (unfold labelled; destruct (sell_cond r) eqn:Hs, (buy_cond r) eqn:Hb;
        by rewrite buy_cond_set).
  unfold labelled. by destruct (sell_cond r), (buy_cond r).
Qed.

(** X17: [apply_strategy] fails (with a KeyError) exactly when the table
    lacks one of the columns RSI, SMA20, SMA50; and applying it to its own
    output changes nothing. *)
Theorem apply_strategy_error_and_idempotence df :
  (apply_strategy df = None
   ↔ has_RSI df = false ∨ has_SMA20 df = false ∨ has_SMA50 df = false)
  ∧ (∀ df', apply_strategy df = Some df' → apply_strategy df' = Some df').
Proof.
  split.
  - unfold apply_strategy.
    destruct (has_RSI df), (has_SMA20 df), (has_SMA50 df); simpl;
      intuition congruence.
  - intros df' Happly.
    destruct (apply_strategy_rows df df' Happly)
      as (Hrows & Hsig & Ho & Hc & H1 & H2 & H3).
    unfold apply_strategy. rewrite H1, H2, H3. simpl.
    destruct df' as [o c sg h1 h2 h3 rows']. simpl in *. subst.
    f_equal. f_equal.
    rewrite three_assignments, map_map.
    apply map_ext. intros r. apply labelled_idem.
Qed.

Lemma apply_strategy_to_all_inv (data_dict : gmap string IndicatorFrame) :
  (apply_strategy_to_all data_dict = None
   ↔ ∃ ticker df, data_dict !! ticker = Some df ∧ apply_strategy df = None)
  ∧ (∀ updated_data, apply_strategy_to_all data_dict = Some updated_data →
       dom updated_data = dom data_dict
       ∧ ∀ ticker, updated_data !! ticker = data_dict !! ticker ≫= apply_strategy).
Proof.
  unfold apply_strategy_to_all.
  apply (map_fold_weak_ind
           (λ (r : option (gmap string IndicatorFrame)) (m : gmap string IndicatorFrame),
              (r = None ↔ ∃ ticker df, m !! ticker = Some df ∧ apply_strategy df = None)
              ∧ (∀ u, r = Some u →
                   dom u = dom m ∧ ∀ ticker, u !! ticker = m !! ticker ≫= apply_strategy))).
  - split.
    + split; [done|]. intros (ticker & df & Hdf & _). by rewrite lookup_empty in Hdf.
    + intros u [= <-]. split; [by rewrite !dom_empty_L|].
      intros ticker. by rewrite !lookup_empty.
  - intros i x m r Hfresh [IHnone IHsome].
    destruct r as [u|]; simpl.
    + destruct (IHsome u eq_refl) as [Hdom Hlookup].
      destruct (apply_strategy x) as [x'|] eqn:Hx; simpl.
      * split.
        -- split; [done|]. intros (ticker & df & Hdf & Hnone).
           destruct (decide (i = ticker)) as [-> | Hne].
           ++ rewrite lookup_insert_eq in Hdf. injection Hdf as <-. congruence.
           ++ rewrite lookup_insert_ne in Hdf by done.
              assert (Some u = None) as Habs by (apply IHnone; eauto). done.
        -- intros u' [= <-]. split; [by rewrite !dom_insert_L, Hdom|].
           intros ticker. destruct (decide (i = ticker)) as [-> | Hne].
           ++ by rewrite !lookup_insert_eq.
           ++ by rewrite !lookup_insert_ne.
      * split; [|done]. split; [|done]. intros _.
        exists i, x. by rewrite lookup_insert_eq.
    + split; [|done]. split; [|done]. intros _.
      destruct IHnone as [IHnone _]. destruct (IHnone eq_refl) as (ticker & df & Hdf & Hnone).
      exists ticker, df. split; [|done].
      rewrite lookup_insert_ne; [done|]. intros ->. congruence.
Qed.

(** X18: [apply_strategy_to_all] fails exactly when some table lacks one of
    the columns RSI, SMA20, SMA50; otherwise it returns a mapping with the
    same tickers, each with [apply_strategy] of its own table. *)
Theorem apply_strategy_to_all_entries (data_dict : gmap string IndicatorFrame) :
  (apply_strategy_to_all data_dict = None
   ↔ ∃ ticker df, data_dict !! ticker = Some df
        ∧ (has_RSI df = false ∨ has_SMA20 df = false ∨ has_SMA50 df = false))
  ∧ (∀ updated_data, apply_strategy_to_all data_dict = Some updated_data →
       dom updated_data = dom data_dict
       ∧ ∀ ticker df, data_dict !! ticker = Some df →
           ∃ df', apply_strategy df = Some df' ∧ updated_data !! ticker = Some df').
Proof.
  destruct (apply_strategy_to_all_inv data_dict) as [Hnone Hsome].
  assert (∀ df, apply_strategy df = None
                ↔ has_RSI df = false ∨ has_SMA20 df = false ∨ has_SMA50 df = false)
    as Hkey.
  { intros df. unfold apply_strategy.
    destruct (has_RSI df), (has_SMA20 df), (has_SMA50 df); simpl;
      intuition congruence. }
  split.
  - rewrite Hnone. split.
    + intros (ticker & df & Hdf & Hfail). exists ticker, df. by rewrite <- Hkey.
    + intros (ticker & df & Hdf & Hfail). exists ticker, df. by rewrite Hkey.
  - intros updated_data Hall. destruct (Hsome updated_data Hall) as [Hdom Hlookup].
    split; [done|]. intros ticker df Hdf.
    specialize (Hlookup ticker). rewrite Hdf in Hlookup. simpl in Hlookup.
    destruct (apply_strategy df) as [df'|] eqn:Happly; [by exists df'|].
    assert (apply_strategy_to_all data_dict = None) as Habs
      by (apply Hnone; eauto).
    congruence.
Qed.

Lemma labelled_not_buy r :
  ¬ buy_rule r → _normalize_signal (row_Signal (ind_row (labelled r))) ≠ BUY.
Proof. intros Hno Hbuy. by apply Hno, labelled_signal. Qed.

(** X19: the strategy feeds the backtest: on a table in which no row meets
    the BUY rule, the backtest of the strategy's output, from a non-zero
    capital, has no trade and ends with the initial capital. *)
Theorem strategy_without_buy_never_trades df df' (initial_capital : Q) :
  apply_strategy df = Some df' →
  feq0 initial_capital = false →
  (∀ r, r ∈ ind_rows df → ¬ buy_rule r) →
  ∃ s, backtest (to_frame df') initial_capital = Ok ([], s)
    ∧ Total_Trades s = 0 ∧ Final_Capital s = initial_capital.
Proof.
  intros Happly Hcap Hno.
  destruct (apply_strategy_rows df df' Happly) as (Hrows & _).
  destruct (idle_backtest (to_frame df') initial_capital Hcap) as (s & Hbt & Ht & _ & _ & Hf).
  - apply no_buy_simulate. intros r Hr. simpl in Hr. rewrite Hrows, map_map in Hr.
    apply list_elem_of_fmap in Hr as (r0 & -> & Hr0).
    by apply labelled_not_buy, Hno.
  - by exists s.
Qed.

(** X20: the two steps of the pipeline, the strategy and then the
    orchestrator: the tickers that get a backtest entry are exactly the
    tickers whose table of indicators has a row. *)
Theorem pipeline_keys mm (data_dict updated_data : gmap string IndicatorFrame)
    (initial_capital : Q) months ticker :
  apply_strategy_to_all data_dict = Some updated_data →
  (ticker ∈ dom (backtest_all mm (to_frame <$> updated_data) initial_capital months).1
   ↔ ∃ df, data_dict !! ticker = Some df ∧ ind_rows df ≠ [])
  ∧ (ticker ∈ dom (backtest_all mm (to_frame <$> updated_data) initial_capital months).2
     ↔ ∃ df, data_dict !! ticker = Some df ∧ ind_rows df ≠ []).
Proof.
  intros Hall.
  destruct (backtest_all_keys mm (to_frame <$> updated_data) initial_capital months)
    as [-> ->].
  destruct (apply_strategy_to_all_inv data_dict) as [Hnone Hsome].
  destruct (Hsome updated_data Hall) as [_ Hlookup]. specialize (Hlookup ticker).
  assert (ticker ∈ dom (filter (λ kv : string * DataFrame Q, length (df_rows kv.2) ≠ 0)
                               (to_frame <$> updated_data))
          ↔ ∃ df, data_dict !! ticker = Some df ∧ ind_rows df ≠ []) as Hiff; [|done].
  rewrite elem_of_dom. split.
  - intros [fr Hfr]. apply map_lookup_filter_Some in Hfr as [Hfr Hlen].
    rewrite lookup_fmap, Hlookup in Hfr.
    destruct (data_dict !! ticker) as [df|]; [|done]. simpl in Hfr.
    destruct (apply_strategy df) as [df'|] eqn:Hdf; [|done]. simpl in Hfr.
    injection Hfr as <-. exists df. split; [done|].
    destruct (apply_strategy_rows df df' Hdf) as (Hrows & _).
    simpl in Hlen. rewrite Hrows, !length_map in Hlen. by destruct (ind_rows df).
  - intros (df & Hdf & Hne). rewrite Hdf in Hlookup. simpl in Hlookup.
    destruct (apply_strategy df) as [df'|] eqn:Happly.
    + exists (to_frame df'). apply map_lookup_filter_Some.
      split; [by rewrite lookup_fmap, Hlookup|].
      destruct (apply_strategy_rows df df' Happly) as (Hrows & _).
      simpl. rewrite Hrows, !length_map. by destruct (ind_rows df).
    + assert (apply_strategy_to_all data_dict = None) as Habs by (apply Hnone; eauto).
      congruence.
Qed.

(** * Instances of the further properties *)

Lemma backtest_row_order_irrelevant_witness :
  NoDup (map row_date (df_rows scenario))
  ∧ df_rows scenario ≡ₚ df_rows scenario_shuffled
  ∧ has_Open scenario = has_Open scenario_shuffled
  ∧ has_Close scenario = has_Close scenario_shuffled
  ∧ has_Signal scenario = has_Signal scenario_shuffled
  ∧ backtest scenario 1000%Q = backtest scenario_shuffled 1000%Q.
Proof.
  assert (NoDup (map row_date (df_rows scenario))) as Hnd.
  { apply (bool_decide_unpack _). vm_compute. reflexivity. }
  assert (df_rows scenario ≡ₚ df_rows scenario_shuffled) as Hperm.
  { simpl. apply Permutation_swap. }
  split; [exact Hnd|]. split; [exact Hperm|]. do 3 (split; [reflexivity|]).
  exact (backtest_row_order_irrelevant scenario scenario_shuffled 1000%Q
           Hnd Hperm eq_refl eq_refl eq_refl).
Defined.

Lemma no_buy_no_trade_witness :
  feq0 1000%Q = false
  ∧ (∀ r, r ∈ df_rows no_buy_series → _normalize_signal (row_Signal r) ≠ BUY)
  ∧ ∃ s, backtest no_buy_series 1000%Q = Ok ([], s)
      ∧ Total_Trades s = 0 ∧ Wins s = 0 ∧ Total_PnL s = fzero
      ∧ Final_Capital s = 1000%Q.
Proof.
  assert (∀ r, r ∈ df_rows no_buy_series → _normalize_signal (row_Signal r) ≠ BUY)
    as Hno.
  { intros r Hr. simpl in Hr. rewrite !elem_of_cons, elem_of_nil in Hr.
    destruct Hr as [-> | [-> | [-> | []]]]; vm_compute; discriminate. }
  split; [reflexivity|]. split; [exact Hno|].
  exact (no_buy_no_trade no_buy_series 1000%Q eq_refl Hno).
Defined.

Lemma trade_count_bounds_witness :
  backtest scenario 1000%Q = Ok ([scenario_trade], scenario_summary)
  ∧ Wins scenario_summary ≤ Total_Trades scenario_summary
  ∧ 2 * Total_Trades scenario_summary ≤ length (df_rows scenario)
  ∧ (Total_Trades scenario_summary = 0 → Win_Ratio scenario_summary = fzero).
Proof.
  assert (backtest scenario 1000%Q = Ok ([scenario_trade], scenario_summary)) as Hbt
    by (vm_compute; reflexivity).
  split; [exact Hbt|].
  exact (trade_count_bounds scenario 1000%Q [scenario_trade] scenario_summary Hbt).
Defined.

Lemma final_capital_of_last_trade_witness :
  backtest scenario 1000%Q = Ok ([scenario_trade], scenario_summary)
  ∧ match last [scenario_trade] with
    | Some t => ∃ p, Exit_Price t = Some p
                     ∧ Final_Capital scenario_summary = fmul (Qty t) p
    | None => Final_Capital scenario_summary = 1000%Q
    end.
Proof.
  assert (backtest scenario 1000%Q = Ok ([scenario_trade], scenario_summary)) as Hbt
    by (vm_compute; reflexivity).
  split; [exact Hbt|].
  exact (final_capital_of_last_trade scenario 1000%Q [scenario_trade] scenario_summary Hbt).
Defined.

Lemma quantities_compound_witness :
  backtest two_round_trips 1000%Q = Ok ([first_trip; second_trip], round_trips_summary)
  ∧ [first_trip; second_trip] !! 1 = Some second_trip
  ∧ Qty second_trip
    = (if fgt0 (Entry_Price second_trip)
       then fdiv (value_after 1000%Q (take 1 [first_trip; second_trip]))
                 (Entry_Price second_trip)
       else fzero).
Proof.
  assert (backtest two_round_trips 1000%Q
          = Ok ([first_trip; second_trip], round_trips_summary)) as Hbt
    by (vm_compute; reflexivity).
  split; [exact Hbt|]. split; [reflexivity|].
  exact (quantities_compound two_round_trips 1000%Q [first_trip; second_trip]
           round_trips_summary 1 second_trip Hbt eq_refl).
Defined.

Lemma returned_trades_complete_witness :
  backtest scenario 1000%Q = Ok ([scenario_trade], scenario_summary)
  ∧ scenario_trade ∈ [scenario_trade]
  ∧ ∃ d p, Exit_Date scenario_trade = Some d ∧ (Entry_Date scenario_trade ≤ d)%Z
      ∧ Exit_Price scenario_trade = Some p
      ∧ PnL scenario_trade
        = Some (if fisnan (fmul (fsub p (Entry_Price scenario_trade)) (Qty scenario_trade))
                then fzero
                else fmul (fsub p (Entry_Price scenario_trade)) (Qty scenario_trade)).
Proof.
  assert (backtest scenario 1000%Q = Ok ([scenario_trade], scenario_summary)) as Hbt
    by (vm_compute; reflexivity).
  assert (scenario_trade ∈ [scenario_trade]) as Hin by (by left).
  split; [exact Hbt|]. split; [exact Hin|].
  exact (returned_trades_complete scenario 1000%Q [scenario_trade] scenario_summary
           scenario_trade Hbt Hin).
Defined.

Lemma trades_execute_on_next_row_witness :
  backtest scenario 1000%Q = Ok ([scenario_trade], scenario_summary)
  ∧ scenario_trade ∈ [scenario_trade]
  ∧ ∃ i, entered_at (_ensure_datetime_index scenario) i scenario_trade
      ∧ ((∃ j, i < j ∧ sold_at (_ensure_datetime_index scenario) j scenario_trade)
         ∨ force_closed (_ensure_datetime_index scenario) scenario_trade).
Proof.
  assert (backtest scenario 1000%Q = Ok ([scenario_trade], scenario_summary)) as Hbt
    by (vm_compute; reflexivity).
  assert (scenario_trade ∈ [scenario_trade]) as Hin by (by left).
  split; [exact Hbt|]. split; [exact Hin|].
  exact (trades_execute_on_next_row scenario 1000%Q [scenario_trade] scenario_summary
           scenario_trade Hbt Hin).
Defined.

Lemma completed_trades_are_kept_witness :
  state_after two_round_trips 1000%Q 2 = Ok after_first_trip
  ∧ simulate two_round_trips 1000%Q = Ok after_second_trip
  ∧ List.filter is_closed (trades after_first_trip)
    `prefix_of` List.filter is_closed (trades after_second_trip).
Proof.
  assert (state_after two_round_trips 1000%Q 2 = Ok after_first_trip) as Hst
    by (vm_compute; reflexivity).
  assert (simulate two_round_trips 1000%Q = Ok after_second_trip) as Hsim
    by (vm_compute; reflexivity).
  split; [exact Hst|]. split; [exact Hsim|].
  exact (completed_trades_are_kept two_round_trips 1000%Q 2
           after_first_trip after_second_trip Hst Hsim).
Defined.

Lemma backtest_all_per_ticker_witness :
  two_tickers !! "INFY.NS" = Some scenario
  ∧ (backtest_all minus_months_30 two_tickers 1000%Q 6).1 !! "INFY.NS"
    = (backtest_all minus_months_30 {["INFY.NS" := scenario]} 1000%Q 6).1 !! "INFY.NS"
  ∧ (backtest_all minus_months_30 two_tickers 1000%Q 6).2 !! "INFY.NS"
    = (backtest_all minus_months_30 {["INFY.NS" := scenario]} 1000%Q 6).2 !! "INFY.NS".
Proof.
  assert (two_tickers !! "INFY.NS" = Some scenario) as Hticker
    by (vm_compute; reflexivity).
  split; [exact Hticker|].
  exact (backtest_all_per_ticker minus_months_30 two_tickers 1000%Q 6
           "INFY.NS" scenario Hticker).
Defined.

Lemma backtest_all_runs_backtest_witness :
  two_tickers !! "INFY.NS" = Some scenario
  ∧ df_rows scenario ≠ []
  ∧ (∀ r r', r ∈ df_rows scenario → r' ∈ df_rows scenario →
             (minus_months_30 (row_date r) 6 ≤ row_date r')%Z)
  ∧ ((backtest_all minus_months_30 two_tickers 1000%Q 6).1 !! "INFY.NS",
     (backtest_all minus_months_30 two_tickers 1000%Q 6).2 !! "INFY.NS")
    = match backtest scenario 1000%Q with
      | Ok (tl, s) => (Some tl, Some s)
      | Raise _ => (Some [], Some (zero_summary 1000%Q))
      end.
Proof.
  assert (two_tickers !! "INFY.NS" = Some scenario) as Hticker
    by (vm_compute; reflexivity).
  assert (df_rows scenario ≠ []) as Hrows by (simpl; discriminate).
  assert (∀ r r', r ∈ df_rows scenario → r' ∈ df_rows scenario →
                  (minus_months_30 (row_date r) 6 ≤ row_date r')%Z) as Hwindow.
  { intros r r' Hr Hr'. simpl in Hr, Hr'.
    rewrite !elem_of_cons, elem_of_nil in Hr, Hr'.
    unfold minus_months_30.
    destruct Hr as [-> | [-> | [-> | [-> | []]]]];
      destruct Hr' as [-> | [-> | [-> | [-> | []]]]]; simpl; lia. }
  split; [exact Hticker|]. split; [exact Hrows|]. split; [exact Hwindow|].
  exact (backtest_all_runs_backtest minus_months_30 two_tickers 1000%Q 6
           "INFY.NS" scenario Hticker Hrows Hwindow).
Defined.

Lemma backtest_all_zero_capital_witness :
  feq0 0%Q = true
  ∧ (∀ tl, (backtest_all minus_months_30 two_tickers 0%Q 6).1 !! "INFY.NS" = Some tl →
           tl = [])
  ∧ (∀ s, (backtest_all minus_months_30 two_tickers 0%Q 6).2 !! "INFY.NS" = Some s →
          s = zero_summary 0%Q).
Proof.
  split; [reflexivity|].
  exact (backtest_all_zero_capital minus_months_30 two_tickers 0%Q 6 "INFY.NS" eq_refl).
Defined.

Lemma strategy_signals_read_back_witness :
  apply_strategy indicators = Some (with_signals indicators)
  ∧ length (ind_rows (with_signals indicators)) = length (ind_rows indicators)
  ∧ has_Signal (to_frame (with_signals indicators)) = true
  ∧ ∀ i r, ind_rows indicators !! i = Some r →
      ∃ r', ind_rows (with_signals indicators) !! i = Some r'
        ∧ row_date (ind_row r') = row_date (ind_row r)
        ∧ row_Open (ind_row r') = row_Open (ind_row r)
        ∧ row_Close (ind_row r') = row_Close (ind_row r)
        ∧ RSI r' = RSI r ∧ SMA20 r' = SMA20 r ∧ SMA50 r' = SMA50 r
        ∧ (_normalize_signal (row_Signal (ind_row r')) = BUY ↔ buy_rule r)
        ∧ (_normalize_signal (row_Signal (ind_row r')) = SELL ↔ sell_rule r).
Proof.
  assert (apply_strategy indicators = Some (with_signals indicators)) as Happly
    by (vm_compute; reflexivity).
  split; [exact Happly|].
  exact (strategy_signals_read_back indicators (with_signals indicators) Happly).
Defined.

Lemma strategy_without_buy_never_trades_witness :
  apply_strategy quiet_indicators = Some (with_signals quiet_indicators)
  ∧ feq0 1000%Q = false
  ∧ (∀ r, r ∈ ind_rows quiet_indicators → ¬ buy_rule r)
  ∧ ∃ s, backtest (to_frame (with_signals quiet_indicators)) 1000%Q = Ok ([], s)
      ∧ Total_Trades s = 0 ∧ Final_Capital s = 1000%Q.
Proof.
  assert (apply_strategy quiet_indicators = Some (with_signals quiet_indicators))
    as Happly by (vm_compute; reflexivity).
  assert (∀ r, r ∈ ind_rows quiet_indicators → ¬ buy_rule r) as Hno.
  { intros r Hr Hbuy. apply buy_cond_rule in Hbuy.
    simpl in Hr. rewrite !elem_of_cons, elem_of_nil in Hr.
    destruct Hr as [-> | [-> | [-> | []]]]; vm_compute in Hbuy; discriminate. }
  split; [exact Happly|]. split; [reflexivity|]. split; [exact Hno|].
  exact (strategy_without_buy_never_trades quiet_indicators
           (with_signals quiet_indicators) 1000%Q Happly eq_refl Hno).
Defined.

Lemma pipeline_keys_witness :
  apply_strategy_to_all {["INFY.NS" := indicators]}
  = Some {["INFY.NS" := with_signals indicators]}
  ∧ ("INFY.NS" ∈ dom (backtest_all minus_months_30
                        (to_frame <$> {["INFY.NS" := with_signals indicators]})
                        1000%Q 6).1
     ↔ ∃ df, ({["INFY.NS" := indicators]} : gmap string IndicatorFrame) !! "INFY.NS" = Some df
             ∧ ind_rows df ≠ [])
  ∧ ("INFY.NS" ∈ dom (backtest_all minus_months_30
                        (to_frame <$> {["INFY.NS" := with_signals indicators]})
                        1000%Q 6).2
     ↔ ∃ df, ({["INFY.NS" := indicators]} : gmap string IndicatorFrame) !! "INFY.NS" = Some df
             ∧ ind_rows df ≠ []).
Proof.
  assert (apply_strategy_to_all {["INFY.NS" := indicators]}
          = Some {["INFY.NS" := with_signals indicators]}) as Hall
    by (vm_compute; reflexivity).
  split; [exact Hall|].
  exact (pipeline_keys minus_months_30 {["INFY.NS" := indicators]}
           {["INFY.NS" := with_signals indicators]} 1000%Q 6 "INFY.NS" Hall).
Defined.

(** * [alerts.py] and [utils.py] on the signals of the strategy *)

Lemma labelled_is_string r :
  ∃ v, row_Signal (ind_row (labelled r)) = VStr v.
Proof. unfold labelled. destruct (sell_cond r), (buy_cond r); by eexists. Qed.

Lemma filter_ext_in_true {A} (f : A → bool) (xs : list A) :
  (∀ x, x ∈ xs → f x = true) → List.filter f xs = xs.
Proof.
  intros Hall. induction xs as [|x xs IH]; simpl; [done|].
  rewrite Hall by left. f_equal. apply IH. intros y Hy. apply Hall. by right.
Qed.

Lemma labelled_date r : row_date (ind_row (labelled r)) = row_date (ind_row r).
Proof. unfold labelled. by destruct (sell_cond r), (buy_cond r). Qed.

Lemma recent_dates_of_labelled cutoff_date ticker rows :
  map alert_date
    (map (alert_of ticker)
       (List.filter (λ r, ne_zero (row_Signal r) && (cutoff_date <=? row_date r)%Z)
          (map ind_row (map labelled rows))))
  = List.filter (λ d, (cutoff_date <=? d)%Z)
                (map (λ r, row_date (ind_row r)) rows).
Proof.
  induction rows as [|r rows IH]; [done|].
  cbn [map List.filter].
  destruct (labelled_is_string r) as [v Hv]. rewrite Hv, labelled_date.
  cbn [ne_zero andb].
  destruct (cutoff_date <=? row_date (ind_row r))%Z;
    cbn [map alert_of alert_date]; by rewrite ?labelled_date, IH.
Qed.

(** X22: on a table that comes out of [apply_strategy], whose signals are
    the strings BUY, SELL and HOLD, [send_trade_alerts] prepares an alert for
    every row on or after the cutoff date, HOLD rows included, and every
    one of these alerts is of type SELL. *)
Theorem alerts_on_strategy_output df df' cutoff_date ticker :
  apply_strategy df = Some df' → ind_Close df = true →
  ∃ alerts,
    ticker_alerts cutoff_date ticker (to_frame df') = Some alerts
    ∧ map alert_date alerts
      = List.filter (λ d, (cutoff_date <=? d)%Z)
                    (map (λ r, row_date (ind_row r)) (ind_rows df))
    ∧ ∀ a, a ∈ alerts → alert_type a = "SELL".
Proof.
  intros Happly Hclose.
  destruct (apply_strategy_rows df df' Happly) as (Hrows & Hsig & _ & Hc & _).
  unfold ticker_alerts. simpl. rewrite Hsig, Hc, Hclose.
  exists (map (alert_of ticker) (recent_signals cutoff_date (to_frame df'))).
  split; [by destruct (recent_signals cutoff_date (to_frame df'))|].
  unfold recent_signals. simpl. rewrite Hrows. split.
  - apply recent_dates_of_labelled.
  - intros a Ha. apply list_elem_of_fmap in Ha as (row & -> & Hrow).
    apply list_elem_of_In, List.filter_In in Hrow as [Hrow _].
    apply list_elem_of_In in Hrow. rewrite map_map in Hrow.
    apply list_elem_of_fmap in Hrow as (r & -> & _).
    destruct (labelled_is_string r) as [v Hv].
    unfold alert_of. simpl. by rewrite Hv.
Qed.

(** X23: [filter_trade_signals] fails exactly on a table without a Signal
    column; on a table that comes out of [apply_strategy] it drops nothing:
    every row, HOLD rows included, is returned. *)
Theorem filter_trade_signals_on_strategy_output :
  (∀ df, filter_trade_signals df = None ↔ has_Signal df = false)
  ∧ (∀ df df', apply_strategy df = Some df' →
       ∃ kept, filter_trade_signals (to_frame df') = Some kept
               ∧ df_rows kept = df_rows (to_frame df')).
Proof.
  split.
  - intros df. unfold filter_trade_signals. by destruct (has_Signal df).
  - intros df df' Happly.
    destruct (apply_strategy_rows df df' Happly) as (Hrows & Hsig & _).
    unfold filter_trade_signals. simpl. rewrite Hsig.
    eexists. split; [done|]. simpl.
    apply filter_ext_in_true. intros row Hrow.
    rewrite Hrows, map_map in Hrow.
    apply list_elem_of_fmap in Hrow as (r & -> & _).
    destruct (labelled_is_string r) as [v Hv]. by rewrite Hv.
Qed.

Lemma alerts_on_strategy_output_witness :
  apply_strategy indicators = Some (with_signals indicators)
  ∧ ind_Close indicators = true
  ∧ ∃ alerts,
      ticker_alerts 1 "INFY.NS" (to_frame (with_signals indicators)) = Some alerts
      ∧ map alert_date alerts
        = List.filter (λ d, (1 <=? d)%Z)
                      (map (λ r, row_date (ind_row r)) (ind_rows indicators))
      ∧ ∀ a, a ∈ alerts → alert_type a = "SELL".
Proof.
  assert (apply_strategy indicators = Some (with_signals indicators)) as Happly
    by (vm_compute; reflexivity).
  split; [exact Happly|]. split; [reflexivity|].
  exact (alerts_on_strategy_output indicators (with_signals indicators) 1 "INFY.NS"
           Happly eq_refl).
Defined.

(** * [ml_model.py]: the training rows *)

Lemma select_map {A B} (f : A → B) mask (xs : list A) :
  select mask (map f xs) = map f (select mask xs).
Proof.
  revert xs. induction mask as [|b mask IH]; intros [|x xs]; simpl; try done.
  destruct b; simpl; by rewrite IH.
Qed.

Lemma select_filter {A} (f : A → bool) (xs : list A) :
  select (map f xs) xs = List.filter f xs.
Proof.
  induction xs as [|x xs IH]; simpl; [done|]. by rewrite IH.
Qed.

Lemma label_cases r :
  (label r = 1%Z ∧ buy_rule (ml_ind r))
  ∨ (label r = (-1)%Z ∧ sell_rule (ml_ind r))
  ∨ (label r = 0%Z ∧ ¬ buy_rule (ml_ind r) ∧ ¬ sell_rule (ml_ind r)).
Proof.
  unfold label.
  pose proof (buy_cond_rule (ml_ind r)) as Hb.
  pose proof (sell_cond_rule (ml_ind r)) as Hs.
  pose proof (rules_exclusive (ml_ind r)) as Hex.
  destruct (sell_cond (ml_ind r)), (buy_cond (ml_ind r)).
  - exfalso. apply Hex; tauto.
  - right. left. tauto.
  - left. tauto.
  - right. right. split; [done|].
    split; intros Hx; [apply Hb in Hx | apply Hs in Hx]; done.
Qed.

(** The filled features of the rows, each next to its row. *)
Lemma select_ffill (prev : list (option Q)) (rows : list MLRow) :
  length prev = 6 →
  ∀ i r, List.filter (λ r, negb (label r =? 0)%Z) rows !! i = Some r →
    ∃ x, select (map (λ r, negb (label r =? 0)%Z) rows)
                (fillna_zero (ffill prev (map features rows))) !! i = Some x
         ∧ length x = 6
         ∧ ∀ j v, features r !! j = Some (Some v) → x !! j = Some v.
Proof.
  revert prev. induction rows as [|r0 rows IH]; intros prev Hprev i r Hr; [done|].
  assert (length (zip_with fill_from prev (features r0)) = 6) as Hlen.
  { rewrite length_zip_with, Hprev. reflexivity. }
  cbn [map ffill fillna_zero select List.filter] in *.
  destruct (negb (label r0 =? 0)%Z).
  - destruct i as [|i].
    + injection Hr as <-. eexists. split; [reflexivity|]. split.
      * by rewrite length_map.
      * intros j v Hj.
        change (map (default 0%Q) ?l) with (default 0%Q <$> l).
        rewrite list_lookup_fmap, lookup_zip_with, Hj.
        destruct (lookup_lt_is_Some_2 prev j) as [pv ->]; [|done].
        apply lookup_lt_Some in Hj. simpl in Hj. lia.
    + by apply IH.
  - by apply IH.
Qed.

Lemma select_ffill_length (prev : list (option Q)) (rows : list MLRow) :
  length (select (map (λ r, negb (label r =? 0)%Z) rows)
                 (fillna_zero (ffill prev (map features rows))))
  = length (List.filter (λ r, negb (label r =? 0)%Z) rows).
Proof.
  revert prev. induction rows as [|r0 rows IH]; intros prev; [done|].
  cbn [map ffill fillna_zero select List.filter].
  destruct (negb (label r0 =? 0)%Z); simpl;
    by rewrite <- (IH (zip_with fill_from prev (features r0))).
Qed.

Lemma prepare_ml_data_labels df X y :
  prepare_ml_data df = Some (X, y) → y = map label (signal_rows df).
Proof.
  unfold prepare_ml_data.
  destruct (ml_has_RSI df && ml_has_SMA20 df && ml_has_SMA50 df
            && ml_has_MACD df && ml_has_MACD_SIGNAL df && ml_has_Volume df);
    [|done].
  intros [= _ <-]. rewrite map_map, select_map. f_equal.
  apply (select_filter (λ r, negb (label r =? 0)%Z)).
Qed.

Lemma signal_label_labelled r :
  signal_label (labelled (ml_ind r))
  = if negb (label r =? 0)%Z then Some (label r) else None.
Proof.
  unfold signal_label, label, labelled.
  by destruct (sell_cond (ml_ind r)), (buy_cond (ml_ind r)).
Qed.

(** X24: [prepare_ml_data] fails exactly when a feature column is missing;
    otherwise it returns one feature row and one label per row that meets
    the BUY or the SELL rule of the strategy, in order, with label 1 on the
    BUY rows and -1 on the SELL rows, and the features RSI, SMA20 and SMA50
    of a returned row are the row's own values, untouched by the filling. *)
Theorem prepare_ml_data_rows df :
  (prepare_ml_data df = None
   ↔ ml_has_RSI df && ml_has_SMA20 df && ml_has_SMA50 df
     && ml_has_MACD df && ml_has_MACD_SIGNAL df && ml_has_Volume df = false)
  ∧ (∀ X y, prepare_ml_data df = Some (X, y) →
       length X = length (signal_rows df)
       ∧ y = map label (signal_rows df)
       ∧ ∀ i r, signal_rows df !! i = Some r →
           ((y !! i = Some 1%Z ∧ buy_rule (ml_ind r))
            ∨ (y !! i = Some (-1)%Z ∧ sell_rule (ml_ind r)))
           ∧ ∃ x rsi sma20 sma50 macd macd_signal volume,
               X !! i = Some x
               ∧ x = [rsi; sma20; sma50; macd; macd_signal; volume]
               ∧ RSI (ml_ind r) = Some rsi
               ∧ SMA20 (ml_ind r) = Some sma20
               ∧ SMA50 (ml_ind r) = Some sma50).
Proof.
  unfold prepare_ml_data.
  destruct (ml_has_RSI df && ml_has_SMA20 df && ml_has_SMA50 df
            && ml_has_MACD df && ml_has_MACD_SIGNAL df && ml_has_Volume df)
    eqn:Hcols; [|by split].
  split; [by split|]. intros X y HXy.
  assert (y = map label (signal_rows df)) as Hy.
  { apply (prepare_ml_data_labels df X). unfold prepare_ml_data.
    by rewrite Hcols. }
  injection HXy as <- _.
  assert (∀ i r, signal_rows df !! i = Some r →
            ∃ x, select (map (λ l, negb (l =? 0)%Z) (map label (ml_rows df)))
                        (fillna_zero (ffill (replicate 6 None) (map features (ml_rows df))))
                 !! i = Some x
                 ∧ length x = 6
                 ∧ ∀ j v, features r !! j = Some (Some v) → x !! j = Some v) as Hx.
  { intros i r Hr. rewrite map_map. by apply select_ffill. }
  split; [|split; [exact Hy|]].
  - rewrite map_map. apply select_ffill_length.
  - intros i r Hr. split.
    + rewrite Hy. change (map label (signal_rows df)) with (label <$> signal_rows df).
      rewrite list_lookup_fmap, Hr. simpl.
      assert (negb (label r =? 0)%Z = true) as Hkeep.
      { apply list_elem_of_lookup_2, list_elem_of_In, List.filter_In in Hr. tauto. }
      destruct (label_cases r) as [[-> Hb] | [[-> Hs] | [Hz _]]]; [tauto | tauto |].
      rewrite Hz in Hkeep. done.
    + destruct (Hx i r Hr) as (x & Hlook & Hlen & Hown).
      assert (negb (label r =? 0)%Z = true) as Hkeep.
      { apply list_elem_of_lookup_2, list_elem_of_In, List.filter_In in Hr. tauto. }
      assert (∃ rsi sma20 sma50, RSI (ml_ind r) = Some rsi
                ∧ SMA20 (ml_ind r) = Some sma20 ∧ SMA50 (ml_ind r) = Some sma50)
        as (rsi & sma20 & sma50 & Hrsi & H20 & H50).
      { destruct (label_cases r) as [[_ Hb] | [[_ Hs] | [Hz _]]].
        - destruct Hb as (a & b & c & ? & ? & ? & _). by exists a, b, c.
        - destruct Hs as (a & b & c & ? & ? & ? & _). by exists a, b, c.
        - rewrite Hz in Hkeep. done. }
      destruct x as [|x0 [|x1 [|x2 [|x3 [|x4 [|x5 [|]]]]]]]; try done.
      exists [x0; x1; x2; x3; x4; x5], rsi, sma20, sma50, x3, x4, x5.
      split; [done|].
      pose proof (Hown 0 rsi) as H0. pose proof (Hown 1 sma20) as H1.
      pose proof (Hown 2 sma50) as H2.
      unfold features in H0, H1, H2. simpl in H0, H1, H2.
      rewrite Hrsi in H0. rewrite H20 in H1. rewrite H50 in H2.
      specialize (H0 eq_refl). specialize (H1 eq_refl). specialize (H2 eq_refl).
      injection H0 as ->. injection H1 as ->. injection H2 as ->. done.
Qed.

(** The forward fill does reach the other features: the BUY row of
    [ml_table] has no MACD of its own and is given the MACD of the quiet row
    above it, which is not returned; the missing cells of the SELL row are
    filled from the BUY row. *)
Example prepare_ml_data_fills :
  prepare_ml_data ml_table
  = Some ([[25; 105; 100; 2; 1; 600]; [75; 95; 100; 3; 1; 600]]%Q, [1; -1]%Z).
Proof. vm_compute. reflexivity. Qed.

(** X25: the classifier is trained on the strategy's own signals: for a
    table whose indicator cells are those given to [apply_strategy], the
    labels that [prepare_ml_data] returns are, in order, the non-HOLD
    signals that [apply_strategy] writes, as the backtest reads them: 1 for
    a row that reads as BUY, -1 for a row that reads as SELL. *)
Theorem training_labels_are_strategy_signals df sdf sdf' X y :
  ind_rows sdf = map ml_ind (ml_rows df) →
  apply_strategy sdf = Some sdf' →
  prepare_ml_data df = Some (X, y) →
  y = omap signal_label (ind_rows sdf').
Proof.
  intros Hrows Hs Hml.
  rewrite (prepare_ml_data_labels df X y Hml).
  destruct (apply_strategy_rows sdf sdf' Hs) as (-> & _).
  rewrite Hrows. clear Hrows Hs Hml. unfold signal_rows.
  induction (ml_rows df) as [|r rows IH]; [done|].
  cbn [map omap list_omap List.filter]. rewrite signal_label_labelled.
  destruct (negb (label r =? 0)%Z); simpl; by rewrite IH.
Qed.

Lemma training_labels_are_strategy_signals_witness :
  ∃ sdf' X y,
    apply_strategy ml_table_indicators = Some sdf'
    ∧ prepare_ml_data ml_table = Some (X, y)
    ∧ y = omap signal_label (ind_rows sdf').
Proof.
  eexists _, _, _. split; [reflexivity|]. split; [reflexivity|].
  eapply (training_labels_are_strategy_signals ml_table ml_table_indicators);
    reflexivity.
Defined.

(** * Binary64 floats *)

Lemma digits2_pos_bounds m :
  (2 ^ (Z.pos (digits2_pos m) - 1) ≤ Z.pos m < 2 ^ Z.pos (digits2_pos m))%Z.
Proof.
  induction m as [m IH|m IH|]; simpl digits2_pos; [| |done].
  - rewrite Pos2Z.inj_succ.
    replace (Z.succ (Z.pos (digits2_pos m)) - 1)%Z with (Z.succ (Z.pos (digits2_pos m) - 1))%Z by lia.
    rewrite !Z.pow_succ_r by lia. lia.
  - rewrite Pos2Z.inj_succ.
    replace (Z.succ (Z.pos (digits2_pos m)) - 1)%Z with (Z.succ (Z.pos (digits2_pos m) - 1))%Z by lia.
    rewrite !Z.pow_succ_r by lia. lia.
Qed.

(** A finite binary64 float has 53 digits, or fewer at the least
    exponent. *)
Lemma valid_finite s m e :
  valid_binary (S754_finite s m e) = true →
  (-1074 ≤ e ≤ 971)%Z
  ∧ (Z.pos m < 2 ^ 53)%Z
  ∧ ((-1074 < e)%Z → (2 ^ 52 ≤ Z.pos m)%Z).
Proof.
  unfold SpecFloat.valid_binary, bounded, canonical_mantissa, fexp, SpecFloat.emin, prec, emax.
  intros [Hc He]%andb_true_iff. apply Z.eqb_eq in Hc. apply Z.leb_le in He.
  pose proof (digits2_pos_bounds m) as [Hlo Hhi].
  split; [lia|]. split.
  - eapply Z.lt_le_trans; [exact Hhi|]. apply Z.pow_le_mono_r; lia.
  - intros Hnorm.
    replace (Z.pos (digits2_pos m)) with 53%Z in Hlo by lia. exact Hlo.
Qed.

(** The magnitude of a finite float truncates to 1 exactly at the exponent
    of the floats between 1 and 2. *)
Lemma float_magnitude_one s m e :
  valid_binary (S754_finite s m e) = true →
  ((if (0 <=? e)%Z then Z.pos m * 2 ^ e else Z.pos m / 2 ^ (- e))%Z = 1%Z
   ↔ e = (-52)%Z).
Proof.
  intros (He & Hhi & Hlo)%valid_finite.
  assert (2 ^ 52 = 4503599627370496)%Z as H52 by reflexivity.
  assert (2 ^ 53 = 9007199254740992)%Z as H53 by reflexivity.
  split.
  - destruct (0 <=? e)%Z eqn:Hsign.
    + apply Z.leb_le in Hsign. intros Hone.
      assert (0 < 2 ^ e)%Z by (apply Z.pow_pos_nonneg; lia).
      specialize (Hlo ltac:(lia)). nia.
    + apply Z.leb_gt in Hsign. intros Hone.
      assert (0 < 2 ^ (- e))%Z as Hpos by (apply Z.pow_pos_nonneg; lia).
      pose proof (Z.div_mod (Z.pos m) (2 ^ (- e)) ltac:(lia)) as Hdm.
      pose proof (Z.mod_pos_bound (Z.pos m) (2 ^ (- e)) Hpos) as Hmod.
      rewrite Hone in Hdm.
      destruct (Z.le_gt_cases 53 (- e)) as [Hbig | Hsmall].
      { assert (2 ^ 53 ≤ 2 ^ (- e))%Z by (apply Z.pow_le_mono_r; lia). lia. }
      specialize (Hlo ltac:(lia)).
      destruct (Z.le_gt_cases (- e) 51) as [Hlow | Hup]; [|lia].
      assert (2 ^ (- e) ≤ 2 ^ 51)%Z as Hle by (apply Z.pow_le_mono_r; lia).
      assert (2 ^ 51 = 2251799813685248)%Z as H51 by reflexivity.
      lia.
  - intros ->. specialize (Hlo ltac:(lia)). simpl Z.leb. cbv iota.
    change (- -52)%Z with 52%Z. rewrite H52.
    symmetry. apply (Z.div_unique_pos _ _ 1 (Z.pos m - 4503599627370496)); lia.
Qed.

Lemma float_trunc_one (x : float) :
  float_trunc x = Some 1%Z ↔ (1 <=? x)%float = true ∧ (x <? 2)%float = true.
Proof.
  rewrite leb_spec, ltb_spec. unfold float_trunc.
  change (Prim2SF 1) with (S754_finite false 4503599627370496 (-52)).
  change (Prim2SF 2) with (S754_finite false 4503599627370496 (-51)).
  pose proof (Prim2SF_valid x) as Hvalid.
  destruct (Prim2SF x) as [s|s| |s m e].
  - split; [done|]. intros [Hle _]. by destruct s.
  - split; [done|]. intros [Hle Hlt]. by destruct s.
  - split; [done|]. by intros [Hle _].
  - pose proof (float_magnitude_one s m e Hvalid) as Hmag.
    apply valid_finite in Hvalid as (He & Hhi & Hlo).
    assert (2 ^ 52 = 4503599627370496)%Z as H52 by reflexivity.
    cbv zeta.
    set (a := (if (0 <=? e)%Z then Z.pos m * 2 ^ e else Z.pos m / 2 ^ (- e))%Z) in *.
    assert (0 ≤ a)%Z as Ha.
    { unfold a. destruct (0 <=? e)%Z eqn:Hsign.
      - apply Z.leb_le in Hsign.
        assert (0 < 2 ^ e)%Z by (apply Z.pow_pos_nonneg; lia). nia.
      - apply Z.div_pos; [lia|]. apply Z.pow_pos_nonneg; lia. }
    clearbody a. unfold SFleb, SFltb, SFcompare.
    destruct s.
    + split; [intros [= Hone]; lia | intros [Hf _]; discriminate].
    + destruct (Z.compare_spec (-52) e) as [Heq | Hlt | Hgt];
        destruct (Z.compare_spec e (-51)) as [Heq' | Hlt' | Hgt']; try lia.
      * subst e. specialize (Hlo ltac:(lia)).
        assert (a = 1%Z) as Hone by (apply Hmag; reflexivity).
        rewrite Hone.
        split; [intros _|intros _; reflexivity]. split; [|reflexivity].
        destruct (PosDef.Pos.compare_cont Eq 4503599627370496 m) eqn:Hcmp;
          [reflexivity|reflexivity|].
        apply Pos.compare_gt_iff, Pos2Z.pos_lt_pos in Hcmp. rewrite H52 in Hlo. lia.
      * subst e. specialize (Hlo ltac:(lia)).
        split; [intros [= Hone]; apply Hmag in Hone; lia|].
        intros [_ Hcmp].
        destruct (PosDef.Pos.compare_cont Eq m 4503599627370496) eqn:Hc;
          [discriminate| |discriminate].
        apply Pos.compare_lt_iff, Pos2Z.pos_lt_pos in Hc. rewrite H52 in Hlo. lia.
      * split; [intros [= Hone]; apply Hmag in Hone; lia | intros [_ Hf]; discriminate].
      * split; [intros [= Hone]; apply Hmag in Hone; lia | intros [Hf _]; discriminate].
Qed.

Lemma float_trunc_minus_one (x : float) :
  float_trunc x = Some (-1)%Z ↔ (-2 <? x)%float = true ∧ (x <=? -1)%float = true.
Proof.
  rewrite leb_spec, ltb_spec. unfold float_trunc.
  change (Prim2SF (-1)) with (S754_finite true 4503599627370496 (-52)).
  change (Prim2SF (-2)) with (S754_finite true 4503599627370496 (-51)).
  pose proof (Prim2SF_valid x) as Hvalid.
  destruct (Prim2SF x) as [s|s| |s m e].
  - split; [done|]. intros [_ Hle]. by destruct s.
  - split; [done|]. intros [Hlt Hle]. by destruct s.
  - split; [done|]. by intros [Hlt _].
  - pose proof (float_magnitude_one s m e Hvalid) as Hmag.
    apply valid_finite in Hvalid as (He & Hhi & Hlo).
    assert (2 ^ 52 = 4503599627370496)%Z as H52 by reflexivity.
    cbv zeta.
    set (a := (if (0 <=? e)%Z then Z.pos m * 2 ^ e else Z.pos m / 2 ^ (- e))%Z) in *.
    assert (0 ≤ a)%Z as Ha.
    { unfold a. destruct (0 <=? e)%Z eqn:Hsign.
      - apply Z.leb_le in Hsign.
        assert (0 < 2 ^ e)%Z by (apply Z.pow_pos_nonneg; lia). nia.
      - apply Z.div_pos; [lia|]. apply Z.pow_pos_nonneg; lia. }
    clearbody a. unfold SFleb, SFltb, SFcompare.
    destruct s.
    + destruct (Z.compare_spec (-51) e) as [Heq | Hlt | Hgt];
        destruct (Z.compare_spec e (-52)) as [Heq' | Hlt' | Hgt']; try lia.
      * subst e. specialize (Hlo ltac:(lia)).
        split; [intros [= Hone]; assert (a = 1%Z) as Hone' by lia;
                apply Hmag in Hone'; lia|].
        intros [Hcmp _].
        destruct (PosDef.Pos.compare_cont Eq 4503599627370496 m) eqn:Hc;
          [discriminate|discriminate|].
        apply Pos.compare_gt_iff, Pos2Z.pos_lt_pos in Hc. rewrite H52 in Hlo. lia.
      * split; [intros [= Hone]; assert (a = 1%Z) as Hone' by lia;
                apply Hmag in Hone'; lia | intros [Hf _]; discriminate].
      * subst e. specialize (Hlo ltac:(lia)).
        assert (a = 1%Z) as Hone by (apply Hmag; reflexivity).
        rewrite Hone.
        split; [intros _|intros _; reflexivity]. split; [reflexivity|].
        destruct (PosDef.Pos.compare_cont Eq m 4503599627370496) eqn:Hcmp;
          [reflexivity| |reflexivity].
        apply Pos.compare_lt_iff, Pos2Z.pos_lt_pos in Hcmp. rewrite H52 in Hlo. lia.
      * split; [intros [= Hone]; assert (a = 1%Z) as Hone' by lia;
                apply Hmag in Hone'; lia | intros [_ Hf]; discriminate].
    + split; [intros [= Hone]; lia | intros [_ Hf]; discriminate].
Qed.

(** 0 times a float: a zero when the float is finite, NaN when it is
    infinite. *)
Lemma float_zero_times (p : float) :
  (is_finite p = true → (0 * p =? 0)%float = true)
  ∧ (is_infinity p = true → is_nan (0 * p)%float = true).
Proof.
  unfold is_finite, is_nan, is_infinity.
  rewrite !eqb_spec, abs_spec, mul_spec.
  change (Prim2SF 0) with (S754_zero false).
  change (Prim2SF infinity) with (S754_infinity false).
  unfold SF64mul.
  destruct (Prim2SF p) as [s|s| |s m e]; simpl; split; try done.
  all: try by destruct s.
Qed.

(** The scenario in binary64, as Python prints it: a quantity of
    90.9090909090909, a P&L of 363.6363636363636, a final capital of
    1363.6363636363635 and a return of 36.36; the P&L and the gain of
    capital, 363.6363636363635, differ in the last digit. *)
Example scenario_in_binary64 :
  ∃ t s, backtest float_scenario 1000%float = Ok ([t], s)
    ∧ Entry_Price t = 11%float ∧ Exit_Price t = Some 15%float
    ∧ Qty t = 0x1.6ba2e8ba2e8bap+6%float
    ∧ PnL t = Some 0x1.6ba2e8ba2e8bap+8%float
    ∧ Total_PnL s = 0x1.6ba2e8ba2e8bap+8%float
    ∧ Final_Capital s = 0x1.54e8ba2e8ba2ep+10%float
    ∧ fsub (Final_Capital s) 1000%float = 0x1.6ba2e8ba2e8b8p+8%float
    ∧ Return_pct s = 0x1.22e147ae147aep+5%float.
Proof. eexists _, _. split; [vm_compute; reflexivity|]. by repeat split. Qed.

(** * The table of signal forms *)

Lemma lstrip_decomp s : ∃ l, s = l +:+ lstrip s ∧ all_space l = true.
Proof.
  induction s as [|c s (l & Hs & Hl)]; [by exists EmptyString|].
  simpl. destruct (is_space c) eqn:Hc.
  - exists (String c l). split; [|simpl; by rewrite Hc].
    change (String c l +:+ lstrip s) with (String c (l +:+ lstrip s)).
    by rewrite <- Hs.
  - by exists EmptyString.
Qed.

Lemma rstrip_decomp s : ∃ r, s = rstrip s +:+ r ∧ all_space r = true.
Proof.
  induction s as [|c s (r & Hs & Hr)]; [by exists EmptyString|].
  simpl. destruct (rstrip s) as [|c' s'] eqn:Hrs.
  - change (EmptyString +:+ r) with r in Hs. subst r.
    destruct (is_space c) eqn:Hc.
    + exists (String c s). split; [reflexivity|]. simpl. by rewrite Hc.
    + exists s. split; [reflexivity|done].
  - exists r. split; [|done].
    change (String c (String c' s') +:+ r) with (String c (String c' s' +:+ r)).
    by rewrite <- Hs.
Qed.

Lemma strip_decomp s :
  ∃ l r, s = l +:+ strip s +:+ r ∧ all_space l = true ∧ all_space r = true.
Proof.
  destruct (lstrip_decomp s) as (l & Hs & Hl).
  destruct (rstrip_decomp (lstrip s)) as (r & Hs' & Hr).
  exists l, r. split; [|done]. unfold strip. by rewrite <- Hs', <- Hs.
Qed.

(** A string is read as one of the forms [targets], which have no
    whitespace around them, exactly when it is one of them in any letter
    case, with any whitespace before and after it. *)
Lemma upper_strip_forms (targets : list string) s :
  Forall (λ t, strip t = t) targets →
  upper (strip s) ∈ targets
  ↔ ∃ l w r, s = l +:+ w +:+ r ∧ all_space l = true ∧ all_space r = true
             ∧ upper w ∈ targets.
Proof.
  intros Htargets. split.
  - intros Hin. destruct (strip_decomp s) as (l & r & Hs & Hl & Hr).
    by exists l, (strip s), r.
  - intros (l & w & r & -> & Hl & Hr & Hin).
    rewrite strip_app_space_l, strip_app_space_r by done.
    rewrite <- strip_upper.
    rewrite Forall_forall in Htargets. by rewrite (Htargets _ Hin).
Qed.

(** C5, as the code has it: a missing value is HOLD; an integer is BUY at 1
    and SELL at -1; a float is truncated toward zero by [int()] first, so
    that it is BUY exactly when 1 <= v < 2 and SELL exactly when
    -2 < v <= -1 (for binary64 floats, where NaN and the infinities are
    HOLD, and for exact rationals); a string of ASCII characters is stripped
    of the whitespace around it and upper-cased, and is BUY when the result
    is one of "BUY", "B", "1", SELL when it is one of "SELL", "S", "-1",
    that is, when it is one of these forms in any letter case with any
    whitespace around it; every other value is HOLD. *)
Theorem normalize_signal_table :
  (∀ (F : Type) (A : Arith F) (val : pyval F),
      isna_val val = true → _normalize_signal val = HOLD)
  ∧ (∀ (F : Type) (A : Arith F) n,
        (_normalize_signal (VInt n : pyval F) = BUY ↔ n = 1%Z)
        ∧ (_normalize_signal (VInt n : pyval F) = SELL ↔ n = (-1)%Z))
  ∧ (∀ x : float,
        (_normalize_signal (VFloat x) = BUY
         ↔ (1 <=? x)%float = true ∧ (x <? 2)%float = true)
        ∧ (_normalize_signal (VFloat x) = SELL
           ↔ (-2 <? x)%float = true ∧ (x <=? -1)%float = true))
  ∧ (∀ q : Q,
        (_normalize_signal (VFloat q) = BUY ↔ (1 <= q)%Q ∧ (q < 2)%Q)
        ∧ (_normalize_signal (VFloat q) = SELL ↔ (-2 < q)%Q ∧ (q <= -1)%Q))
  ∧ (∀ (F : Type) (A : Arith F) s,
        ascii_only s = true →
        (_normalize_signal (VStr s : pyval F) = BUY
         ↔ upper (strip s) ∈ ["BUY"; "B"; "1"])
        ∧ (_normalize_signal (VStr s : pyval F) = SELL
           ↔ upper (strip s) ∈ ["SELL"; "S"; "-1"])
        ∧ (_normalize_signal (VStr s : pyval F) = BUY
           ↔ ∃ l w r, s = l +:+ w +:+ r
                ∧ all_space l = true ∧ all_space r = true
                ∧ upper w ∈ ["BUY"; "B"; "1"])
        ∧ (_normalize_signal (VStr s : pyval F) = SELL
           ↔ ∃ l w r, s = l +:+ w +:+ r
                ∧ all_space l = true ∧ all_space r = true
                ∧ upper w ∈ ["SELL"; "S"; "-1"])).
Proof.
  split; [|split; [|split; [|split]]].
  - intros F A val. apply normalize_signal_forms.
  - intros F A n. apply normalize_signal_forms.
  - intros x.
    destruct (@normalize_signal_forms float _) as (_ & _ & Hfloat & _).
    destruct (Hfloat x) as [Hbuy Hsell].
    rewrite Hbuy, Hsell, <- float_trunc_one, <- float_trunc_minus_one.
    change (ftrunc x) with (float_trunc x). change (fisnan x) with (is_nan x).
    unfold float_trunc, is_nan. rewrite eqb_spec.
    destruct (Prim2SF x) as [s|s| |s m e]; simpl; try (intuition congruence).
    assert (SFeqb (S754_finite s m e) (S754_finite s m e) = true) as ->.
    { unfold SFeqb, SFcompare.
      destruct s; by rewrite Z.compare_refl, Pos.compare_cont_refl. }
    simpl. intuition congruence.
  - intros q.
    destruct (@normalize_signal_forms Q _) as (_ & _ & Hfloat & _).
    destruct (Hfloat q) as [Hbuy Hsell].
    rewrite Hbuy, Hsell, <- Q_ftrunc_one, <- Q_ftrunc_minus_one.
    change (fisnan q) with false. intuition congruence.
  - intros F A s _.
    destruct (@normalize_signal_forms F A) as (_ & _ & _ & Hstr).
    destruct (Hstr s) as [Hbuy Hsell].
    split; [exact Hbuy|]. split; [exact Hsell|]. split.
    + rewrite Hbuy. apply upper_strip_forms. by repeat constructor.
    + rewrite Hsell. apply upper_strip_forms. by repeat constructor.
Qed.

(** * The guarded division *)

(** C10, as the code has it: the loop never raises, and opening a position
    never raises: the capital is divided by the price only when the price is
    greater than 0, hence not zero, and at any other price the quantity is
    0 and the capital is not touched; when a position of quantity 0 is
    closed, by a SELL or by the forced close, the capital becomes 0 times
    the exit price: 0 in exact arithmetic, and for binary64 floats a zero
    when the exit price is finite and NaN when it is infinite. *)
Theorem guarded_position_size :
  (∀ (F : Type) (A : Arith F) (df : DataFrame F) initial_capital,
      ∃ st, run_loop df initial_capital = Ok st)
  ∧ (∀ (F : Type) (A : Arith F) (st : State F) d p,
        ∃ st1 t, do_buy d p st = Ok st1
          ∧ trades st1 = trades st ++ [t]
          ∧ Entry_Date t = d ∧ Entry_Price t = p
          ∧ entry_qty st1 = Some (Qty t)
          ∧ in_position st1 = true ∧ capital st1 = capital st
          ∧ (fgt0 p = true → feq0 p = false ∧ Qty t = fdiv (capital st) p)
          ∧ (fgt0 p = false → Qty t = fzero))
  ∧ (∀ (F : Type) (A : Arith F) (st : State F) d p,
        position_ok st → in_position st = true → entry_qty st = Some fzero →
        ∃ st2, execute SELL d p st = Ok st2
          ∧ in_position st2 = false ∧ capital st2 = fmul fzero p)
  ∧ (∀ (F : Type) (A : Arith F) df (st : State F) last_row p,
        position_ok st → in_position st = true → entry_qty st = Some fzero →
        last (df_rows df) = Some last_row → close_else_open df last_row p →
        ∃ st2, force_close df st = Ok st2
          ∧ in_position st2 = false ∧ capital st2 = fmul fzero p)
  ∧ (∀ p : Q, fmul fzero p = 0%Q)
  ∧ (∀ p : float,
        (is_finite p = true → feq0 (fmul fzero p) = true)
        ∧ (is_infinity p = true → fisnan (fmul fzero p) = true)).
Proof.
  split; [|split; [|split; [|split; [|split]]]].
  - intros F A df initial_capital.
    destruct (simulate_total df initial_capital) as (st0 & _ & Hrun & _). eauto.
  - intros F A st d p.
    exists (after_buy d p st), (open_trade d p (buy_qty (capital st) p)).
    split; [apply do_buy_eq|]. do 6 (split; [done|]).
    unfold buy_qty. simpl. split.
    + intros Hgt. rewrite Hgt. split; [by apply fgt0_nonzero|done].
    + by intros ->.
  - intros F A st d p Hok Hpos Hqty.
    destruct (in_position_holding st Hok Hpos) as (tl & t & Htl & _ & _ & Hep & Heq).
    unfold execute. rewrite Hpos.
    erewrite do_sell_eq by done. eexists. split; [done|]. split; [done|].
    simpl. rewrite Hqty in Heq. by injection Heq as <-.
  - intros F A df st last_row p Hok Hpos Hqty Hlast Hprice%last_price_of_spec.
    destruct (in_position_holding st Hok Hpos) as (tl & t & Htl & _ & _ & Hep & Heq).
    erewrite force_close_holding by done. rewrite Hprice.
    eexists. split; [done|]. split; [done|].
    simpl. rewrite Hqty in Heq. by injection Heq as <-.
  - apply Q_fmul_zero.
  - apply float_zero_times.
Qed.

(** A BUY filled at a price of 0 opens a position of quantity 0; the SELL
    that closes it at an infinite price, which [pd.isna] lets through,
    leaves a capital of NaN, not of 0. *)
Lemma zero_quantity_closed_at_infinity :
  ∃ t s, backtest infinite_exit 1000%float = Ok ([t], s)
    ∧ Entry_Price t = 0%float ∧ Qty t = 0%float
    ∧ Exit_Price t = Some infinity
    ∧ fisnan (Final_Capital s) = true
    ∧ feq0 (Final_Capital s) = false.
Proof. eexists _, _. split; [vm_compute; reflexivity|]. by repeat split. Qed.
